(** * anydrop: the signalling server (server.ts)

    A shallow embedding of the rendezvous server: the network classifier
    ([isPrivateIP], [getNetworkGroup]), the two process-wide maps
    ([devices], [ipGroups]), the handlers installed by
    [io.on('connection', ...)], and the periodic [cleanupDevices] sweep.

    JavaScript strings are modelled as Rocq strings (the bytes of their
    UTF-8 encoding: the classifier only looks for ASCII characters, which
    never occur inside a multi-byte sequence).  [Map] and [Set] keep
    insertion order in JavaScript, and the order in which notices are sent
    follows it, so both are association lists / lists in insertion order.
    [Date.now()] is an input of the events that read it. *)

From Stdlib Require Import List String Ascii ZArith Lia Bool Arith.
Import ListNotations.
Open Scope string_scope.
Open Scope list_scope.

(* ================================================================== *)
(** ** String primitives used by the classifier *)

Module Js.

(** [s.split(sep)] for a one-character separator: always at least one
    component, [n] separators give [n + 1] components. *)
Fixpoint split (sep : ascii) (s : string) : list string :=
  match s with
  | EmptyString => [EmptyString]
  | String c r =>
      if Ascii.eqb c sep then EmptyString :: split sep r
      else match split sep r with
           | [] => [String c EmptyString]
           | p :: ps => String c p :: ps
           end
  end.

(** [parts.slice(0, n)] *)
Definition slice0 {A : Type} (n : nat) (l : list A) : list A := firstn n l.

(** [parts.join(sep)] *)
Definition join (sep : string) (l : list string) : string := String.concat sep l.

(** [parts[i] === lit]: an index out of range reads [undefined], which
    is not equal to any string. *)
Definition index_is (parts : list string) (i : nat) (lit : string) : bool :=
  match nth_error parts i with
  | Some p => String.eqb p lit
  | None => false
  end.

(** Number of occurrences of a character. *)
Fixpoint count_char (c : ascii) (s : string) : nat :=
  match s with
  | EmptyString => 0
  | String a r => (if Ascii.eqb a c then 1 else 0) + count_char c r
  end.

(** A character class of a regular expression. *)
Definition cls := ascii -> bool.

Definition lit (c : ascii) : cls := fun a => Ascii.eqb a c.

Definition range (lo hi : ascii) : cls :=
  fun a => Nat.leb (nat_of_ascii lo) (nat_of_ascii a) && Nat.leb (nat_of_ascii a) (nat_of_ascii hi).

Definition lits (s : string) : list cls := map lit (list_ascii_of_string s).

(** [/^c1c2...cn/.test(s)] for a sequence of character classes: the
    anchored match only reads the first [n] characters. *)
Fixpoint test_prefix (p : list cls) (s : string) : bool :=
  match p with
  | [] => true
  | c :: p' =>
      match s with
      | EmptyString => false
      | String a s' => c a && test_prefix p' s'
      end
  end.

End Js.

(* ================================================================== *)
(** ** Network classifier *)

(** [/^10\./] *)
Definition re_10 : list Js.cls := Js.lits "10.".

(** [/^192\.168\./] *)
Definition re_192_168 : list Js.cls := Js.lits "192.168.".

(** [/^172\.(1[6-9]|2[0-9]|3[0-1])\./]: the three alternatives of the group. *)
Definition re_172_1x : list Js.cls :=
  Js.lits "172." ++ [Js.lit "1"; Js.range "6" "9"; Js.lit "."].
Definition re_172_2x : list Js.cls :=
  Js.lits "172." ++ [Js.lit "2"; Js.range "0" "9"; Js.lit "."].
Definition re_172_3x : list Js.cls :=
  Js.lits "172." ++ [Js.lit "3"; Js.range "0" "1"; Js.lit "."].

Definition re_172 (ip : string) : bool :=
  Js.test_prefix re_172_1x ip || Js.test_prefix re_172_2x ip || Js.test_prefix re_172_3x ip.

Definition isPrivateIP (ip : string) : bool :=
  Js.test_prefix re_10 ip || Js.test_prefix re_192_168 ip || re_172 ip.

(** The [if (isPrivateIP(ip)) { ... }] block of [getNetworkGroup]: [Some]
    when one of its three [return]s fires, [None] when control falls out of
    the block. *)
Definition private_tag (ip : string) : option string :=
  if isPrivateIP ip then
    let parts := Js.split "." ip in
    if Js.index_is parts 0 "10" then Some "LAN-10"
    else if Js.index_is parts 0 "192" && Js.index_is parts 1 "168" then Some "LAN-192.168"
    else if Js.index_is parts 0 "172" then Some "LAN-172"
    else None
  else None.

(** The second octets of 172.16.0.0/12. *)
Definition octets_172 : list string :=
  ["16"; "17"; "18"; "19"; "20"; "21"; "22"; "23";
   "24"; "25"; "26"; "27"; "28"; "29"; "30"; "31"].

Definition getNetworkGroup (ip : string) : string :=
  match private_tag ip with
  | Some tag => tag
  | None =>
      let parts := Js.split "." ip in
      Js.join "." (Js.slice0 3 parts)
  end.

(* ================================================================== *)
(** ** [Map<string, V>] and [Set<string>], in insertion order *)

Module JsMap.

Definition t (V : Type) : Type := list (string * V).

Fixpoint get {V : Type} (k : string) (m : t V) : option V :=
  match m with
  | [] => None
  | (k', v) :: r => if String.eqb k k' then Some v else get k r
  end.

Definition has {V : Type} (k : string) (m : t V) : bool :=
  match get k m with Some _ => true | None => false end.

(** [m.set(k, v)]: an existing key keeps its place, a new key goes last. *)
Fixpoint set {V : Type} (k : string) (v : V) (m : t V) : t V :=
  match m with
  | [] => [(k, v)]
  | (k', v') :: r => if String.eqb k k' then (k, v) :: r else (k', v') :: set k v r
  end.

Definition delete {V : Type} (k : string) (m : t V) : t V :=
  filter (fun kv => negb (String.eqb (fst kv) k)) m.

Definition keys {V : Type} (m : t V) : list string := map fst m.

End JsMap.

Module JsSet.

Definition t : Type := list string.

(** [new Set()] *)
Definition empty : t := [].

Definition has (x : string) (s : t) : bool := existsb (String.eqb x) s.

Definition add (x : string) (s : t) : t := if has x s then s else s ++ [x].

Definition delete (x : string) (s : t) : t :=
  filter (fun y => negb (String.eqb y x)) s.

Definition size (s : t) : nat := List.length s.

End JsSet.

(* ================================================================== *)
(** ** Data model *)

(** [interface DeviceInfo]: the optional fields are [None] while absent. *)
Record DeviceInfo : Type := {
  id : string;
  lastSeen : Z;
  type : option string;
  icon : option string;
  name : option string;
  groupKey : option string
}.

(** A value of type [any] (the [signal] field), forwarded untouched. *)
#[local] Unset Elimination Schemes.
Inductive JsValue : Type :=
| JsNull
| JsBool (b : bool)
| JsNumber (z : Z)
| JsString (s : string)
| JsArray (items : list JsValue)
| JsObject (fields : list (string * JsValue)).
#[local] Set Elimination Schemes.

(** The [data] argument of the seven forwarding handlers.  Numbers are only
    copied, never computed with, so [Z] stands for [number]; [chunk] is the
    content of the [ArrayBuffer]. *)
Inductive RelayData : Type :=
| SendMessage (targetId message : string)
| FileTransferRequest (targetId fileName : string) (fileSize : Z) (transferId : string)
| FileTransferResponse (targetId transferId : string) (accepted : bool)
| FileData (targetId : string) (chunk : list Byte.byte) (fileName transferId : string)
           (offset totalSize : Z)
| CancelTransfer (targetId transferId : string)
| Signal (targetId : string) (signal : JsValue)
| P2pFailed (targetId transferId : string).

(** What the server emits: one constructor per outbound event name. *)
Inductive OutMsg : Type :=
| DeviceInfoMsg (self : string) (peers : list DeviceInfo)
| DeviceJoined (who : string)
| DeviceLeft (who : string)
| DeviceInfoUpdate (who ty ic nm : string)
| MessageMsg (fromId message : string)
| FileTransferRequestMsg (fromId fileName : string) (fileSize : Z) (transferId : string)
| FileTransferResponseMsg (fromId transferId : string) (accepted : bool)
| FileDataMsg (fromId : string) (chunk : list Byte.byte) (fileName transferId : string)
              (offset totalSize : Z)
| CancelTransferMsg (fromId transferId : string)
| SignalMsg (fromId : string) (signal : JsValue)
| P2pFailedMsg (fromId transferId : string).

(** The first argument of [emit]. *)
Definition event_name (m : OutMsg) : string :=
  match m with
  | DeviceInfoMsg _ _ => "device-info"
  | DeviceJoined _ => "device-joined"
  | DeviceLeft _ => "device-left"
  | DeviceInfoUpdate _ _ _ _ => "device-info-update"
  | MessageMsg _ _ => "message"
  | FileTransferRequestMsg _ _ _ _ => "file-transfer-request"
  | FileTransferResponseMsg _ _ _ => "file-transfer-response"
  | FileDataMsg _ _ _ _ _ _ => "file-data"
  | CancelTransferMsg _ _ => "cancel-transfer"
  | SignalMsg _ _ => "signal"
  | P2pFailedMsg _ _ => "p2p-failed"
  end.

(** A call of [socket.emit(...)] or of [io.to(room).emit(...)]. *)
Inductive Emit : Type :=
| SocketEmit (sid : string) (m : OutMsg)
| RoomEmit (room : string) (m : OutMsg).

(** The two process-wide maps. *)
Record State : Type := {
  devices : JsMap.t DeviceInfo;
  ipGroups : JsMap.t JsSet.t
}.

Definition initial : State := {| devices := []; ipGroups := [] |}.

(** [if (device.groupKey)]: [undefined] and the empty string are falsy. *)
Definition truthy (o : option string) : option string :=
  match o with
  | Some s => if String.eqb s "" then None else Some s
  | None => None
  end.

(** Members of a group, [[]] when the key has no entry. *)
Definition members (gk : string) (g : JsMap.t JsSet.t) : JsSet.t :=
  match JsMap.get gk g with Some m => m | None => [] end.

Definition registered (sid : string) (s : State) : bool := JsMap.has sid (devices s).

(* ================================================================== *)
(** ** Handlers

    Every handler runs to completion before the next one starts (Node's
    event loop), so each is a function from the state before to the state
    after together with the [emit] calls it made, in order.  A handler that
    dereferences a non-null assertion ([!]) on a missing entry raises a
    [TypeError]: the result is then [None]. *)

(** The three statements shared by [cleanupDevices] (lines 44-51) and the
    [disconnect] handler (lines 246-251), inside [if (groupKey)]:
    remove [sid] from the set of [gk], drop the set when it became empty,
    then send [device-left] to what is left of it. *)
Definition leaveGroup (sid gk : string) (g : JsMap.t JsSet.t)
  : JsMap.t JsSet.t * list Emit :=
  let g1 :=
    match JsMap.get gk g with
    | Some m => JsMap.set gk (JsSet.delete sid m) g
    | None => g
    end in
  let g2 :=
    match JsMap.get gk g1 with
    | Some m => if Nat.eqb (JsSet.size m) 0 then JsMap.delete gk g1 else g1
    | None => g1
    end in
  let out :=
    match JsMap.get gk g2 with
    | Some m => map (fun r => RoomEmit r (DeviceLeft sid)) m
    | None => []
    end in
  (g2, out).

(** Body of the loop of [cleanupDevices] for one entry [[sid, device]]. *)
Definition cleanupEntry (now : Z) (acc : State * list Emit) (entry : string * DeviceInfo)
  : State * list Emit :=
  let '(s, out) := acc in
  let '(sid, device) := entry in
  if (now - lastSeen device >? 30000)%Z then
    let '(g, notices) :=
      match truthy (groupKey device) with
      | Some gk => leaveGroup sid gk (ipGroups s)
      | None => (ipGroups s, [])
      end in
    ({| devices := JsMap.delete sid (devices s); ipGroups := g |}, out ++ notices)
  else (s, out).

(** [cleanupDevices()], with [now] the value of [Date.now()].  The loop
    deletes only the entry it is visiting, so the live iterator of the Map
    visits exactly the entries present when the loop starts, in order. *)
Definition cleanupDevices (now : Z) (s : State) : State * list Emit :=
  fold_left (cleanupEntry now) (devices s) (s, []).

(** [io.on('connection', ...)]: lines 89-121, with [ip] the value computed
    on line 95 and [now] the value of [Date.now()] on line 119. *)
Definition onConnection (sid ip : string) (now : Z) (s : State)
  : option (State * list Emit) :=
  let devices1 :=
    if JsMap.has sid (devices s) then JsMap.delete sid (devices s) else devices s in
  let gk := getNetworkGroup ip in
  let g1 : JsMap.t JsSet.t :=
    if negb (JsMap.has gk (ipGroups s)) then JsMap.set gk JsSet.empty (ipGroups s)
    else ipGroups s in
  match JsMap.get gk g1 with
  | None => None
  | Some m =>
      let g2 := JsMap.set gk (JsSet.add sid m) g1 in
      match JsMap.get gk g2 with
      | None => None
      | Some m2 =>
          let others := filter (fun i => negb (String.eqb i sid)) m2 in
          let roster :=
            flat_map (fun i => match JsMap.get i devices1 with
                               | Some d => [d]
                               | None => []
                               end) others in
          let joined := map (fun i => RoomEmit i (DeviceJoined sid)) others in
          let record :=
            {| id := sid; lastSeen := now; type := None; icon := None; name := None;
               groupKey := Some gk |} in
          Some ({| devices := JsMap.set sid record devices1; ipGroups := g2 |},
                SocketEmit sid (DeviceInfoMsg sid roster) :: joined)
      end
  end.

(** [socket.on('heartbeat', ...)] *)
Definition onHeartbeat (sid : string) (now : Z) (s : State) : State * list Emit :=
  match JsMap.get sid (devices s) with
  | Some device =>
      let device' :=
        {| id := id device; lastSeen := now; type := type device; icon := icon device;
           name := name device; groupKey := groupKey device |} in
      ({| devices := JsMap.set sid device' (devices s); ipGroups := ipGroups s |}, [])
  | None => (s, [])
  end.

(** [socket.on('device-info', ...)] *)
Definition onDeviceInfo (sid ty ic nm : string) (s : State) : option (State * list Emit) :=
  match JsMap.get sid (devices s) with
  | Some deviceInfo =>
      let deviceInfo' :=
        {| id := id deviceInfo; lastSeen := lastSeen deviceInfo;
           type := Some ty; icon := Some ic; name := Some nm;
           groupKey := groupKey deviceInfo |} in
      let s' := {| devices := JsMap.set sid deviceInfo' (devices s);
                   ipGroups := ipGroups s |} in
      match truthy (groupKey deviceInfo') with
      | Some gk =>
          match JsMap.get gk (ipGroups s) with
          | Some m => Some (s', map (fun i => RoomEmit i (DeviceInfoUpdate sid ty ic nm)) m)
          | None => None
          end
      | None => Some (s', [])
      end
  | None => Some (s, [])
  end.

(** The [targetId] field of the data of a forwarding handler. *)
Definition target (d : RelayData) : string :=
  match d with
  | SendMessage t _ => t
  | FileTransferRequest t _ _ _ => t
  | FileTransferResponse t _ _ => t
  | FileData t _ _ _ _ _ => t
  | CancelTransfer t _ => t
  | Signal t _ => t
  | P2pFailed t _ => t
  end.

(** The object each forwarding handler emits: the fields of [data] other
    than [targetId], with [fromId: socket.id] added. *)
Definition forward (sid : string) (d : RelayData) : OutMsg :=
  match d with
  | SendMessage _ message => MessageMsg sid message
  | FileTransferRequest _ fileName fileSize transferId =>
      FileTransferRequestMsg sid fileName fileSize transferId
  | FileTransferResponse _ transferId accepted =>
      FileTransferResponseMsg sid transferId accepted
  | FileData _ chunk fileName transferId offset totalSize =>
      FileDataMsg sid chunk fileName transferId offset totalSize
  | CancelTransfer _ transferId => CancelTransferMsg sid transferId
  | Signal _ signal => SignalMsg sid signal
  | P2pFailed _ transferId => P2pFailedMsg sid transferId
  end.

(** [socket.on('send-message' | 'file-transfer-request' |
    'file-transfer-response' | 'file-data' | 'cancel-transfer' | 'signal' |
    'p2p-failed', ...)]: one [io.to(targetId).emit(...)] each. *)
Definition onRelay (sid : string) (d : RelayData) (s : State) : State * list Emit :=
  (s, [RoomEmit (target d) (forward sid d)]).

(** [socket.on('disconnect', ...)] *)
Definition onDisconnect (sid : string) (s : State) : State * list Emit :=
  let '(g, notices) :=
    match JsMap.get sid (devices s) with
    | Some device =>
        match truthy (groupKey device) with
        | Some gk => leaveGroup sid gk (ipGroups s)
        | None => (ipGroups s, [])
        end
    | None => (ipGroups s, [])
    end in
  ({| devices := JsMap.delete sid (devices s); ipGroups := g |}, notices).

(* ================================================================== *)
(** ** The transport

    The server only asks the transport to deliver: [socket.emit] sends to
    the connection itself, [io.to(room).emit] to the sockets that joined
    [room].  The server never calls [join], so the only room a socket is in
    is the one named by its own id, from the moment its [connection] event
    fires until it disconnects (it has left the room when the [disconnect]
    handler runs).  [sockets] is the set of ids of the open connections.
    The sweep does not close the connection of the record it removes. *)

Record World : Type := {
  server : State;
  sockets : JsSet.t
}.

Definition boot : World := {| server := initial; sockets := [] |}.

Inductive Event : Type :=
| Connection (sid ip : string) (now : Z)
| Heartbeat (sid : string) (now : Z)
| DeviceInfoEv (sid ty ic nm : string)
| Relay (sid : string) (d : RelayData)
| Disconnect (sid : string)
| Tick (now : Z).

(** One turn of the event loop.  The per-socket handlers exist only while
    the socket is open: an event named for a socket that is not open has
    no handler to run. *)
Definition step (w : World) (e : Event) : option (World * list Emit) :=
  match e with
  | Connection sid ip now =>
      match onConnection sid ip now (server w) with
      | Some (s', out) => Some ({| server := s'; sockets := JsSet.add sid (sockets w) |}, out)
      | None => None
      end
  | Heartbeat sid now =>
      if JsSet.has sid (sockets w) then
        let '(s', out) := onHeartbeat sid now (server w) in
        Some ({| server := s'; sockets := sockets w |}, out)
      else Some (w, [])
  | DeviceInfoEv sid ty ic nm =>
      if JsSet.has sid (sockets w) then
        match onDeviceInfo sid ty ic nm (server w) with
        | Some (s', out) => Some ({| server := s'; sockets := sockets w |}, out)
        | None => None
        end
      else Some (w, [])
  | Relay sid d =>
      if JsSet.has sid (sockets w) then
        let '(s', out) := onRelay sid d (server w) in
        Some ({| server := s'; sockets := sockets w |}, out)
      else Some (w, [])
  | Disconnect sid =>
      if JsSet.has sid (sockets w) then
        let '(s', out) := onDisconnect sid (server w) in
        Some ({| server := s'; sockets := JsSet.delete sid (sockets w) |}, out)
      else Some (w, [])
  | Tick now =>
      let '(s', out) := cleanupDevices now (server w) in
      Some ({| server := s'; sockets := sockets w |}, out)
  end.

(** What one [emit] call puts on the wire: the receiving connection and
    the message. *)
Definition received (socks : JsSet.t) (e : Emit) : list (string * OutMsg) :=
  match e with
  | SocketEmit sid m => [(sid, m)]
  | RoomEmit room m => if JsSet.has room socks then [(room, m)] else []
  end.

Definition deliveries (socks : JsSet.t) (out : list Emit) : list (string * OutMsg) :=
  flat_map (received socks) out.

(** A turn as the clients see it: the next world and what each connection
    receives. *)
Definition react (w : World) (e : Event) : option (World * list (string * OutMsg)) :=
  match step w e with
  | Some (w', out) => Some (w', deliveries (sockets w') out)
  | None => None
  end.

(** A sequence of turns, with everything delivered along the way. *)
Fixpoint run (w : World) (es : list Event) : option (World * list (string * OutMsg)) :=
  match es with
  | [] => Some (w, [])
  | e :: es' =>
      match react w e with
      | Some (w', ds) =>
          match run w' es' with
          | Some (w'', ds') => Some (w'', ds ++ ds')
          | None => None
          end
      | None => None
      end
  end.

(** The worlds the server can be in. *)
Inductive reachable : World -> Prop :=
| reachable_boot : reachable boot
| reachable_step w e w' out :
    reachable w -> step w e = Some (w', out) -> reachable w'.

(* ------------------------------------------------------------------ *)
(** ** Properties of worlds *)

Definition expired (now : Z) (d : DeviceInfo) : bool := (now - lastSeen d >? 30000)%Z.

(** What holds of the two maps in every world the server can be in:
    [devices] has one entry per key, the sets have no duplicates, every
    record carries its own key and a group key whose set contains it. *)
Record coherent (s : State) : Prop := {
  coherent_keys : NoDup (JsMap.keys (devices s));
  coherent_sets : forall gk m, JsMap.get gk (ipGroups s) = Some m -> NoDup m;
  coherent_record : forall sid d, JsMap.get sid (devices s) = Some d ->
      id d = sid /\
      exists gk, groupKey d = Some gk /\ In sid (members gk (ipGroups s))
}.

(** ... and every registered id is the id of an open connection. *)
Record sound (w : World) : Prop := {
  sound_server : coherent (server w);
  sound_open : forall sid, registered sid (server w) = true ->
      JsSet.has sid (sockets w) = true
}.

(** Every record carries a non-empty group key. *)
Definition keyed (s : State) : Prop :=
  forall sid d gk, JsMap.get sid (devices s) = Some d -> groupKey d = Some gk -> gk <> "".

(** The members of each group are the registered ids whose record names it. *)
Definition index_matches_registry (s : State) : Prop :=
  forall gk sid,
    In sid (members gk (ipGroups s)) <->
    exists d, JsMap.get sid (devices s) = Some d /\ groupKey d = Some gk.

Definition no_empty_group (s : State) : Prop :=
  forall gk m, JsMap.get gk (ipGroups s) = Some m -> m <> [].

(** Registry and group index agree. *)
Record agree (s : State) : Prop := {
  agree_coherent : coherent s;
  agree_keyed : keyed s;
  agree_index : index_matches_registry s;
  agree_no_empty : no_empty_group s
}.

Record consistent (w : World) : Prop := {
  consistent_server : agree (server w);
  consistent_open : forall sid, registered sid (server w) = true ->
      JsSet.has sid (sockets w) = true
}.

(** Removal of the record [device] stored under [sid]: what the body of
    the sweep does for an expired entry and what [disconnect] does for a
    registered socket. *)
Definition evict (sid : string) (device : DeviceInfo) (s : State) : State * list Emit :=
  let '(g, notices) :=
    match truthy (groupKey device) with
    | Some gk => leaveGroup sid gk (ipGroups s)
    | None => (ipGroups s, [])
    end in
  ({| devices := JsMap.delete sid (devices s); ipGroups := g |}, notices).

(** The sweep seen on each map separately. *)
Definition sweepDevices (now : Z) (l : list (string * DeviceInfo)) (d : JsMap.t DeviceInfo)
  : JsMap.t DeviceInfo :=
  fold_left (fun acc e => if expired now (snd e) then JsMap.delete (fst e) acc else acc) l d.

Fixpoint sweepGroups (now : Z) (l : list (string * DeviceInfo)) (g : JsMap.t JsSet.t)
  : JsMap.t JsSet.t * list Emit :=
  match l with
  | [] => (g, [])
  | (sid, device) :: rest =>
      if expired now device then
        match truthy (groupKey device) with
        | Some gk =>
            let '(g1, notices) := leaveGroup sid gk g in
            let '(g2, more) := sweepGroups now rest g1 in
            (g2, notices ++ more)
        | None => sweepGroups now rest g
        end
      else sweepGroups now rest g
  end.

(** An event a transport with unique connection ids and non-empty peer
    addresses can deliver in world [w]. *)
Definition fresh (w : World) (e : Event) : bool :=
  match e with
  | Connection sid ip _ =>
      negb (registered sid (server w)) && negb (String.eqb ip "")
  | _ => true
  end.

Fixpoint fresh_trace (w : World) (es : list Event) : bool :=
  match es with
  | [] => true
  | e :: es' =>
      fresh w e &&
      match step w e with
      | Some (w', _) => fresh_trace w' es'
      | None => false
      end
  end.

(** The same condition on the side of the transport: socket.io gives
    every connection an id that no open connection has, and
    [socket.handshake.address] is never the empty string. *)
Definition deliverable (w : World) (e : Event) : bool :=
  match e with
  | Connection sid ip _ =>
      negb (JsSet.has sid (sockets w)) && negb (String.eqb ip "")
  | _ => true
  end.

Fixpoint deliverable_trace (w : World) (es : list Event) : bool :=
  match es with
  | [] => true
  | e :: es' =>
      deliverable w e &&
      match step w e with
      | Some (w', _) => deliverable_trace w' es'
      | None => false
      end
  end.

(* ------------------------------------------------------------------ *)
(** ** Counting what is sent and what arrives *)

Definition is_left (x : string) (m : OutMsg) : bool :=
  match m with DeviceLeft y => String.eqb y x | _ => false end.

Definition is_joined (x : string) (m : OutMsg) : bool :=
  match m with DeviceJoined y => String.eqb y x | _ => false end.

Definition is_update (x ty ic nm : string) (m : OutMsg) : bool :=
  match m with
  | DeviceInfoUpdate y ty' ic' nm' =>
      String.eqb y x && String.eqb ty' ty && String.eqb ic' ic && String.eqb nm' nm
  | _ => false
  end.

(** Number of [emit] calls addressed to [r] whose message satisfies [p]. *)
Definition sent (r : string) (p : OutMsg -> bool) (out : list Emit) : nat :=
  List.length
    (filter (fun e => match e with
                      | SocketEmit r' m => String.eqb r' r && p m
                      | RoomEmit r' m => String.eqb r' r && p m
                      end) out).

(** Number of messages satisfying [p] that connection [r] receives. *)
Definition got (r : string) (p : OutMsg -> bool) (ds : list (string * OutMsg)) : nat :=
  List.length (filter (fun d => String.eqb (fst d) r && p (snd d)) ds).

(* ------------------------------------------------------------------ *)
(** ** Vocabulary for the statements *)

(** The name under which each forwarding handler is installed ... *)
Definition inbound_name (d : RelayData) : string :=
  match d with
  | SendMessage _ _ => "send-message"
  | FileTransferRequest _ _ _ _ => "file-transfer-request"
  | FileTransferResponse _ _ _ => "file-transfer-response"
  | FileData _ _ _ _ _ _ => "file-data"
  | CancelTransfer _ _ => "cancel-transfer"
  | Signal _ _ => "signal"
  | P2pFailed _ _ => "p2p-failed"
  end.

(** ... and the name it emits under: the same, except for chat messages. *)
Definition outbound_name (d : RelayData) : string :=
  match d with
  | SendMessage _ _ => "message"
  | _ => inbound_name d
  end.

(** The [fromId] field of a forwarded message. *)
Definition sender (m : OutMsg) : option string :=
  match m with
  | MessageMsg f _ => Some f
  | FileTransferRequestMsg f _ _ _ => Some f
  | FileTransferResponseMsg f _ _ => Some f
  | FileDataMsg f _ _ _ _ _ => Some f
  | CancelTransferMsg f _ => Some f
  | SignalMsg f _ => Some f
  | P2pFailedMsg f _ => Some f
  | _ => None
  end.

(** The data a forwarded message was built from, given its target: every
    field of the data can be read back from the message. *)
Definition unforward (targetId : string) (m : OutMsg) : option RelayData :=
  match m with
  | MessageMsg _ message => Some (SendMessage targetId message)
  | FileTransferRequestMsg _ fileName fileSize transferId =>
      Some (FileTransferRequest targetId fileName fileSize transferId)
  | FileTransferResponseMsg _ transferId accepted =>
      Some (FileTransferResponse targetId transferId accepted)
  | FileDataMsg _ chunk fileName transferId offset totalSize =>
      Some (FileData targetId chunk fileName transferId offset totalSize)
  | CancelTransferMsg _ transferId => Some (CancelTransfer targetId transferId)
  | SignalMsg _ signal => Some (Signal targetId signal)
  | P2pFailedMsg _ transferId => Some (P2pFailed targetId transferId)
  | _ => None
  end.

Definition is_relay (e : Event) : bool :=
  match e with Relay _ _ => true | _ => false end.

(** [e] is a connection under the id [x]. *)
Definition connects (x : string) (e : Event) : bool :=
  match e with Connection y _ _ => String.eqb y x | _ => false end.

(** The group key in the record of [sid], if it has one. *)
Definition group_of (sid : string) (s : State) : option string :=
  match JsMap.get sid (devices s) with
  | Some d => groupKey d
  | None => None
  end.

(** A discovery roster that does not list [x]. *)
Definition roster_without (x : string) (m : OutMsg) : Prop :=
  match m with
  | DeviceInfoMsg _ peers => forall p, In p peers -> id p <> x
  | _ => True
  end.

(** The connection [x], whose [lastSeen] is [last], stays connected and
    every sweep of the trace comes at most 20 seconds after the latest
    refresh of its [lastSeen] (a heartbeat, or a registration). *)
Fixpoint kept_alive (x : string) (last : Z) (es : list Event) : bool :=
  match es with
  | [] => true
  | Connection y _ now :: rest =>
      if String.eqb y x then kept_alive x now rest else kept_alive x last rest
  | Heartbeat y now :: rest =>
      if String.eqb y x then kept_alive x now rest else kept_alive x last rest
  | Disconnect y :: rest => negb (String.eqb y x) && kept_alive x last rest
  | Tick now :: rest => (now - last <=? 20000)%Z && kept_alive x last rest
  | _ :: rest => kept_alive x last rest
  end.

(* ================================================================== *)
(** ** The peer address (line 95) and the rest of the file *)

(** The code points [String.prototype.trim] removes (WhiteSpace and
    LineTerminator of ECMAScript), each as the bytes of its UTF-8 encoding:
    U+0009..U+000D, U+0020, U+00A0, U+1680, U+2000..U+200A, U+2028,
    U+2029, U+202F, U+205F, U+3000, U+FEFF. *)
Definition whitespace : list (list N) :=
  [[9]; [10]; [11]; [12]; [13]; [32]; [194; 160]; [225; 154; 128];
   [226; 128; 128]; [226; 128; 129]; [226; 128; 130]; [226; 128; 131];
   [226; 128; 132]; [226; 128; 133]; [226; 128; 134]; [226; 128; 135];
   [226; 128; 136]; [226; 128; 137]; [226; 128; 138];
   [226; 128; 168]; [226; 128; 169]; [226; 128; 175]; [226; 129; 159];
   [227; 128; 128]; [239; 187; 191]]%N.

(** The characters of [s] after the byte sequence [p], when [s] starts
    with it. *)
Fixpoint after_bytes (p : list N) (s : list ascii) : option (list ascii) :=
  match p with
  | [] => Some s
  | n :: p' =>
      match s with
      | c :: r => if N.eqb (N_of_ascii c) n then after_bytes p' r else None
      | [] => None
      end
  end.

(** [s] without one leading white space, if it starts with one. *)
Fixpoint strip_one (table : list (list N)) (s : list ascii) : option (list ascii) :=
  match table with
  | [] => None
  | p :: rest =>
      match after_bytes p s with
      | Some r => Some r
      | None => strip_one rest s
      end
  end.

(** Leading white space removed; every removal shortens the string, so
    its length is fuel enough. *)
Fixpoint strip_leading (table : list (list N)) (fuel : nat) (s : list ascii) : list ascii :=
  match fuel with
  | 0 => s
  | S fuel' =>
      match strip_one table s with
      | Some r => strip_leading table fuel' r
      | None => s
      end
  end.

Definition trimStart (s : list ascii) : list ascii :=
  strip_leading whitespace (List.length s) s.

(** Trailing white space: the same on the reversed string, with each
    encoding reversed. *)
Definition trimEnd (s : list ascii) : list ascii :=
  rev (strip_leading (map (@rev N) whitespace) (List.length s) (rev s)).

(** [s.trim()] *)
Definition trim (s : string) : string :=
  string_of_list_ascii (trimEnd (trimStart (list_ascii_of_string s))).

(** What the handler reads of [socket.handshake]: the [x-forwarded-for]
    header, absent or a string, and [address]. *)
Record Handshake : Type := {
  x_forwarded_for : option string;
  address : string
}.

(** Line 95:
    [headers['x-forwarded-for']?.toString().split(',')[0].trim() || address].
    [split] always has a first component; the empty string is falsy. *)
Definition peerAddress (h : Handshake) : string :=
  match x_forwarded_for h with
  | Some header =>
      let first := trim (hd EmptyString (Js.split "," header)) in
      if String.eqb first "" then address h else first
  | None => address h
  end.

(** The whole [connection] callback, from the handshake. *)
Definition onSocket (sid : string) (h : Handshake) (now : Z) (s : State)
  : option (State * list Emit) :=
  onConnection sid (peerAddress h) now s.

(** An entry of [os.networkInterfaces()[name]]. *)
Record NetworkInterfaceInfo : Type := {
  family : string;
  internal : bool;
  iface_address : string
}.

(** The first address of [ifaces] with [family === 'IPv4' && !internal]:
    the inner loop of [getLocalIP]. *)
Fixpoint firstExternalIPv4 (ifaces : list NetworkInterfaceInfo) : option string :=
  match ifaces with
  | [] => None
  | iface :: rest =>
      if String.eqb (family iface) "IPv4" && negb (internal iface)
      then Some (iface_address iface)
      else firstExternalIPv4 rest
  end.

(** [getLocalIP()], with [interfaces] the object returned by
    [os.networkInterfaces()] as the list of its keys, in the order of
    [Object.keys], each with its value ([None] where [interfaces[name]] is
    [undefined], which [|| []] turns into no entries). *)
Fixpoint getLocalIP (interfaces : list (string * option (list NetworkInterfaceInfo)))
  : string :=
  match interfaces with
  | [] => "localhost"
  | (_, infos) :: rest =>
      match firstExternalIPv4 (match infos with Some l => l | None => [] end) with
      | Some a => a
      | None => getLocalIP rest
      end
  end.

(** Bytes that are visible ASCII characters other than the comma. *)
Definition plain (c : ascii) : bool :=
  (N.leb 33 (N_of_ascii c) && N.leb (N_of_ascii c) 126 && negb (N.eqb (N_of_ascii c) 44))%N.

(** Blanks and tabs. *)
Definition blank (c : ascii) : bool :=
  (N.eqb (N_of_ascii c) 32 || N.eqb (N_of_ascii c) 9)%N.

Definition all_chars (p : ascii -> bool) (s : string) : bool :=
  forallb p (list_ascii_of_string s).

(* ================================================================== *)
(** ** The compiled server (dist/server.js)

    The build under [dist/] predates the grouping: it keeps [devices]
    only, announces joins, leaves and profile changes to every connection,
    and has no handlers for [signal] and [p2p-failed]. *)

Module Dist.

(** [socket.emit], [socket.broadcast.emit] (every open connection but the
    socket itself), [io.to(room).emit] and [io.emit] (every open
    connection). *)
Inductive Emit : Type :=
| SocketEmit (sid : string) (m : OutMsg)
| BroadcastEmit (sid : string) (m : OutMsg)
| RoomEmit (room : string) (m : OutMsg)
| IoEmit (m : OutMsg).

(** The objects stored have no [groupKey]. *)
Definition record (sid : string) (now : Z) : DeviceInfo :=
  {| id := sid; lastSeen := now; type := None; icon := None; name := None;
     groupKey := None |}.

(** Body of the loop of [cleanupDevices] for one entry. *)
Definition cleanupEntry (now : Z) (acc : JsMap.t DeviceInfo * list Emit)
           (entry : string * DeviceInfo) : JsMap.t DeviceInfo * list Emit :=
  let '(devices, out) := acc in
  let '(sid, device) := entry in
  if (now - lastSeen device >? 30000)%Z
  then (JsMap.delete sid devices, out ++ [IoEmit (DeviceLeft sid)])
  else (devices, out).

Definition cleanupDevices (now : Z) (devices : JsMap.t DeviceInfo)
  : JsMap.t DeviceInfo * list Emit :=
  fold_left (cleanupEntry now) devices (devices, []).

(** [io.on('connection', ...)], lines 40-57. *)
Definition onConnection (sid : string) (now : Z) (devices : JsMap.t DeviceInfo)
  : JsMap.t DeviceInfo * list Emit :=
  let devices1 := if JsMap.has sid devices then JsMap.delete sid devices else devices in
  (JsMap.set sid (record sid now) devices1,
   [SocketEmit sid (DeviceInfoMsg sid (map snd devices1));
    BroadcastEmit sid (DeviceJoined sid)]).

Definition onHeartbeat (sid : string) (now : Z) (devices : JsMap.t DeviceInfo)
  : JsMap.t DeviceInfo * list Emit :=
  match JsMap.get sid devices with
  | Some device =>
      (JsMap.set sid {| id := id device; lastSeen := now; type := type device;
                        icon := icon device; name := name device;
                        groupKey := groupKey device |} devices, [])
  | None => (devices, [])
  end.

Definition onDeviceInfo (sid ty ic nm : string) (devices : JsMap.t DeviceInfo)
  : JsMap.t DeviceInfo * list Emit :=
  match JsMap.get sid devices with
  | Some deviceInfo =>
      (JsMap.set sid {| id := id deviceInfo; lastSeen := lastSeen deviceInfo;
                        type := Some ty; icon := Some ic; name := Some nm;
                        groupKey := groupKey deviceInfo |} devices,
       [IoEmit (DeviceInfoUpdate sid ty ic nm)])
  | None => (devices, [])
  end.

(** The five forwarding handlers of this build. *)
Definition onRelay (sid : string) (d : RelayData) : list Emit :=
  match d with
  | Signal _ _ | P2pFailed _ _ => []
  | _ => [RoomEmit (target d) (forward sid d)]
  end.

(** [socket.on('disconnect', ...)]: unconditional. *)
Definition onDisconnect (sid : string) (devices : JsMap.t DeviceInfo)
  : JsMap.t DeviceInfo * list Emit :=
  (JsMap.delete sid devices, [IoEmit (DeviceLeft sid)]).

Record World : Type := {
  devices : JsMap.t DeviceInfo;
  sockets : JsSet.t
}.

Definition boot : World := {| devices := []; sockets := [] |}.

Definition step (w : World) (e : Event) : World * list Emit :=
  match e with
  | Connection sid _ now =>
      let '(d, out) := onConnection sid now (devices w) in
      ({| devices := d; sockets := JsSet.add sid (sockets w) |}, out)
  | Heartbeat sid now =>
      if JsSet.has sid (sockets w) then
        let '(d, out) := onHeartbeat sid now (devices w) in
        ({| devices := d; sockets := sockets w |}, out)
      else (w, [])
  | DeviceInfoEv sid ty ic nm =>
      if JsSet.has sid (sockets w) then
        let '(d, out) := onDeviceInfo sid ty ic nm (devices w) in
        ({| devices := d; sockets := sockets w |}, out)
      else (w, [])
  | Relay sid d =>
      if JsSet.has sid (sockets w) then (w, onRelay sid d) else (w, [])
  | Disconnect sid =>
      if JsSet.has sid (sockets w) then
        let '(d, out) := onDisconnect sid (devices w) in
        ({| devices := d; sockets := JsSet.delete sid (sockets w) |}, out)
      else (w, [])
  | Tick now =>
      let '(d, out) := cleanupDevices now (devices w) in
      ({| devices := d; sockets := sockets w |}, out)
  end.

Definition received (socks : JsSet.t) (e : Emit) : list (string * OutMsg) :=
  match e with
  | SocketEmit sid m => [(sid, m)]
  | BroadcastEmit sid m => map (fun r => (r, m)) (JsSet.delete sid socks)
  | RoomEmit room m => if JsSet.has room socks then [(room, m)] else []
  | IoEmit m => map (fun r => (r, m)) socks
  end.

Definition deliveries (socks : JsSet.t) (out : list Emit) : list (string * OutMsg) :=
  flat_map (received socks) out.

Definition react (w : World) (e : Event) : World * list (string * OutMsg) :=
  let '(w', out) := step w e in (w', deliveries (sockets w') out).

Fixpoint run (w : World) (es : list Event) : World * list (string * OutMsg) :=
  match es with
  | [] => (w, [])
  | e :: es' =>
      let '(w', ds) := react w e in
      let '(w'', ds') := run w' es' in
      (w'', ds ++ ds')
  end.

End Dist.

(** A record of the source as the compiled server stores it. *)
Definition without_group (d : DeviceInfo) : DeviceInfo :=
  {| id := id d; lastSeen := lastSeen d; type := type d; icon := icon d; name := name d;
     groupKey := None |}.

Definition registry_without_groups (m : JsMap.t DeviceInfo) : JsMap.t DeviceInfo :=
  map (fun kv => (fst kv, without_group (snd kv))) m.

(** The two servers keep the same registry and the same open connections. *)
Definition same_registry (w : World) (wd : Dist.World) : Prop :=
  Dist.devices wd = registry_without_groups (devices (server w)) /\
  Dist.sockets wd = sockets w.

(** The messages both builds send to announce joins, leaves and profile
    changes, and the forwarded messages both have a handler for. *)
Definition common (m : OutMsg) : bool :=
  match m with
  | DeviceInfoMsg _ _ | SignalMsg _ _ | P2pFailedMsg _ _ => false
  | _ => true
  end.

(* ================================================================== *)
(** * Proofs *)

(** ** The classifier *)

Section Classifier.

Lemma split_nonempty sep s : Js.split sep s <> [].
Proof.
  destruct s as [|c r]; simpl; [discriminate|].
  destruct (Ascii.eqb c sep); [discriminate|].
  destruct (Js.split sep r); discriminate.
Qed.

Lemma join_split sep s : Js.join (String sep EmptyString) (Js.split sep s) = s.
Proof.
  unfold Js.join.
  induction s as [|c r IH]; simpl; [reflexivity|].
  destruct (Ascii.eqb_spec c sep) as [->|Hne].
  - pose proof (split_nonempty sep r) as Hr.
    destruct (Js.split sep r) as [|p ps] eqn:E; [contradiction|].
    cbn [String.concat append]. simpl in IH. rewrite IH. reflexivity.
  - pose proof (split_nonempty sep r) as Hr.
    destruct (Js.split sep r) as [|p ps] eqn:E; [contradiction|].
    destruct ps as [|q qs]; simpl in *; rewrite IH; reflexivity.
Qed.


Lemma split_cons_sep sep r : Js.split sep (String sep r) = EmptyString :: Js.split sep r.
Proof. simpl. now rewrite Ascii.eqb_refl. Qed.

(** A literal prefix without the separator is the first component. *)
Lemma split_literal sep p r :
  Js.count_char sep p = 0 ->
  Js.split sep (p ++ String sep r)%string = p :: Js.split sep r.
Proof.
  induction p as [|c p IH]; simpl; intros H.
  - now rewrite Ascii.eqb_refl.
  - destruct (Ascii.eqb c sep); [discriminate|].
    rewrite IH by exact H. reflexivity.
Qed.

Lemma test_prefix_lits p q s :
  Js.test_prefix (Js.lits p ++ q) s = true ->
  exists r, s = (p ++ r)%string /\ Js.test_prefix q r = true.
Proof.
  revert s. induction p as [|c p IH]; simpl; intros s H.
  - exists s. split; [reflexivity|exact H].
  - destruct s as [|a s']; [discriminate|].
    apply andb_true_iff in H as [Ha Hs].
    unfold Js.lit in Ha. apply Ascii.eqb_eq in Ha. subst a.
    destruct (IH _ Hs) as (r & -> & Hq). exists r. split; [reflexivity|exact Hq].
Qed.

Lemma test_prefix_lits_app p r : Js.test_prefix (Js.lits p) (p ++ r)%string = true.
Proof.
  induction p as [|c p IH]; simpl; [reflexivity|].
  unfold Js.lit at 1. now rewrite Ascii.eqb_refl.
Qed.

Lemma re_10_inv ip :
  Js.test_prefix re_10 ip = true -> exists r, ip = ("10." ++ r)%string.
Proof.
  intros H. unfold re_10 in H.
  rewrite <- (app_nil_r (Js.lits "10.")) in H.
  destruct (test_prefix_lits _ _ _ H) as (r & -> & _). now exists r.
Qed.

Lemma re_192_168_inv ip :
  Js.test_prefix re_192_168 ip = true -> exists r, ip = ("192.168." ++ r)%string.
Proof.
  intros H. unfold re_192_168 in H.
  rewrite <- (app_nil_r (Js.lits "192.168.")) in H.
  destruct (test_prefix_lits _ _ _ H) as (r & -> & _). now exists r.
Qed.

Lemma re_172_inv ip : re_172 ip = true -> exists r, ip = ("172." ++ r)%string.
Proof.
  unfold re_172, re_172_1x, re_172_2x, re_172_3x. intros H.
  apply orb_true_iff in H as [H|H]; [apply orb_true_iff in H as [H|H]|];
    destruct (test_prefix_lits _ _ _ H) as (r & -> & _); now exists r.
Qed.

(** On a private address one of the three [return]s of the block fires. *)
Lemma private_tag_fires ip :
  isPrivateIP ip = true ->
  private_tag ip = Some "LAN-10" \/ private_tag ip = Some "LAN-192.168" \/
  private_tag ip = Some "LAN-172".
Proof.
  intros Hp. unfold private_tag. rewrite Hp.
  unfold isPrivateIP in Hp.
  apply orb_true_iff in Hp as [Hp|Hp]; [apply orb_true_iff in Hp as [Hp|Hp]|].
  - apply re_10_inv in Hp as (r & ->). left.
    change ("10." ++ r)%string with ("10" ++ String "." r)%string.
    rewrite split_literal by reflexivity. reflexivity.
  - apply re_192_168_inv in Hp as (r & ->). right; left.
    change ("192.168." ++ r)%string with ("192" ++ String "." ("168" ++ String "." r))%string.
    rewrite !split_literal by reflexivity. reflexivity.
  - apply re_172_inv in Hp as (r & ->). right; right.
    change ("172." ++ r)%string with ("172" ++ String "." r)%string.
    rewrite split_literal by reflexivity. reflexivity.
Qed.

Lemma private_tag_public ip : isPrivateIP ip = false -> private_tag ip = None.
Proof. intros H. unfold private_tag. now rewrite H. Qed.

Lemma getNetworkGroup_10 r : getNetworkGroup ("10." ++ r)%string = "LAN-10".
Proof.
  unfold getNetworkGroup, private_tag.
  replace (isPrivateIP ("10." ++ r)%string) with true by reflexivity.
  change ("10." ++ r)%string with ("10" ++ String "." r)%string.
  rewrite split_literal by reflexivity. reflexivity.
Qed.

Lemma getNetworkGroup_192_168 r : getNetworkGroup ("192.168." ++ r)%string = "LAN-192.168".
Proof.
  unfold getNetworkGroup, private_tag.
  replace (isPrivateIP ("192.168." ++ r)%string) with true by reflexivity.
  change ("192.168." ++ r)%string with ("192" ++ String "." ("168" ++ String "." r))%string.
  rewrite !split_literal by reflexivity. reflexivity.
Qed.

Lemma getNetworkGroup_172 b r :
  In b octets_172 -> getNetworkGroup ("172." ++ b ++ "." ++ r)%string = "LAN-172".
Proof.
  intros Hb. unfold getNetworkGroup, private_tag.
  assert (Hp : isPrivateIP ("172." ++ b ++ "." ++ r)%string = true).
  { unfold octets_172 in Hb. simpl in Hb.
    repeat (destruct Hb as [<-|Hb]; [reflexivity|]). contradiction. }
  rewrite Hp.
  change ("172." ++ b ++ "." ++ r)%string with ("172" ++ String "." (b ++ "." ++ r))%string.
  rewrite split_literal by reflexivity. reflexivity.
Qed.

Lemma getNetworkGroup_public ip :
  isPrivateIP ip = false ->
  getNetworkGroup ip = Js.join "." (Js.slice0 3 (Js.split "." ip)).
Proof. intros H. unfold getNetworkGroup. now rewrite private_tag_public. Qed.


Lemma append_nonempty a b : a <> EmptyString -> (a ++ b)%string <> EmptyString.
Proof. destruct a; [congruence|discriminate]. Qed.

Lemma getNetworkGroup_empty_iff ip : getNetworkGroup ip = "" <-> ip = "".
Proof.
  split; [|intros ->; reflexivity].
  destruct (isPrivateIP ip) eqn:Hp.
  - unfold getNetworkGroup.
    destruct (private_tag_fires ip Hp) as [H|[H|H]]; rewrite H; discriminate.
  - rewrite getNetworkGroup_public by exact Hp.
    pose proof (join_split "."%char ip) as Hj. unfold Js.join, Js.slice0 in *.
    destruct (Js.split "." ip) as [|p [|q [|r [|t l]]]]; simpl in *;
      intros H; try congruence; destruct p; simpl in *; discriminate H.
Qed.

Lemma range_digit lo hi c :
  Js.range lo hi c = true ->
  nat_of_ascii lo <= nat_of_ascii c <= nat_of_ascii hi.
Proof.
  unfold Js.range. intros H. apply andb_true_iff in H as [H1 H2].
  apply Nat.leb_le in H1, H2. lia.
Qed.

Lemma range_In lo hi c :
  Js.range lo hi c = true ->
  In c (map ascii_of_nat (seq (nat_of_ascii lo) (S (nat_of_ascii hi) - nat_of_ascii lo))).
Proof.
  intros H. apply range_digit in H. rewrite <- (ascii_nat_embedding c).
  apply in_map, in_seq. lia.
Qed.

Lemma re_172_tail a lo hi r' :
  Js.test_prefix [Js.lit a; Js.range lo hi; Js.lit "."] r' = true ->
  exists c r, r' = String a (String c (String "." r)) /\
              In c (map ascii_of_nat
                      (seq (nat_of_ascii lo) (S (nat_of_ascii hi) - nat_of_ascii lo))).
Proof.
  intros Hq.
  destruct r' as [|a' [|c [|e r]]]; cbn [Js.test_prefix] in Hq;
    rewrite ?andb_false_r in Hq; try discriminate.
  rewrite andb_true_r in Hq.
  apply andb_true_iff in Hq as [Ha Hq]. apply andb_true_iff in Hq as [Hc He].
  unfold Js.lit in Ha, He. apply Ascii.eqb_eq in Ha, He. subst a' e.
  exists c, r. split; [reflexivity|now apply range_In].
Qed.

Lemma In_by_eqb (b : string) (l : list string) :
  existsb (String.eqb b) l = true -> In b l.
Proof.
  intros H. apply existsb_exists in H as (y & Hy & E).
  apply String.eqb_eq in E. now subst.
Qed.

Lemma re_172_octet ip :
  re_172 ip = true ->
  exists b r, In b octets_172 /\ ip = ("172." ++ b ++ "." ++ r)%string.
Proof.
  unfold re_172, re_172_1x, re_172_2x, re_172_3x. intros H.
  apply orb_true_iff in H as [H|H]; [apply orb_true_iff in H as [H|H]|];
    destruct (test_prefix_lits _ _ _ H) as (r' & -> & Hq);
    apply re_172_tail in Hq as (c & r & -> & Hc);
    (eexists (String _ (String c EmptyString)), r; split; [|reflexivity]);
    vm_compute in Hc;
    repeat (destruct Hc as [<-|Hc]; [apply In_by_eqb; reflexivity|]);
    destruct Hc.
Qed.

(** The three expressions recognise the three textual forms. *)
Lemma isPrivateIP_iff ip :
  isPrivateIP ip = true <->
  (exists r, ip = ("10." ++ r)%string) \/
  (exists r, ip = ("192.168." ++ r)%string) \/
  (exists b r, In b octets_172 /\ ip = ("172." ++ b ++ "." ++ r)%string).
Proof.
  split.
  - unfold isPrivateIP. intros H.
    apply orb_true_iff in H as [H|H]; [apply orb_true_iff in H as [H|H]|].
    + left. now apply re_10_inv.
    + right; left. now apply re_192_168_inv.
    + right; right. now apply re_172_octet.
  - intros [(r & ->)|[(r & ->)|(b & r & Hb & ->)]]; [reflexivity|reflexivity|].
    unfold octets_172 in Hb. simpl in Hb.
    repeat (destruct Hb as [<-|Hb]; [reflexivity|]). contradiction.
Qed.

End Classifier.

(* ================================================================== *)
(** ** Maps and sets in insertion order *)

Section MapLemmas.

Context {V : Type}.
Implicit Types (m : JsMap.t V) (k : string) (v : V).

Lemma get_set_eq k v m : JsMap.get k (JsMap.set k v m) = Some v.
Proof.
  induction m as [|[k' v'] r IH]; simpl.
  - now rewrite String.eqb_refl.
  - destruct (String.eqb k k') eqn:E; simpl; rewrite ?String.eqb_refl, ?E; auto.
Qed.

Lemma get_set_neq k k' v m : k' <> k -> JsMap.get k' (JsMap.set k v m) = JsMap.get k' m.
Proof.
  intros Hne. induction m as [|[k0 v0] r IH]; simpl.
  - apply String.eqb_neq in Hne. now rewrite Hne.
  - destruct (String.eqb_spec k k0) as [->|Hk]; simpl.
    + apply String.eqb_neq in Hne. now rewrite Hne.
    + destruct (String.eqb k' k0); auto.
Qed.

Lemma get_delete_eq k m : JsMap.get k (JsMap.delete k m) = None.
Proof.
  unfold JsMap.delete. induction m as [|[k0 v0] r IH]; simpl; [reflexivity|].
  destruct (String.eqb_spec k0 k) as [->|Hk]; simpl; [exact IH|].
  destruct (String.eqb_spec k k0); [congruence|exact IH].
Qed.

Lemma get_delete_neq k k' m : k' <> k -> JsMap.get k' (JsMap.delete k m) = JsMap.get k' m.
Proof.
  unfold JsMap.delete. intros Hne. induction m as [|[k0 v0] r IH]; simpl; [reflexivity|].
  destruct (String.eqb_spec k0 k) as [->|Hk]; simpl.
  - apply String.eqb_neq in Hne. now rewrite Hne.
  - destruct (String.eqb k' k0); auto.
Qed.

Lemma get_In k v m : JsMap.get k m = Some v -> In (k, v) m.
Proof.
  induction m as [|[k0 v0] r IH]; simpl; [discriminate|].
  destruct (String.eqb_spec k k0) as [->|Hk]; intros H.
  - injection H as ->. now left.
  - right. auto.
Qed.

Lemma get_None_keys k m : JsMap.get k m = None <-> ~ In k (JsMap.keys m).
Proof.
  unfold JsMap.keys. induction m as [|[k0 v0] r IH]; simpl; [tauto|].
  destruct (String.eqb_spec k k0) as [->|Hk].
  - split; [discriminate|]. intros H. exfalso. apply H. now left.
  - rewrite IH. split; [intros H [E|E]; [congruence|tauto] | tauto].
Qed.

Lemma In_get k v m : NoDup (JsMap.keys m) -> In (k, v) m -> JsMap.get k m = Some v.
Proof.
  unfold JsMap.keys. induction m as [|[k0 v0] r IH]; simpl; [tauto|].
  intros Hnd [E|Hin]; inversion Hnd as [|? ? Hnot Hnd']; subst.
  - injection E as -> ->. now rewrite String.eqb_refl.
  - destruct (String.eqb_spec k k0) as [->|Hk]; [|auto].
    exfalso. apply Hnot. change k0 with (fst (k0, v)). now apply in_map.
Qed.

Lemma has_true k m : JsMap.has k m = true <-> exists v, JsMap.get k m = Some v.
Proof.
  unfold JsMap.has. destruct (JsMap.get k m).
  - split; eauto.
  - split; [discriminate|]. intros [v H]. discriminate.
Qed.

Lemma has_false k m : JsMap.has k m = false <-> JsMap.get k m = None.
Proof. unfold JsMap.has. destruct (JsMap.get k m); split; congruence. Qed.

Lemma keys_delete k m :
  JsMap.keys (JsMap.delete k m) = filter (fun x => negb (String.eqb x k)) (JsMap.keys m).
Proof.
  unfold JsMap.keys, JsMap.delete. induction m as [|[k0 v0] r IH]; simpl; [reflexivity|].
  destruct (String.eqb k0 k); simpl; now rewrite IH.
Qed.

Lemma NoDup_keys_delete k m : NoDup (JsMap.keys m) -> NoDup (JsMap.keys (JsMap.delete k m)).
Proof. intros H. rewrite keys_delete. now apply NoDup_filter. Qed.

Lemma In_keys_set k k' v m :
  In k' (JsMap.keys (JsMap.set k v m)) <-> k' = k \/ In k' (JsMap.keys m).
Proof.
  unfold JsMap.keys. induction m as [|[k0 v0] r IH]; simpl.
  - intuition.
  - destruct (String.eqb_spec k k0) as [->|Hk]; simpl.
    + intuition.
    + rewrite IH. intuition.
Qed.

Lemma NoDup_keys_set k v m : NoDup (JsMap.keys m) -> NoDup (JsMap.keys (JsMap.set k v m)).
Proof.
  induction m as [|[k0 v0] r IH]; simpl; intros Hnd.
  - constructor; [intros []|constructor].
  - inversion Hnd as [|? ? Hnot Hnd']; subst.
    destruct (String.eqb_spec k k0) as [->|Hk]; simpl.
    + now constructor.
    + constructor; [|now apply IH].
      intros Hin. apply (In_keys_set k k0 v r) in Hin as [E|Hin]; [congruence|].
      now apply Hnot.
Qed.

Lemma delete_absent k m : JsMap.get k m = None -> JsMap.delete k m = m.
Proof.
  unfold JsMap.delete. induction m as [|[k0 v0] r IH]; simpl; [reflexivity|].
  destruct (String.eqb_spec k k0) as [->|Hk]; [discriminate|].
  intros H. destruct (String.eqb_spec k0 k); [congruence|]. simpl. now rewrite IH.
Qed.

End MapLemmas.

Section SetLemmas.

Implicit Types (s : JsSet.t) (x y : string).

Lemma set_has_In x s : JsSet.has x s = true <-> In x s.
Proof.
  unfold JsSet.has. rewrite existsb_exists. split.
  - intros (y & Hy & E). apply String.eqb_eq in E. now subst.
  - intros H. exists x. split; [exact H|apply String.eqb_refl].
Qed.

Lemma set_has_false x s : JsSet.has x s = false <-> ~ In x s.
Proof.
  rewrite <- set_has_In. destruct (JsSet.has x s); split; congruence.
Qed.

Lemma In_set_add x y s : In y (JsSet.add x s) <-> y = x \/ In y s.
Proof.
  unfold JsSet.add. destruct (JsSet.has x s) eqn:E.
  - apply set_has_In in E. split; [tauto|]. intros [->|H]; assumption.
  - rewrite in_app_iff. simpl. intuition.
Qed.

Lemma NoDup_set_add x s : NoDup s -> NoDup (JsSet.add x s).
Proof.
  intros H. unfold JsSet.add. destruct (JsSet.has x s) eqn:E; [exact H|].
  apply set_has_false in E.
  apply NoDup_app; [exact H|constructor; [intros []|constructor]|].
  intros a Ha [<-|[]]. contradiction.
Qed.

Lemma In_set_delete x y s : In y (JsSet.delete x s) <-> In y s /\ y <> x.
Proof.
  unfold JsSet.delete. rewrite filter_In, negb_true_iff, String.eqb_neq. tauto.
Qed.

Lemma NoDup_set_delete x s : NoDup s -> NoDup (JsSet.delete x s).
Proof. apply NoDup_filter. Qed.

End SetLemmas.

(* ================================================================== *)
(** ** The group index under [leaveGroup] and registration *)

Section GroupIndex.

Implicit Types (g : JsMap.t JsSet.t) (sid gk : string).

Lemma members_get gk g m : JsMap.get gk g = Some m -> members gk g = m.
Proof. unfold members. now intros ->. Qed.

Lemma In_members gk g x :
  In x (members gk g) <-> exists m, JsMap.get gk g = Some m /\ In x m.
Proof.
  unfold members. destruct (JsMap.get gk g) as [m|].
  - split; [eauto|]. intros (m' & E & H). now injection E as ->.
  - split; [intros []|]. intros (m' & E & _). discriminate.
Qed.

Lemma truthy_Some o gk : truthy o = Some gk <-> o = Some gk /\ gk <> "".
Proof.
  unfold truthy. destruct o as [s|]; [|split; [discriminate|intros [? _]; discriminate]].
  destruct (String.eqb_spec s "") as [->|Hne].
  - split; [discriminate|]. intros [E H]. injection E as <-. contradiction.
  - split.
    + intros E. injection E as <-. auto.
    + intros [E _]. exact E.
Qed.

(** The entry of every key after [leaveGroup]. *)
Lemma leaveGroup_get sid gk g gk' :
  JsMap.get gk' (fst (leaveGroup sid gk g)) =
  if String.eqb gk' gk then
    match JsMap.get gk g with
    | Some m => match JsSet.delete sid m with [] => None | m' => Some m' end
    | None => None
    end
  else JsMap.get gk' g.
Proof.
  unfold leaveGroup. cbn [fst].
  destruct (JsMap.get gk g) as [m|] eqn:Eg.
  - rewrite get_set_eq. unfold JsSet.size.
    destruct (JsSet.delete sid m) as [|a m'] eqn:Ed; cbn [List.length Nat.eqb].
    + destruct (String.eqb_spec gk' gk) as [->|Hne].
      * apply get_delete_eq.
      * rewrite get_delete_neq, get_set_neq by assumption. reflexivity.
    + destruct (String.eqb_spec gk' gk) as [->|Hne].
      * apply get_set_eq.
      * now rewrite get_set_neq.
  - rewrite Eg. destruct (String.eqb_spec gk' gk) as [->|Hne]; [exact Eg|reflexivity].
Qed.

Lemma leaveGroup_members sid gk g gk' :
  members gk' (fst (leaveGroup sid gk g)) =
  if String.eqb gk' gk then JsSet.delete sid (members gk g) else members gk' g.
Proof.
  unfold members at 1. rewrite leaveGroup_get.
  destruct (String.eqb gk' gk); [|reflexivity].
  unfold members. destruct (JsMap.get gk g) as [m|]; [|reflexivity].
  now destruct (JsSet.delete sid m).
Qed.

(** The notices go to what is left of the set. *)
Lemma leaveGroup_out sid gk g :
  snd (leaveGroup sid gk g) =
  map (fun r => RoomEmit r (DeviceLeft sid)) (JsSet.delete sid (members gk g)).
Proof.
  pose proof (leaveGroup_get sid gk g gk) as H. rewrite String.eqb_refl in H.
  unfold leaveGroup in *. cbn [fst snd] in *. rewrite H.
  unfold members. destruct (JsMap.get gk g) as [m|]; [|reflexivity].
  now destruct (JsSet.delete sid m).
Qed.

Lemma leaveGroup_keys sid gk g :
  NoDup (JsMap.keys g) -> NoDup (JsMap.keys (fst (leaveGroup sid gk g))).
Proof.
  intros H. unfold leaveGroup. cbn [fst].
  destruct (JsMap.get gk g) as [m|] eqn:Eg.
  - rewrite get_set_eq. destruct (Nat.eqb _ 0).
    + apply NoDup_keys_delete. now apply NoDup_keys_set.
    + now apply NoDup_keys_set.
  - now rewrite Eg.
Qed.

End GroupIndex.

(* ================================================================== *)
(** ** What each handler does to the two maps *)

Section Handlers.

Implicit Types (s : State) (w : World) (sid gk : string).

Lemma onConnection_inv sid ip now s :
  let gk := getNetworkGroup ip in
  let m2 := JsSet.add sid (members gk (ipGroups s)) in
  let others := filter (fun i => negb (String.eqb i sid)) m2 in
  let devices1 := JsMap.delete sid (devices s) in
  exists g2,
    onConnection sid ip now s =
      Some ({| devices :=
                 JsMap.set sid {| id := sid; lastSeen := now; type := None; icon := None;
                                  name := None; groupKey := Some gk |} devices1;
               ipGroups := g2 |},
            SocketEmit sid
              (DeviceInfoMsg sid
                 (flat_map (fun i => match JsMap.get i devices1 with
                                     | Some d => [d]
                                     | None => []
                                     end) others))
            :: map (fun i => RoomEmit i (DeviceJoined sid)) others) /\
    forall gk', JsMap.get gk' g2 =
                if String.eqb gk' gk then Some m2 else JsMap.get gk' (ipGroups s).
Proof.
  cbv zeta. unfold onConnection. set (gk := getNetworkGroup ip).
  assert (Hd : (if JsMap.has sid (devices s) then JsMap.delete sid (devices s)
                else devices s) = JsMap.delete sid (devices s)).
  { destruct (JsMap.has sid (devices s)) eqn:E; [reflexivity|].
    apply has_false in E. now rewrite delete_absent. }
  rewrite Hd. unfold members, JsMap.has.
  destruct (JsMap.get gk (ipGroups s)) as [m|] eqn:Eg; cbn [negb].
  - rewrite Eg, get_set_eq.
    eexists. split; [reflexivity|].
    intros gk'. destruct (String.eqb_spec gk' gk) as [->|Hne].
    + apply get_set_eq.
    + now rewrite get_set_neq.
  - rewrite get_set_eq, get_set_eq.
    eexists. split; [reflexivity|].
    intros gk'. destruct (String.eqb_spec gk' gk) as [->|Hne].
    + apply get_set_eq.
    + now rewrite !get_set_neq.
Qed.

Lemma onConnection_members sid ip now s s' out gk' :
  onConnection sid ip now s = Some (s', out) ->
  members gk' (ipGroups s') =
  if String.eqb gk' (getNetworkGroup ip)
  then JsSet.add sid (members (getNetworkGroup ip) (ipGroups s))
  else members gk' (ipGroups s).
Proof.
  intros H. destruct (onConnection_inv sid ip now s) as (g2 & E & Hg).
  rewrite E in H. injection H as <- <-. cbn [ipGroups].
  unfold members at 1. rewrite Hg. now destruct (String.eqb gk' _).
Qed.

(** [evict] is the common core of the sweep and of [disconnect]. *)
Lemma cleanupEntry_evict now s out sid device :
  cleanupEntry now (s, out) (sid, device) =
  if expired now device
  then (fst (evict sid device s), out ++ snd (evict sid device s))
  else (s, out).
Proof.
  unfold cleanupEntry, expired, evict.
  destruct (now - lastSeen device >? 30000)%Z; [|reflexivity].
  destruct (truthy (groupKey device)); [|reflexivity].
  now destruct (leaveGroup sid _ (ipGroups s)).
Qed.

Lemma onDisconnect_evict sid s device :
  JsMap.get sid (devices s) = Some device -> onDisconnect sid s = evict sid device s.
Proof. intros H. unfold onDisconnect, evict. now rewrite H. Qed.

Lemma onDisconnect_absent sid s :
  JsMap.get sid (devices s) = None -> onDisconnect sid s = (s, []).
Proof.
  intros H. unfold onDisconnect. rewrite H, delete_absent by exact H. now destruct s.
Qed.

Lemma evict_devices sid device s :
  devices (fst (evict sid device s)) = JsMap.delete sid (devices s).
Proof.
  unfold evict. destruct (truthy (groupKey device)); [|reflexivity].
  now destruct (leaveGroup sid _ (ipGroups s)).
Qed.

Lemma evict_get sid device s gk' :
  JsMap.get gk' (ipGroups (fst (evict sid device s))) =
  match truthy (groupKey device) with
  | Some gk => JsMap.get gk' (fst (leaveGroup sid gk (ipGroups s)))
  | None => JsMap.get gk' (ipGroups s)
  end.
Proof.
  unfold evict. destruct (truthy (groupKey device)); [|reflexivity].
  now destruct (leaveGroup sid _ (ipGroups s)).
Qed.

Lemma evict_members sid device s gk' :
  members gk' (ipGroups (fst (evict sid device s))) =
  match truthy (groupKey device) with
  | Some gk =>
      if String.eqb gk' gk then JsSet.delete sid (members gk (ipGroups s))
      else members gk' (ipGroups s)
  | None => members gk' (ipGroups s)
  end.
Proof.
  unfold members at 1. rewrite evict_get.
  destruct (truthy (groupKey device)) as [gk|]; [|reflexivity].
  apply leaveGroup_members.
Qed.

Lemma evict_out sid device s :
  snd (evict sid device s) =
  match truthy (groupKey device) with
  | Some gk =>
      map (fun r => RoomEmit r (DeviceLeft sid)) (JsSet.delete sid (members gk (ipGroups s)))
  | None => []
  end.
Proof.
  unfold evict. destruct (truthy (groupKey device)) as [gk|]; [|reflexivity].
  rewrite <- leaveGroup_out. now destruct (leaveGroup sid gk (ipGroups s)).
Qed.

(** Members other than the one removed stay. *)
Lemma evict_keeps sid device s gk' x :
  x <> sid -> In x (members gk' (ipGroups s)) ->
  In x (members gk' (ipGroups (fst (evict sid device s)))).
Proof.
  intros Hne Hin. rewrite evict_members.
  destruct (truthy (groupKey device)) as [gk|]; [|exact Hin].
  destruct (String.eqb_spec gk' gk) as [->|]; [|exact Hin].
  apply In_set_delete. auto.
Qed.

Lemma evict_subset sid device s gk' x :
  In x (members gk' (ipGroups (fst (evict sid device s)))) ->
  In x (members gk' (ipGroups s)).
Proof.
  rewrite evict_members.
  destruct (truthy (groupKey device)) as [gk|]; [|auto].
  destruct (String.eqb_spec gk' gk) as [->|]; [|auto].
  intros H. now apply In_set_delete in H.
Qed.

Lemma evict_set_shape sid device s gk' m :
  JsMap.get gk' (ipGroups (fst (evict sid device s))) = Some m ->
  JsMap.get gk' (ipGroups s) = Some m \/
  (m <> [] /\ exists m0, JsMap.get gk' (ipGroups s) = Some m0 /\ m = JsSet.delete sid m0).
Proof.
  rewrite evict_get. destruct (truthy (groupKey device)) as [gk|]; [|auto].
  rewrite leaveGroup_get.
  destruct (String.eqb_spec gk' gk) as [->|]; [|auto].
  destruct (JsMap.get gk (ipGroups s)) as [m0|]; [|discriminate].
  destruct (JsSet.delete sid m0) as [|a l] eqn:E; [discriminate|].
  intros H. injection H as <-. right. split; [discriminate|].
  exists m0. auto.
Qed.

Lemma evict_coherent sid device s : coherent s -> coherent (fst (evict sid device s)).
Proof.
  intros [Hk Hs Hr]. constructor.
  - rewrite evict_devices. now apply NoDup_keys_delete.
  - intros gk' m Hm. apply evict_set_shape in Hm as [Hm|(_ & m0 & Hm0 & ->)].
    + eauto.
    + apply NoDup_set_delete. eauto.
  - intros x d. rewrite evict_devices. intros Hx.
    destruct (String.eqb_spec x sid) as [->|Hne]; [now rewrite get_delete_eq in Hx|].
    rewrite get_delete_neq in Hx by exact Hne.
    destruct (Hr x d Hx) as (Hid & gk' & Hgk & Hin).
    split; [exact Hid|]. exists gk'. split; [exact Hgk|].
    now apply evict_keeps.
Qed.

Lemma evict_agree sid device s :
  JsMap.get sid (devices s) = Some device -> agree s -> agree (fst (evict sid device s)).
Proof.
  intros Hget [Hc Hkey Hidx Hne]. unfold index_matches_registry in *.
  destruct (coherent_record s Hc sid device Hget) as (_ & gk & Hgk & _).
  assert (Ht : truthy (groupKey device) = Some gk).
  { apply truthy_Some. split; [exact Hgk|]. eapply Hkey; eauto. }
  constructor.
  - now apply evict_coherent.
  - intros x d gk'. rewrite evict_devices. intros Hx.
    destruct (String.eqb_spec x sid) as [->|Hxs]; [now rewrite get_delete_eq in Hx|].
    rewrite get_delete_neq in Hx by exact Hxs. eauto.
  - intros gk' x. rewrite evict_members, evict_devices, Ht.
    destruct (String.eqb_spec x sid) as [->|Hxs].
    + rewrite get_delete_eq. split.
      * destruct (String.eqb_spec gk' gk) as [->|Hg].
        -- intros H. apply In_set_delete in H as [_ H]. congruence.
        -- intros H. apply Hidx in H as (d & Hd & Hdg). congruence.
      * intros (d & Hd & _). discriminate.
    + rewrite get_delete_neq by exact Hxs. rewrite <- Hidx.
      destruct (String.eqb_spec gk' gk) as [->|Hg]; [|tauto].
      rewrite In_set_delete. tauto.
  - intros gk' m Hm. apply evict_set_shape in Hm as [Hm|(Hm & _)]; eauto.
Qed.

Lemma evict_registered sid device s x :
  registered x (fst (evict sid device s)) = true -> registered x s = true /\ x <> sid.
Proof.
  unfold registered. rewrite evict_devices. intros H.
  destruct (String.eqb_spec x sid) as [->|Hne].
  - apply has_true in H as (v & Hv). now rewrite get_delete_eq in Hv.
  - apply has_true in H as (v & Hv). rewrite get_delete_neq in Hv by exact Hne.
    split; [apply has_true; eauto|exact Hne].
Qed.

End Handlers.

(* ================================================================== *)
(** ** The sweep *)

Section Sweep.

Variable now : Z.

Implicit Types (s : State) (l : list (string * DeviceInfo)) (g : JsMap.t JsSet.t).

Lemma sweepDevices_cons e l (D : JsMap.t DeviceInfo) :
  sweepDevices now (e :: l) D =
  sweepDevices now l (if expired now (snd e) then JsMap.delete (fst e) D else D).
Proof. reflexivity. Qed.

Lemma cleanup_fold l s out :
  fold_left (cleanupEntry now) l (s, out) =
  ({| devices := sweepDevices now l (devices s);
      ipGroups := fst (sweepGroups now l (ipGroups s)) |},
   out ++ snd (sweepGroups now l (ipGroups s))).
Proof.
  revert s out. induction l as [|[sid d] rest IH]; intros s out.
  - simpl. rewrite app_nil_r. now destruct s.
  - cbn [fold_left sweepGroups]. rewrite sweepDevices_cons. cbn [fst snd].
    unfold cleanupEntry at 2. fold (expired now d).
    destruct (expired now d).
    + destruct (truthy (groupKey d)) as [gk|].
      * destruct (leaveGroup sid gk (ipGroups s)) as [g1 notices] eqn:El.
        rewrite IH. cbn [devices ipGroups].
        destruct (sweepGroups now rest g1) as [g2 more].
        cbn [fst snd]. now rewrite app_assoc.
      * rewrite IH. cbn [devices ipGroups]. now rewrite app_nil_r.
    + apply IH.
Qed.

Lemma cleanupDevices_eq s :
  cleanupDevices now s =
  ({| devices := sweepDevices now (devices s) (devices s);
      ipGroups := fst (sweepGroups now (devices s) (ipGroups s)) |},
   snd (sweepGroups now (devices s) (ipGroups s))).
Proof. unfold cleanupDevices. now rewrite cleanup_fold. Qed.

(** *** The registry *)

Lemma sweepDevices_get l (D : JsMap.t DeviceInfo) k :
  JsMap.get k (sweepDevices now l D) =
  if existsb (fun e => expired now (snd e) && String.eqb (fst e) k) l
  then None else JsMap.get k D.
Proof.
  revert D. induction l as [|[sid d] rest IH]; intros D; [reflexivity|].
  rewrite sweepDevices_cons. cbn [existsb fst snd].
  rewrite IH.
  destruct (existsb _ rest); [now rewrite orb_true_r|]. rewrite orb_false_r.
  destruct (expired now d); cbn [andb]; [|reflexivity].
  destruct (String.eqb_spec sid k) as [->|Hne].
  - apply get_delete_eq.
  - apply get_delete_neq. congruence.
Qed.

Lemma existsb_expired_get (D : JsMap.t DeviceInfo) k :
  NoDup (JsMap.keys D) ->
  existsb (fun e => expired now (snd e) && String.eqb (fst e) k) D =
  match JsMap.get k D with Some d => expired now d | None => false end.
Proof.
  unfold JsMap.keys. induction D as [|[k0 v0] r IH]; intros Hnd; [reflexivity|].
  inversion Hnd as [|? ? Hnot Hnd']; subst.
  cbn [existsb JsMap.get fst snd]. rewrite IH by exact Hnd'.
  destruct (String.eqb_spec k k0) as [->|Hne].
  - rewrite String.eqb_refl, andb_true_r.
    apply (get_None_keys k0 r) in Hnot. rewrite Hnot. apply orb_false_r.
  - destruct (String.eqb_spec k0 k); [congruence|]. now rewrite andb_false_r.
Qed.

(** The records that survive a sweep are those that have not expired. *)
Lemma cleanupDevices_get s k :
  NoDup (JsMap.keys (devices s)) ->
  JsMap.get k (devices (fst (cleanupDevices now s))) =
  match JsMap.get k (devices s) with
  | Some d => if expired now d then None else Some d
  | None => None
  end.
Proof.
  intros Hnd. rewrite cleanupDevices_eq. cbn [fst devices].
  rewrite sweepDevices_get, existsb_expired_get by exact Hnd.
  destruct (JsMap.get k (devices s)) as [d|]; [|reflexivity].
  now destruct (expired now d).
Qed.

Lemma sweepDevices_keys l (D : JsMap.t DeviceInfo) :
  NoDup (JsMap.keys D) -> NoDup (JsMap.keys (sweepDevices now l D)).
Proof.
  revert D. induction l as [|[sid d] rest IH]; intros D H; [exact H|].
  rewrite sweepDevices_cons. cbn [fst snd].
  apply IH. destruct (expired now d); [now apply NoDup_keys_delete|exact H].
Qed.

(** *** Invariants: the sweep is a sequence of [evict]s *)

Lemma sweep_invariant (P : State -> Prop) :
  (forall sid d s, P s -> JsMap.get sid (devices s) = Some d -> P (fst (evict sid d s))) ->
  forall l s out,
    NoDup (JsMap.keys l) ->
    (forall sid d, In (sid, d) l -> JsMap.get sid (devices s) = Some d) ->
    P s -> P (fst (fold_left (cleanupEntry now) l (s, out))).
Proof.
  intros Hstep. unfold JsMap.keys.
  induction l as [|[sid d] rest IH]; intros s out Hnd Hl HP; [exact HP|].
  inversion Hnd as [|? ? Hnot Hnd']; subst.
  cbn [fold_left]. rewrite cleanupEntry_evict.
  destruct (expired now d).
  - apply IH; [exact Hnd'| |].
    + intros sid' d' Hin. rewrite evict_devices.
      rewrite get_delete_neq.
      * apply Hl. now right.
      * intros ->. apply Hnot. change sid with (fst (sid, d')). now apply in_map.
    + apply Hstep; [exact HP|]. apply Hl. now left.
  - apply IH; [exact Hnd'| |exact HP].
    intros sid' d' Hin. apply Hl. now right.
Qed.

Lemma cleanupDevices_invariant (P : State -> Prop) s :
  (forall sid d s, P s -> JsMap.get sid (devices s) = Some d -> P (fst (evict sid d s))) ->
  NoDup (JsMap.keys (devices s)) -> P s -> P (fst (cleanupDevices now s)).
Proof.
  intros Hstep Hnd HP. unfold cleanupDevices.
  apply sweep_invariant; auto.
  intros sid d Hin. now apply In_get.
Qed.

Lemma cleanupDevices_coherent s : coherent s -> coherent (fst (cleanupDevices now s)).
Proof.
  intros H. apply cleanupDevices_invariant; [|apply H|exact H].
  intros sid d s0 Hs0 _. now apply evict_coherent.
Qed.

Lemma cleanupDevices_agree s : agree s -> agree (fst (cleanupDevices now s)).
Proof.
  intros H. apply cleanupDevices_invariant; [|apply H|exact H].
  intros sid d s0 Hs0 Hget. now apply evict_agree.
Qed.

(** *** The group index *)

Lemma sweepGroups_In l g gk r :
  In r (members gk (fst (sweepGroups now l g))) <->
  In r (members gk g) /\
  ~ exists d, In (r, d) l /\ expired now d = true /\ truthy (groupKey d) = Some gk.
Proof.
  revert g. induction l as [|[sid d] rest IH]; intros g.
  - simpl. split; [|tauto]. intros H. split; [exact H|]. now intros (d & [] & _).
  - cbn [sweepGroups].
    assert (Hskip : forall (b : Prop), (expired now d = true /\ truthy (groupKey d) = Some gk ->
                                 sid <> r) ->
        (In r (members gk g) /\
         ~ (exists d0, In (r, d0) rest /\ expired now d0 = true /\
                       truthy (groupKey d0) = Some gk)) <->
        (In r (members gk g) /\
         ~ (exists d0, In (r, d0) ((sid, d) :: rest) /\ expired now d0 = true /\
                       truthy (groupKey d0) = Some gk))).
    { intros _ Hc. split; intros [Hin Hno]; (split; [exact Hin|]).
      - intros (d0 & [E|Hd0] & He & Ht).
        + injection E as -> ->. now apply Hc.
        + apply Hno. eauto.
      - intros (d0 & Hd0 & He & Ht). apply Hno. exists d0. split; [now right|auto]. }
    destruct (expired now d) eqn:Ee.
    + destruct (truthy (groupKey d)) as [gk1|] eqn:Et.
      * destruct (leaveGroup sid gk1 g) as [g1 notices] eqn:El.
        destruct (sweepGroups now rest g1) as [g2 more] eqn:Es.
        cbn [fst]. pose proof (IH g1) as IH1. rewrite Es in IH1. cbn [fst] in IH1.
        rewrite IH1. clear IH1.
        pose proof (leaveGroup_members sid gk1 g gk) as Hm. rewrite El in Hm.
        cbn [fst] in Hm. rewrite Hm.
        destruct (String.eqb_spec gk gk1) as [->|Hg].
        -- rewrite In_set_delete. split.
           ++ intros [[Hin Hne] Hno]. split; [exact Hin|].
              intros (d0 & [E|Hd0] & He & Ht); [congruence|]. apply Hno. eauto.
           ++ intros [Hin Hno]. split; [split; [exact Hin|]|].
              ** intros ->. apply Hno. exists d. split; [now left|auto].
              ** intros (d0 & Hd0 & He & Ht). apply Hno. exists d0.
                 split; [now right|auto].
        -- apply (Hskip True). intros [_ E]. congruence.
      * rewrite IH. apply (Hskip True). intros [_ E]. congruence.
    + rewrite IH. apply (Hskip True). intros [E _]. congruence.
Qed.

(** *** The notices *)

Lemma sent_app r p out1 out2 : sent r p (out1 ++ out2) = sent r p out1 + sent r p out2.
Proof. unfold sent. now rewrite filter_app, length_app. Qed.

Lemma sent_left_map r x y (m : list string) :
  sent r (is_left x) (map (fun i => RoomEmit i (DeviceLeft y)) m) =
  if String.eqb y x then List.length (filter (fun i => String.eqb i r) m) else 0.
Proof.
  unfold sent. induction m as [|a m IH]; simpl.
  - now destruct (String.eqb y x).
  - destruct (String.eqb y x) eqn:E.
    + rewrite andb_true_r. destruct (String.eqb a r); simpl; now rewrite IH.
    + rewrite andb_false_r. exact IH.
Qed.

Lemma count_NoDup r (m : list string) :
  NoDup m -> In r m -> List.length (filter (fun i => String.eqb i r) m) = 1.
Proof.
  induction m as [|a m IH]; intros Hnd Hin; [destruct Hin|].
  inversion Hnd as [|? ? Hnot Hnd']; subst. simpl.
  destruct (String.eqb_spec a r) as [->|Hne].
  - simpl. f_equal.
    assert (H0 : filter (fun i => String.eqb i r) m = []).
    { clear -Hnot. induction m as [|b m IH]; [reflexivity|]. simpl.
      destruct (String.eqb_spec b r) as [->|Hb].
      - exfalso. apply Hnot. now left.
      - apply IH. intros H. apply Hnot. now right. }
    now rewrite H0.
  - destruct Hin as [E|Hin]; [congruence|]. now apply IH.
Qed.

Lemma sent_zero r p out :
  (forall m, In (RoomEmit r m) out -> p m = false) ->
  (forall m, In (SocketEmit r m) out -> p m = false) ->
  sent r p out = 0.
Proof.
  unfold sent. induction out as [|e out IH]; intros Hr Hs; [reflexivity|].
  simpl. destruct e as [r' m|r' m].
  - destruct (String.eqb_spec r' r) as [->|Hne]; cbn [andb].
    + rewrite (Hs m) by now left.
      apply IH; intros m' H; [apply Hr|apply Hs]; now right.
    + apply IH; intros m' H; [apply Hr|apply Hs]; now right.
  - destruct (String.eqb_spec r' r) as [->|Hne]; cbn [andb].
    + rewrite (Hr m) by now left.
      apply IH; intros m' H; [apply Hr|apply Hs]; now right.
    + apply IH; intros m' H; [apply Hr|apply Hs]; now right.
Qed.

(** Every notice of a sweep is a [device-left] about an expired entry, sent
    to a member of the group its record names. *)
Lemma sweepGroups_out l g e :
  In e (snd (sweepGroups now l g)) ->
  exists r x d gk,
    e = RoomEmit r (DeviceLeft x) /\ In (x, d) l /\ expired now d = true /\
    truthy (groupKey d) = Some gk /\ In r (members gk g) /\ r <> x.
Proof.
  revert g. induction l as [|[sid d] rest IH]; intros g; [intros []|].
  cbn [sweepGroups].
  assert (Hrest : forall g', (forall gk r, In r (members gk g') -> In r (members gk g)) ->
      In e (snd (sweepGroups now rest g')) ->
      exists r x d0 gk,
        e = RoomEmit r (DeviceLeft x) /\ In (x, d0) ((sid, d) :: rest) /\
        expired now d0 = true /\ truthy (groupKey d0) = Some gk /\
        In r (members gk g) /\ r <> x).
  { intros g' Hsub Hin. destruct (IH g' Hin) as (r & x & d0 & gk & E & Hl & He & Ht & Hm & Hne).
    exists r, x, d0, gk. repeat split; auto. now right. }
  destruct (expired now d) eqn:Ee; [|apply Hrest; auto].
  destruct (truthy (groupKey d)) as [gk1|] eqn:Et; [|apply Hrest; auto].
  pose proof (leaveGroup_out sid gk1 g) as Ho.
  pose proof (leaveGroup_members sid gk1 g) as Hm.
  destruct (leaveGroup sid gk1 g) as [g1 notices] eqn:El. cbn [fst snd] in *.
  destruct (sweepGroups now rest g1) as [g2 more] eqn:Es. cbn [snd].
  intros Hin. apply in_app_or in Hin as [Hin|Hin].
  - subst notices. apply in_map_iff in Hin as (r & <- & Hr).
    apply In_set_delete in Hr as [Hr Hne].
    exists r, sid, d, gk1. repeat split; auto. now left.
  - apply (Hrest g1).
    + intros gk r. rewrite Hm. destruct (String.eqb_spec gk gk1) as [->|]; [|auto].
      intros H. now apply In_set_delete in H.
    + now rewrite Es.
Qed.

(** A member that stays receives one notice for each expired member of
    its group. *)
Lemma sweepGroups_once l g x d gk r :
  NoDup (JsMap.keys l) ->
  (forall gk' m, JsMap.get gk' g = Some m -> NoDup m) ->
  In (x, d) l -> expired now d = true -> truthy (groupKey d) = Some gk ->
  In r (members gk g) ->
  (forall d', In (r, d') l -> expired now d' = false) ->
  sent r (is_left x) (snd (sweepGroups now l g)) = 1.
Proof.
  unfold JsMap.keys. revert g.
  induction l as [|[sid dv] rest IH]; intros g Hnd Hsets Hl He Ht Hm Hr; [destruct Hl|].
  inversion Hnd as [|? ? Hnot Hnd']; subst.
  assert (Hrx : r <> x).
  { intros ->. rewrite (Hr d Hl) in He. discriminate. }
  assert (Hr' : forall d', In (r, d') rest -> expired now d' = false).
  { intros d' H. apply Hr. now right. }
  cbn [sweepGroups].
  destruct Hl as [E|Hl].
  - injection E as -> ->. rewrite He, Ht.
    pose proof (leaveGroup_out x gk g) as Ho.
    destruct (leaveGroup x gk g) as [g1 notices] eqn:El. cbn [snd] in Ho.
    destruct (sweepGroups now rest g1) as [g2 more] eqn:Es. cbn [snd].
    rewrite sent_app, Ho, sent_left_map, String.eqb_refl.
    rewrite count_NoDup.
    + rewrite (sent_zero r (is_left x) more); [reflexivity| |].
      * intros m Hin.
        assert (Hin' : In (RoomEmit r m) (snd (sweepGroups now rest g1))) by now rewrite Es.
        apply sweepGroups_out in Hin' as (r0 & x0 & d0 & gk0 & E & Hl0 & _).
        injection E as <- ->. simpl.
        apply String.eqb_neq. intros ->. apply Hnot.
        change x with (fst (x, d0)). now apply in_map.
      * intros m Hin.
        assert (Hin' : In (SocketEmit r m) (snd (sweepGroups now rest g1))) by now rewrite Es.
        apply sweepGroups_out in Hin' as (r0 & x0 & d0 & gk0 & E & _). discriminate.
    + apply NoDup_set_delete. unfold members.
      destruct (JsMap.get gk g) as [m|] eqn:Eg; [eauto|constructor].
    + apply In_set_delete. auto.
  - assert (Hsx : sid <> x).
    { intros ->. apply Hnot. change x with (fst (x, d)). now apply in_map. }
    destruct (expired now dv) eqn:Eh; [|now apply IH].
    destruct (truthy (groupKey dv)) as [gk1|] eqn:Et1; [|now apply IH].
    pose proof (leaveGroup_out sid gk1 g) as Ho.
    pose proof (leaveGroup_members sid gk1 g gk) as Hmem.
    pose proof (leaveGroup_get sid gk1 g) as Hget.
    destruct (leaveGroup sid gk1 g) as [g1 notices] eqn:El. cbn [fst snd] in *.
    pose proof (IH g1) as IH1.
    destruct (sweepGroups now rest g1) as [g2 more] eqn:Es. cbn [snd] in *.
    rewrite sent_app, Ho, sent_left_map.
    apply String.eqb_neq in Hsx. rewrite Hsx. cbn [Nat.add].
    apply IH1; auto.
    + intros gk' m. rewrite Hget.
      destruct (String.eqb gk' gk1); [|eauto].
      destruct (JsMap.get gk1 g) as [m0|] eqn:Eg; [|discriminate].
      intros H. assert (Hm0 : m = JsSet.delete sid m0).
      { destruct (JsSet.delete sid m0); [discriminate|congruence]. }
      subst m. apply NoDup_set_delete. eauto.
    + rewrite Hmem. destruct (String.eqb_spec gk gk1) as [->|]; [|exact Hm].
      apply In_set_delete. split; [exact Hm|].
      intros ->. rewrite (Hr dv) in Eh by now left. discriminate.
Qed.

End Sweep.

(* ================================================================== *)
(** ** Invariants of the event loop *)

Section Steps.

Implicit Types (s : State) (w : World) (sid gk : string).

(** Overwriting a record without touching [id] and [groupKey], as
    [heartbeat] and [device-info] do. *)
Lemma update_coherent s sid d d' :
  JsMap.get sid (devices s) = Some d -> id d' = id d -> groupKey d' = groupKey d ->
  coherent s ->
  coherent {| devices := JsMap.set sid d' (devices s); ipGroups := ipGroups s |}.
Proof.
  intros Hget Hid Hgk [Hk Hs Hr]. constructor; cbn [devices ipGroups].
  - now apply NoDup_keys_set.
  - exact Hs.
  - intros x dx. destruct (String.eqb_spec x sid) as [->|Hne].
    + rewrite get_set_eq. intros E. injection E as <-. rewrite Hid, Hgk. now apply Hr.
    + rewrite get_set_neq by exact Hne. apply Hr.
Qed.

Lemma update_agree s sid d d' :
  JsMap.get sid (devices s) = Some d -> id d' = id d -> groupKey d' = groupKey d ->
  agree s ->
  agree {| devices := JsMap.set sid d' (devices s); ipGroups := ipGroups s |}.
Proof.
  intros Hget Hid Hgk [Hc Hkey Hidx Hne].
  constructor; unfold keyed, index_matches_registry, no_empty_group in *;
    cbn [devices ipGroups].
  - eapply update_coherent; eauto.
  - intros x dx gk. destruct (String.eqb_spec x sid) as [->|Hx].
    + rewrite get_set_eq. intros E. injection E as <-. rewrite Hgk. eauto.
    + rewrite get_set_neq by exact Hx. eauto.
  - intros gk x. rewrite Hidx. destruct (String.eqb_spec x sid) as [->|Hx].
    + rewrite get_set_eq. split.
      * intros (d0 & Hd0 & Hg0). exists d'. split; [reflexivity|]. congruence.
      * intros (d0 & Hd0 & Hg0). exists d. split; [exact Hget|]. congruence.
    + now rewrite get_set_neq by exact Hx.
  - exact Hne.
Qed.

Lemma update_registered s sid d d' x :
  JsMap.get sid (devices s) = Some d ->
  registered x {| devices := JsMap.set sid d' (devices s); ipGroups := ipGroups s |} =
  registered x s.
Proof.
  intros Hget. unfold registered, JsMap.has. cbn [devices].
  destruct (String.eqb_spec x sid) as [->|Hne].
  - now rewrite get_set_eq, Hget.
  - now rewrite get_set_neq.
Qed.

Lemma onHeartbeat_coherent sid now s : coherent s -> coherent (fst (onHeartbeat sid now s)).
Proof.
  intros H. unfold onHeartbeat.
  destruct (JsMap.get sid (devices s)) as [d|] eqn:E; [|exact H].
  cbn [fst]. eapply update_coherent; eauto.
Qed.

Lemma onHeartbeat_agree sid now s : agree s -> agree (fst (onHeartbeat sid now s)).
Proof.
  intros H. unfold onHeartbeat.
  destruct (JsMap.get sid (devices s)) as [d|] eqn:E; [|exact H].
  cbn [fst]. eapply update_agree; eauto.
Qed.

Lemma onHeartbeat_registered sid now s x :
  registered x (fst (onHeartbeat sid now s)) = registered x s.
Proof.
  unfold onHeartbeat.
  destruct (JsMap.get sid (devices s)) as [d|] eqn:E; [|reflexivity].
  cbn [fst]. eapply update_registered; eauto.
Qed.

Lemma onHeartbeat_out sid now s : snd (onHeartbeat sid now s) = [].
Proof. unfold onHeartbeat. now destruct (JsMap.get sid (devices s)). Qed.

(** On coherent maps the non-null assertion of [device-info] holds. *)
Lemma onDeviceInfo_inv sid ty ic nm s :
  coherent s ->
  match JsMap.get sid (devices s) with
  | Some d =>
      onDeviceInfo sid ty ic nm s =
      Some ({| devices :=
                 JsMap.set sid {| id := id d; lastSeen := lastSeen d; type := Some ty;
                                  icon := Some ic; name := Some nm;
                                  groupKey := groupKey d |} (devices s);
               ipGroups := ipGroups s |},
            match truthy (groupKey d) with
            | Some gk =>
                map (fun i => RoomEmit i (DeviceInfoUpdate sid ty ic nm))
                    (members gk (ipGroups s))
            | None => []
            end)
  | None => onDeviceInfo sid ty ic nm s = Some (s, [])
  end.
Proof.
  intros Hc. unfold onDeviceInfo.
  destruct (JsMap.get sid (devices s)) as [d|] eqn:E; [|reflexivity].
  cbn [groupKey]. destruct (truthy (groupKey d)) as [gk|] eqn:Et; [|reflexivity].
  apply truthy_Some in Et as [Hgk _].
  destruct (coherent_record s Hc sid d E) as (_ & gk' & Hgk' & Hin).
  assert (gk' = gk) by congruence. subst gk'.
  apply In_members in Hin as (m & Hm & _).
  unfold members. now rewrite Hm.
Qed.

Lemma onDeviceInfo_coherent sid ty ic nm s s' out :
  coherent s -> onDeviceInfo sid ty ic nm s = Some (s', out) -> coherent s'.
Proof.
  intros Hc H. pose proof (onDeviceInfo_inv sid ty ic nm s Hc) as Hi.
  destruct (JsMap.get sid (devices s)) as [d|] eqn:E; rewrite Hi in H;
    injection H as <- <-; [|exact Hc].
  eapply update_coherent; eauto.
Qed.

Lemma onDeviceInfo_agree sid ty ic nm s s' out :
  agree s -> onDeviceInfo sid ty ic nm s = Some (s', out) -> agree s'.
Proof.
  intros Ha H. pose proof (onDeviceInfo_inv sid ty ic nm s (agree_coherent s Ha)) as Hi.
  destruct (JsMap.get sid (devices s)) as [d|] eqn:E; rewrite Hi in H;
    injection H as <- <-; [|exact Ha].
  eapply update_agree; eauto.
Qed.

Lemma onDeviceInfo_registered sid ty ic nm s s' out x :
  coherent s -> onDeviceInfo sid ty ic nm s = Some (s', out) ->
  registered x s' = registered x s.
Proof.
  intros Hc H. pose proof (onDeviceInfo_inv sid ty ic nm s Hc) as Hi.
  destruct (JsMap.get sid (devices s)) as [d|] eqn:E; rewrite Hi in H;
    injection H as <- <-; [|reflexivity].
  eapply update_registered; eauto.
Qed.

Lemma onConnection_total sid ip now s : exists s' out, onConnection sid ip now s = Some (s', out).
Proof. destruct (onConnection_inv sid ip now s) as (g2 & E & _). eauto. Qed.

Lemma onConnection_devices sid ip now s s' out :
  onConnection sid ip now s = Some (s', out) ->
  devices s' =
  JsMap.set sid {| id := sid; lastSeen := now; type := None; icon := None; name := None;
                   groupKey := Some (getNetworkGroup ip) |} (JsMap.delete sid (devices s)).
Proof.
  intros H. destruct (onConnection_inv sid ip now s) as (g2 & E & _).
  rewrite E in H. now injection H as <- <-.
Qed.

Lemma onConnection_get sid ip now s s' out gk' :
  onConnection sid ip now s = Some (s', out) ->
  JsMap.get gk' (ipGroups s') =
  if String.eqb gk' (getNetworkGroup ip)
  then Some (JsSet.add sid (members (getNetworkGroup ip) (ipGroups s)))
  else JsMap.get gk' (ipGroups s).
Proof.
  intros H. destruct (onConnection_inv sid ip now s) as (g2 & E & Hg).
  rewrite E in H. injection H as <- <-. apply Hg.
Qed.

Lemma members_NoDup s gk : coherent s -> NoDup (members gk (ipGroups s)).
Proof.
  intros Hc. unfold members.
  destruct (JsMap.get gk (ipGroups s)) as [m|] eqn:E; [|constructor].
  eapply coherent_sets; eauto.
Qed.

Lemma onConnection_coherent sid ip now s s' out :
  coherent s -> onConnection sid ip now s = Some (s', out) -> coherent s'.
Proof.
  intros Hc H. pose proof Hc as [Hk Hs Hr]. constructor.
  - rewrite (onConnection_devices _ _ _ _ _ _ H).
    apply NoDup_keys_set. now apply NoDup_keys_delete.
  - intros gk' m. rewrite (onConnection_get _ _ _ _ _ _ gk' H).
    destruct (String.eqb gk' (getNetworkGroup ip)); [|apply Hs].
    intros E. injection E as <-. apply NoDup_set_add. now apply members_NoDup.
  - intros x d. rewrite (onConnection_devices _ _ _ _ _ _ H).
    rewrite (onConnection_members _ _ _ _ _ _ _ H) || idtac.
    destruct (String.eqb_spec x sid) as [->|Hne].
    + rewrite get_set_eq. intros E. injection E as <-. cbn [id groupKey].
      split; [reflexivity|]. exists (getNetworkGroup ip). split; [reflexivity|].
      rewrite (onConnection_members _ _ _ _ _ _ _ H), String.eqb_refl.
      apply In_set_add. now left.
    + rewrite get_set_neq, get_delete_neq by exact Hne. intros Hx.
      destruct (Hr x d Hx) as (Hid & gk' & Hgk & Hin). split; [exact Hid|].
      exists gk'. split; [exact Hgk|].
      rewrite (onConnection_members _ _ _ _ _ _ _ H).
      destruct (String.eqb_spec gk' (getNetworkGroup ip)) as [->|]; [|exact Hin].
      apply In_set_add. now right.
Qed.

Lemma onConnection_registered sid ip now s s' out x :
  onConnection sid ip now s = Some (s', out) ->
  registered x s' = String.eqb x sid || registered x s.
Proof.
  intros H. unfold registered, JsMap.has. rewrite (onConnection_devices _ _ _ _ _ _ H).
  destruct (String.eqb_spec x sid) as [->|Hne].
  - now rewrite get_set_eq.
  - now rewrite get_set_neq, get_delete_neq.
Qed.

(** With an id that is not registered and a non-empty address, the
    registration keeps the index in step with the registry. *)
Lemma onConnection_agree sid ip now s s' out :
  agree s -> registered sid s = false -> ip <> "" ->
  onConnection sid ip now s = Some (s', out) -> agree s'.
Proof.
  intros [Hc Hkey Hidx Hne] Hfresh Hip H.
  unfold index_matches_registry in Hidx.
  apply has_false in Hfresh.
  constructor.
  - eapply onConnection_coherent; eauto.
  - intros x d gk. rewrite (onConnection_devices _ _ _ _ _ _ H).
    destruct (String.eqb_spec x sid) as [->|Hx].
    + rewrite get_set_eq. intros E. injection E as <-. cbn [groupKey].
      intros E. injection E as <-. now rewrite getNetworkGroup_empty_iff.
    + rewrite get_set_neq, get_delete_neq by exact Hx. eauto.
  - intros gk x. rewrite (onConnection_members _ _ _ _ _ _ _ H).
    rewrite (onConnection_devices _ _ _ _ _ _ H).
    rewrite delete_absent by exact Hfresh.
    destruct (String.eqb_spec x sid) as [->|Hx].
    + rewrite get_set_eq. destruct (String.eqb_spec gk (getNetworkGroup ip)) as [->|Hg].
      * split.
        -- intros _. eexists. split; reflexivity.
        -- intros _. apply In_set_add. now left.
      * split.
        -- intros Hin. apply Hidx in Hin as (d & Hd & _). congruence.
        -- intros (d & E & Hg'). injection E as <-. cbn [groupKey] in Hg'. congruence.
    + rewrite get_set_neq by exact Hx. rewrite <- Hidx.
      destruct (String.eqb_spec gk (getNetworkGroup ip)) as [->|Hg]; [|tauto].
      rewrite In_set_add. tauto.
  - intros gk m. rewrite (onConnection_get _ _ _ _ _ _ gk H).
    destruct (String.eqb gk (getNetworkGroup ip)); [|apply Hne].
    intros E. injection E as <-. intros E.
    assert (Hin : In sid (JsSet.add sid (members (getNetworkGroup ip) (ipGroups s)))).
    { apply In_set_add. now left. }
    rewrite E in Hin. destruct Hin.
Qed.

Lemma onDisconnect_coherent sid s : coherent s -> coherent (fst (onDisconnect sid s)).
Proof.
  intros Hc. destruct (JsMap.get sid (devices s)) as [d|] eqn:E.
  - rewrite (onDisconnect_evict _ _ _ E). now apply evict_coherent.
  - now rewrite (onDisconnect_absent _ _ E).
Qed.

Lemma onDisconnect_agree sid s : agree s -> agree (fst (onDisconnect sid s)).
Proof.
  intros Ha. destruct (JsMap.get sid (devices s)) as [d|] eqn:E.
  - rewrite (onDisconnect_evict _ _ _ E). now apply evict_agree.
  - now rewrite (onDisconnect_absent _ _ E).
Qed.

Lemma onDisconnect_registered sid s x :
  registered x (fst (onDisconnect sid s)) = true -> registered x s = true /\ x <> sid.
Proof.
  destruct (JsMap.get sid (devices s)) as [d|] eqn:E.
  - rewrite (onDisconnect_evict _ _ _ E). apply evict_registered.
  - rewrite (onDisconnect_absent _ _ E). cbn [fst]. intros H. split; [exact H|].
    intros ->. unfold registered in H. apply has_true in H as (v & Hv). congruence.
Qed.

Lemma cleanupDevices_registered now s x :
  coherent s ->
  registered x (fst (cleanupDevices now s)) = true -> registered x s = true.
Proof.
  intros Hc. unfold registered, JsMap.has.
  rewrite cleanupDevices_get by apply Hc.
  destruct (JsMap.get x (devices s)); [reflexivity|discriminate].
Qed.

(** *** Every world the server can be in is sound *)

Lemma step_sound w e w' out : sound w -> step w e = Some (w', out) -> sound w'.
Proof.
  intros [Hc Ho] H. destruct e as [sid ip now|sid now|sid ty ic nm|sid d|sid|now]; cbn [step] in H.
  - destruct (onConnection sid ip now (server w)) as [[s' o]|] eqn:E; [|discriminate].
    injection H as <- <-. constructor; cbn [server sockets].
    + eapply onConnection_coherent; eauto.
    + intros x. rewrite (onConnection_registered _ _ _ _ _ _ x E).
      intros Hx. apply set_has_In, In_set_add.
      destruct (String.eqb_spec x sid) as [Heq|Hne]; [now left|right].
      apply set_has_In. now apply Ho.
  - destruct (JsSet.has sid (sockets w)); [|injection H as <- <-; now constructor].
    pose proof (onHeartbeat_coherent sid now (server w) Hc) as Hc'.
    pose proof (onHeartbeat_registered sid now (server w)) as Hr.
    destruct (onHeartbeat sid now (server w)) as [s' o]. injection H as <- <-.
    constructor; cbn [server sockets fst] in *; [exact Hc'|].
    intros x. rewrite Hr. apply Ho.
  - destruct (JsSet.has sid (sockets w)); [|injection H as <- <-; now constructor].
    destruct (onDeviceInfo sid ty ic nm (server w)) as [[s' o]|] eqn:E; [|discriminate].
    injection H as <- <-. constructor; cbn [server sockets].
    + eapply onDeviceInfo_coherent; eauto.
    + intros x. rewrite (onDeviceInfo_registered _ _ _ _ _ _ _ x Hc E). apply Ho.
  - destruct (JsSet.has sid (sockets w)); injection H as <- <-; now constructor.
  - destruct (JsSet.has sid (sockets w)); [|injection H as <- <-; now constructor].
    pose proof (onDisconnect_coherent sid (server w) Hc) as Hc'.
    pose proof (onDisconnect_registered sid (server w)) as Hr.
    destruct (onDisconnect sid (server w)) as [s' o]. injection H as <- <-.
    constructor; cbn [server sockets fst] in *; [exact Hc'|].
    intros x Hx. destruct (Hr x Hx) as [Hx' Hne].
    apply set_has_In, In_set_delete. split; [|exact Hne].
    apply set_has_In. now apply Ho.
  - pose proof (cleanupDevices_coherent now (server w) Hc) as Hc'.
    pose proof (cleanupDevices_registered now (server w)) as Hr.
    destruct (cleanupDevices now (server w)) as [s' o]. injection H as <- <-.
    constructor; cbn [server sockets fst] in *; [exact Hc'|].
    intros x Hx. apply Ho. now apply Hr.
Qed.

Lemma boot_sound : sound boot.
Proof.
  constructor; [constructor|]; cbn; try discriminate.
  constructor.
Qed.

Lemma reachable_sound w : reachable w -> sound w.
Proof.
  induction 1 as [|w e w' out _ IH Hs]; [exact boot_sound|].
  eapply step_sound; eauto.
Qed.

(** On a sound world no handler raises. *)
Lemma step_total w e : sound w -> exists w' out, step w e = Some (w', out).
Proof.
  intros [Hc _]. destruct e as [sid ip now|sid now|sid ty ic nm|sid d|sid|now]; cbn [step].
  - destruct (onConnection_total sid ip now (server w)) as (s' & o & ->). eauto.
  - destruct (JsSet.has sid (sockets w)); [|eauto].
    destruct (onHeartbeat sid now (server w)). eauto.
  - destruct (JsSet.has sid (sockets w)); [|eauto].
    pose proof (onDeviceInfo_inv sid ty ic nm (server w) Hc) as Hi.
    destruct (JsMap.get sid (devices (server w))); rewrite Hi; eauto.
  - destruct (JsSet.has sid (sockets w)); do 2 eexists; reflexivity.
  - destruct (JsSet.has sid (sockets w)); [|eauto].
    destruct (onDisconnect sid (server w)). eauto.
  - destruct (cleanupDevices now (server w)). eauto.
Qed.

(** *** Registry and index agree as long as ids are not reused *)

Lemma step_consistent w e w' out :
  consistent w -> fresh w e = true -> step w e = Some (w', out) -> consistent w'.
Proof.
  intros [Ha Ho] Hf H.
  assert (Hs : sound w) by (constructor; [apply Ha|exact Ho]).
  pose proof (step_sound w e w' out Hs H) as [_ Ho'].
  constructor; [|exact Ho'].
  destruct e as [sid ip now|sid now|sid ty ic nm|sid d|sid|now]; cbn [step fresh] in *.
  - destruct (onConnection sid ip now (server w)) as [[s' o]|] eqn:E; [|discriminate].
    injection H as <- <-. cbn [server].
    apply andb_true_iff in Hf as [Hreg Hip].
    apply negb_true_iff in Hreg, Hip. apply String.eqb_neq in Hip.
    eapply onConnection_agree; eauto.
  - destruct (JsSet.has sid (sockets w)); [|injection H as <- <-; exact Ha].
    pose proof (onHeartbeat_agree sid now (server w) Ha) as Ha'.
    destruct (onHeartbeat sid now (server w)) as [s' o]. now injection H as <- <-.
  - destruct (JsSet.has sid (sockets w)); [|injection H as <- <-; exact Ha].
    destruct (onDeviceInfo sid ty ic nm (server w)) as [[s' o]|] eqn:E; [|discriminate].
    injection H as <- <-. cbn [server]. eapply onDeviceInfo_agree; eauto.
  - destruct (JsSet.has sid (sockets w)); injection H as <- <-; exact Ha.
  - destruct (JsSet.has sid (sockets w)); [|injection H as <- <-; exact Ha].
    pose proof (onDisconnect_agree sid (server w) Ha) as Ha'.
    destruct (onDisconnect sid (server w)) as [s' o]. now injection H as <- <-.
  - pose proof (cleanupDevices_agree now (server w) Ha) as Ha'.
    destruct (cleanupDevices now (server w)) as [s' o]. now injection H as <- <-.
Qed.

Lemma boot_consistent : consistent boot.
Proof.
  constructor; [constructor; [apply boot_sound| | |]|]; cbn.
  - intros sid d gk H. discriminate.
  - intros gk sid. cbn. split; [intros []|]. intros (d & H & _). discriminate.
  - intros gk m H. discriminate.
  - discriminate.
Qed.

End Steps.

(* ================================================================== *)
(** ** Sequences of turns and what arrives *)

Section Traces.

Implicit Types (w : World) (es : list Event).

Lemma react_step w e w' ds :
  react w e = Some (w', ds) <->
  exists out, step w e = Some (w', out) /\ ds = deliveries (sockets w') out.
Proof.
  unfold react. destruct (step w e) as [[w1 out]|].
  - split.
    + intros E. injection E as <- <-. eauto.
    + intros (out' & E & ->). now injection E as <- <-.
  - split; [discriminate|]. intros (out' & E & _). discriminate.
Qed.

Lemma react_sound w e w' ds : sound w -> react w e = Some (w', ds) -> sound w'.
Proof.
  intros Hs H. apply react_step in H as (out & H & _). eapply step_sound; eauto.
Qed.

Lemma react_total w e : sound w -> exists w' ds, react w e = Some (w', ds).
Proof.
  intros Hs. destruct (step_total w e Hs) as (w' & out & H).
  unfold react. rewrite H. eauto.
Qed.

Lemma run_cons w e es w1 ds1 :
  react w e = Some (w1, ds1) ->
  run w (e :: es) =
  match run w1 es with Some (w2, ds2) => Some (w2, ds1 ++ ds2) | None => None end.
Proof. intros H. cbn [run]. now rewrite H. Qed.

Lemma run_app w es1 es2 w1 ds1 :
  run w es1 = Some (w1, ds1) ->
  run w (es1 ++ es2) =
  match run w1 es2 with Some (w2, ds2) => Some (w2, ds1 ++ ds2) | None => None end.
Proof.
  revert w w1 ds1. induction es1 as [|e es1 IH]; intros w w1 ds1 H.
  - injection H as <- <-. cbn [app]. now destruct (run w es2) as [[w2 ds2]|].
  - cbn [run app] in *. destruct (react w e) as [[wa da]|]; [|discriminate].
    destruct (run wa es1) as [[wb db]|] eqn:E; [|discriminate].
    injection H as <- <-. rewrite (IH _ _ _ E).
    destruct (run wb es2) as [[w2 ds2]|]; [|reflexivity]. now rewrite app_assoc.
Qed.

Lemma run_sound w es w' ds : sound w -> run w es = Some (w', ds) -> sound w'.
Proof.
  revert w ds. induction es as [|e es IH]; intros w ds Hs H.
  - now injection H as <- <-.
  - cbn [run] in H. destruct (react w e) as [[w1 d1]|] eqn:E; [|discriminate].
    destruct (run w1 es) as [[w2 d2]|] eqn:E2; [|discriminate].
    injection H as <- <-. eapply IH; [|exact E2]. eapply react_sound; eauto.
Qed.

Lemma run_total w es : sound w -> exists w' ds, run w es = Some (w', ds).
Proof.
  revert w. induction es as [|e es IH]; intros w Hs; [cbn; eauto|].
  destruct (react_total w e Hs) as (w1 & d1 & E). cbn [run]. rewrite E.
  destruct (IH w1 (react_sound _ _ _ _ Hs E)) as (w2 & d2 & ->). eauto.
Qed.

Lemma run_reachable w es w' ds : reachable w -> run w es = Some (w', ds) -> reachable w'.
Proof.
  revert w ds. induction es as [|e es IH]; intros w ds Hr H.
  - now injection H as <- <-.
  - cbn [run] in H. destruct (react w e) as [[w1 d1]|] eqn:E; [|discriminate].
    destruct (run w1 es) as [[w2 d2]|] eqn:E2; [|discriminate].
    injection H as <- <-. eapply IH; [|exact E2].
    apply react_step in E as (out & E & _). eapply reachable_step; eauto.
Qed.

Lemma run_consistent w es w' ds :
  consistent w -> fresh_trace w es = true -> run w es = Some (w', ds) -> consistent w'.
Proof.
  revert w ds. induction es as [|e es IH]; intros w ds Hc Hf H.
  - now injection H as <- <-.
  - cbn [run fresh_trace] in *. apply andb_true_iff in Hf as [Hfe Hf].
    unfold react in H. destruct (step w e) as [[w1 out]|] eqn:E; [|discriminate].
    destruct (run w1 es) as [[w2 d2]|] eqn:E2; [|discriminate].
    injection H as <- <-. eapply IH; [|exact Hf|exact E2].
    eapply step_consistent; eauto.
Qed.

Lemma consistent_sound w : consistent w -> sound w.
Proof. intros [Ha Ho]. constructor; [apply Ha|exact Ho]. Qed.

(** *** Deliveries *)

Lemma In_deliveries socks out r m :
  In (r, m) (deliveries socks out) <->
  In (SocketEmit r m) out \/ (In (RoomEmit r m) out /\ JsSet.has r socks = true).
Proof.
  unfold deliveries. rewrite in_flat_map. split.
  - intros ([r' m'|r' m'] & Hin & Hrec); cbn [received] in Hrec.
    + destruct Hrec as [E|[]]. injection E as -> ->. now left.
    + destruct (JsSet.has r' socks) eqn:Eh; [|destruct Hrec].
      destruct Hrec as [E|[]]. injection E as -> ->. right. auto.
  - intros [H|[H Ho]].
    + exists (SocketEmit r m). split; [exact H|now left].
    + exists (RoomEmit r m). split; [exact H|]. cbn [received]. rewrite Ho. now left.
Qed.

Lemma got_deliveries_open socks out r p :
  JsSet.has r socks = true -> got r p (deliveries socks out) = sent r p out.
Proof.
  intros Ho. unfold got, sent, deliveries.
  induction out as [|e out IH]; [reflexivity|].
  cbn [flat_map]. rewrite filter_app, length_app, IH. clear IH.
  destruct e as [r' m|r' m]; cbn [received filter].
  - cbn [fst snd]. destruct (String.eqb r' r && p m); reflexivity.
  - destruct (JsSet.has r' socks) eqn:Eh; cbn [filter fst snd].
    + destruct (String.eqb r' r && p m); reflexivity.
    + destruct (String.eqb_spec r' r) as [->|]; [congruence|reflexivity].
Qed.

End Traces.

(* ================================================================== *)
(** ** Records over a sequence of turns *)

Section Liveness.

Implicit Types (w : World) (s : State) (x sid : string).

(** Only a connection under [x] or the removal of [x] changes whether [x]
    is registered; only these and the handlers of [x] touch its record. *)
Lemma onHeartbeat_get sid now s x :
  JsMap.get x (devices (fst (onHeartbeat sid now s))) =
  if String.eqb x sid then
    match JsMap.get x (devices s) with
    | Some d => Some {| id := id d; lastSeen := now; type := type d; icon := icon d;
                        name := name d; groupKey := groupKey d |}
    | None => None
    end
  else JsMap.get x (devices s).
Proof.
  unfold onHeartbeat. destruct (String.eqb_spec x sid) as [->|Hne].
  - destruct (JsMap.get sid (devices s)) as [d|] eqn:E; cbn [fst devices].
    + apply get_set_eq.
    + exact E.
  - destruct (JsMap.get sid (devices s)) as [d|] eqn:E; cbn [fst devices]; [|reflexivity].
    now apply get_set_neq.
Qed.

Lemma onDeviceInfo_get sid ty ic nm s s' out x :
  onDeviceInfo sid ty ic nm s = Some (s', out) ->
  JsMap.get x (devices s') =
  if String.eqb x sid then
    match JsMap.get x (devices s) with
    | Some d => Some {| id := id d; lastSeen := lastSeen d; type := Some ty;
                        icon := Some ic; name := Some nm; groupKey := groupKey d |}
    | None => None
    end
  else JsMap.get x (devices s).
Proof.
  unfold onDeviceInfo. intros H.
  destruct (JsMap.get sid (devices s)) as [d|] eqn:E.
  - assert (Hs : devices s' =
                 JsMap.set sid {| id := id d; lastSeen := lastSeen d; type := Some ty;
                                  icon := Some ic; name := Some nm;
                                  groupKey := groupKey d |} (devices s)).
    { cbn [groupKey] in H. destruct (truthy (groupKey d)) as [gk|].
      - destruct (JsMap.get gk (ipGroups s)); [|discriminate]. now injection H as <- <-.
      - now injection H as <- <-. }
    rewrite Hs. destruct (String.eqb_spec x sid) as [->|Hne].
    + now rewrite get_set_eq, E.
    + now apply get_set_neq.
  - injection H as <- <-. destruct (String.eqb_spec x sid) as [->|]; [|reflexivity].
    now rewrite E.
Qed.

Lemma onConnection_get_device sid ip now s s' out x :
  onConnection sid ip now s = Some (s', out) ->
  JsMap.get x (devices s') =
  if String.eqb x sid then
    Some {| id := sid; lastSeen := now; type := None; icon := None; name := None;
            groupKey := Some (getNetworkGroup ip) |}
  else JsMap.get x (devices s).
Proof.
  intros H. rewrite (onConnection_devices _ _ _ _ _ _ H).
  destruct (String.eqb_spec x sid) as [->|Hne].
  - apply get_set_eq.
  - now rewrite get_set_neq, get_delete_neq.
Qed.

Lemma onDisconnect_get sid s x :
  JsMap.get x (devices (fst (onDisconnect sid s))) =
  if String.eqb x sid then None else JsMap.get x (devices s).
Proof.
  assert (H : devices (fst (onDisconnect sid s)) = JsMap.delete sid (devices s)).
  { unfold onDisconnect. now destruct (match JsMap.get sid (devices s) with
                                      | Some device => _ | None => _ end). }
  rewrite H. destruct (String.eqb_spec x sid) as [->|Hne].
  - apply get_delete_eq.
  - now apply get_delete_neq.
Qed.

(** *** A connection that keeps refreshing [lastSeen] stays registered *)

Lemma kept_alive_registered es :
  forall w x d,
    sound w -> JsMap.get x (devices (server w)) = Some d ->
    kept_alive x (lastSeen d) es = true ->
    exists w' ds, run w es = Some (w', ds) /\ registered x (server w') = true.
Proof.
  induction es as [|e es IH]; intros w x d Hs Hget Hk.
  - exists w, []. split; [reflexivity|]. unfold registered, JsMap.has. now rewrite Hget.
  - destruct (react_total w e Hs) as (w1 & d1 & Hre).
    pose proof (react_sound _ _ _ _ Hs Hre) as Hs1.
    assert (Hnext : exists d', JsMap.get x (devices (server w1)) = Some d' /\
                               kept_alive x (lastSeen d') es = true).
    { apply react_step in Hre as (out & Hst & _).
      destruct e as [sid ip now|sid now|sid ty ic nm|sid rd|sid|now];
        cbn [step kept_alive] in *.
      - destruct (onConnection sid ip now (server w)) as [[s' o]|] eqn:E; [|discriminate].
        injection Hst as <- <-. cbn [server].
        rewrite (onConnection_get_device _ _ _ _ _ _ x E).
        rewrite (String.eqb_sym sid x) in Hk.
        destruct (String.eqb x sid); eauto.
      - rewrite (String.eqb_sym sid x) in Hk.
        destruct (JsSet.has sid (sockets w)) eqn:Eo.
        + pose proof (onHeartbeat_get sid now (server w) x) as Hg.
          destruct (onHeartbeat sid now (server w)) as [s' o]. injection Hst as <- <-.
          cbn [server fst] in *. rewrite Hg.
          destruct (String.eqb x sid); [|eauto]. rewrite Hget. eauto.
        + injection Hst as <- <-.
          destruct (String.eqb_spec x sid) as [->|]; [|eauto].
          pose proof (sound_open w Hs sid) as Ho. unfold registered, JsMap.has in Ho.
          rewrite Hget in Ho. rewrite Ho in Eo by reflexivity. discriminate.
      - destruct (JsSet.has sid (sockets w)); [|injection Hst as <- <-; eauto].
        destruct (onDeviceInfo sid ty ic nm (server w)) as [[s' o]|] eqn:E; [|discriminate].
        injection Hst as <- <-. cbn [server].
        rewrite (onDeviceInfo_get _ _ _ _ _ _ _ x E).
        destruct (String.eqb x sid); [|eauto]. rewrite Hget. eauto.
      - destruct (JsSet.has sid (sockets w)); injection Hst as <- <-; eauto.
      - apply andb_true_iff in Hk as [Hne Hk]. apply negb_true_iff in Hne.
        rewrite String.eqb_sym in Hne.
        destruct (JsSet.has sid (sockets w)); [|injection Hst as <- <-; eauto].
        pose proof (onDisconnect_get sid (server w) x) as Hg.
        destruct (onDisconnect sid (server w)) as [s' o]. injection Hst as <- <-.
        cbn [server fst] in *. rewrite Hg, Hne. eauto.
      - apply andb_true_iff in Hk as [Hle Hk]. apply Z.leb_le in Hle.
        pose proof (cleanupDevices_get now (server w) x
                      (coherent_keys _ (sound_server w Hs))) as Hg.
        destruct (cleanupDevices now (server w)) as [s' o]. injection Hst as <- <-.
        cbn [server fst] in *. rewrite Hg, Hget.
        assert (He : expired now d = false).
        { unfold expired. rewrite Z.gtb_ltb. apply Z.ltb_ge. lia. }
        rewrite He. eauto. }
    destruct Hnext as (d' & Hget' & Hk').
    destruct (IH w1 x d' Hs1 Hget' Hk') as (w2 & d2 & Hrun & Hreg).
    exists w2, (d1 ++ d2). split; [|exact Hreg].
    rewrite (run_cons _ _ _ _ _ Hre), Hrun. reflexivity.
Qed.

(** *** An id that is not registered stays out of every roster *)

Lemma step_keeps_out w e w' out x :
  sound w -> registered x (server w) = false -> connects x e = false ->
  step w e = Some (w', out) ->
  registered x (server w') = false /\
  forall r m, In (SocketEmit r m) out \/ In (RoomEmit r m) out -> roster_without x m.
Proof.
  intros Hs Hx Hc H. pose proof (sound_server w Hs) as Hco.
  destruct e as [sid ip now|sid now|sid ty ic nm|sid rd|sid|now]; cbn [step connects] in *.
  - destruct (onConnection_inv sid ip now (server w)) as (g2 & E & _).
    rewrite E in H. injection H as <- <-. cbn [server]. split.
    + unfold registered, JsMap.has in *. cbn [devices].
      rewrite String.eqb_sym in Hc. apply String.eqb_neq in Hc.
      now rewrite get_set_neq, get_delete_neq.
    + intros r m [Hin|Hin].
      * destruct Hin as [E'|Hin].
        -- injection E' as <- <-. cbn [roster_without]. intros p Hp.
           apply in_flat_map in Hp as (i & _ & Hp).
           destruct (JsMap.get i (JsMap.delete sid (devices (server w)))) as [di|] eqn:Ei;
             [|destruct Hp].
           destruct Hp as [<-|[]].
           destruct (String.eqb_spec i sid) as [->|Hne];
             [now rewrite get_delete_eq in Ei|].
           rewrite get_delete_neq in Ei by exact Hne.
           destruct (coherent_record _ Hco i di Ei) as [-> _].
           intros ->. unfold registered, JsMap.has in Hx. now rewrite Ei in Hx.
        -- apply in_map_iff in Hin as (i & E' & _). discriminate.
      * destruct Hin as [E'|Hin]; [discriminate|].
        apply in_map_iff in Hin as (i & E' & _). now injection E' as <- <-.
  - destruct (JsSet.has sid (sockets w)).
    + pose proof (onHeartbeat_registered sid now (server w) x) as Hr.
      pose proof (onHeartbeat_out sid now (server w)) as Ho.
      destruct (onHeartbeat sid now (server w)) as [s' o]. injection H as <- <-.
      cbn [server fst snd] in *. subst o. split; [congruence|]. intros r m [[]|[]].
    + injection H as <- <-. split; [exact Hx|]. intros r m [[]|[]].
  - destruct (JsSet.has sid (sockets w)).
    + destruct (onDeviceInfo sid ty ic nm (server w)) as [[s' o]|] eqn:E; [|discriminate].
      injection H as <- <-. cbn [server]. split.
      * now rewrite (onDeviceInfo_registered _ _ _ _ _ _ _ x Hco E).
      * pose proof (onDeviceInfo_inv sid ty ic nm (server w) Hco) as Hi.
        destruct (JsMap.get sid (devices (server w))) as [dv|]; rewrite Hi in E;
          injection E as <- <-; [|intros r m [[]|[]]].
        intros r m Hin.
        destruct (truthy (groupKey dv)); [|destruct Hin as [[]|[]]].
        destruct Hin as [Hin|Hin]; apply in_map_iff in Hin as (i & E' & _);
          [discriminate|]. now injection E' as <- <-.
    + injection H as <- <-. split; [exact Hx|]. intros r m [[]|[]].
  - destruct (JsSet.has sid (sockets w)); injection H as <- <-.
    + split; [exact Hx|]. intros r m [[E|[]]|[E|[]]]; [discriminate|].
      injection E as <- <-. now destruct rd.
    + split; [exact Hx|]. intros r m [[]|[]].
  - destruct (JsSet.has sid (sockets w)).
    + pose proof (onDisconnect_registered sid (server w) x) as Hr.
      assert (Ho : forall e, In e (snd (onDisconnect sid (server w))) ->
                             exists r, e = RoomEmit r (DeviceLeft sid)).
      { destruct (JsMap.get sid (devices (server w))) as [dv|] eqn:E.
        - rewrite (onDisconnect_evict _ _ _ E), evict_out.
          destruct (truthy (groupKey dv)); [|intros e []].
          intros e Hin. apply in_map_iff in Hin as (i & <- & _). eauto.
        - rewrite (onDisconnect_absent _ _ E). intros e []. }
      destruct (onDisconnect sid (server w)) as [s' o]. injection H as <- <-.
      cbn [server fst snd] in *. split.
      * destruct (registered x s') eqn:Er; [|reflexivity].
        destruct (Hr eq_refl) as [Hr' _]. congruence.
      * intros r m [Hin|Hin]; apply Ho in Hin as (r' & E'); [discriminate|].
        injection E' as _ ->. exact I.
    + injection H as <- <-. split; [exact Hx|]. intros r m [[]|[]].
  - pose proof (cleanupDevices_registered now (server w) x Hco) as Hr.
    pose proof (cleanupDevices_eq now (server w)) as Ho.
    destruct (cleanupDevices now (server w)) as [s' o]. injection H as <- <-.
    injection Ho as _ Ho. cbn [server fst] in *. split.
    + destruct (registered x s') eqn:Er; [|reflexivity]. rewrite Hr in Hx; congruence.
    + intros r m [Hin|Hin]; rewrite Ho in Hin;
        apply sweepGroups_out in Hin as (r' & x' & d' & gk' & E' & _); [discriminate|].
      injection E' as _ ->. exact I.
Qed.

Lemma run_keeps_out es :
  forall w x,
    sound w -> registered x (server w) = false -> existsb (connects x) es = false ->
    exists w' ds,
      run w es = Some (w', ds) /\ registered x (server w') = false /\
      forall r m, In (r, m) ds -> roster_without x m.
Proof.
  induction es as [|e es IH]; intros w x Hs Hx Hc.
  - exists w, []. split; [reflexivity|]. split; [exact Hx|]. intros r m [].
  - cbn [existsb] in Hc. apply orb_false_iff in Hc as [Hce Hc].
    destruct (react_total w e Hs) as (w1 & d1 & Hre).
    pose proof (react_sound _ _ _ _ Hs Hre) as Hs1.
    pose proof Hre as Hre'. apply react_step in Hre' as (out & Hst & ->).
    destruct (step_keeps_out _ _ _ _ _ Hs Hx Hce Hst) as [Hx1 Hout].
    destruct (IH w1 x Hs1 Hx1 Hc) as (w2 & d2 & Hrun & Hx2 & Hd2).
    exists w2, (deliveries (sockets w1) out ++ d2).
    split; [rewrite (run_cons _ _ _ _ _ Hre), Hrun; reflexivity|].
    split; [exact Hx2|].
    intros r m Hin. apply in_app_or in Hin as [Hin|Hin]; [|eauto].
    apply In_deliveries in Hin as [Hin|[Hin _]]; eauto.
Qed.

End Liveness.

(* ================================================================== *)
(** ** The classifier: group keys *)

(** C7.  Every address of the form [10.*] gets the tag [LAN-10], every
    [192.168.*] the tag [LAN-192.168], every [172.16.*] to [172.31.*] the
    tag [LAN-172]: one fixed tag per RFC1918 block, whatever follows the
    block prefix.  An address is private exactly when it has one of these
    three forms; any other address gets its first three dot-separated
    components.  In particular 192.168.1.5 and 192.168.50.9 share a key,
    10.0.0.1 and 10.255.255.254 share a key, and 8.8.8.8 and 8.8.4.4 do
    not. *)
Theorem classifier_blocks :
  (forall r, getNetworkGroup ("10." ++ r)%string = "LAN-10") /\
  (forall r, getNetworkGroup ("192.168." ++ r)%string = "LAN-192.168") /\
  (forall b r, In b octets_172 ->
               getNetworkGroup ("172." ++ b ++ "." ++ r)%string = "LAN-172") /\
  (forall ip, isPrivateIP ip = true <->
              (exists r, ip = ("10." ++ r)%string) \/
              (exists r, ip = ("192.168." ++ r)%string) \/
              (exists b r, In b octets_172 /\ ip = ("172." ++ b ++ "." ++ r)%string)) /\
  (forall ip, isPrivateIP ip = false ->
              getNetworkGroup ip = Js.join "." (Js.slice0 3 (Js.split "." ip))) /\
  getNetworkGroup "192.168.1.5" = getNetworkGroup "192.168.50.9" /\
  getNetworkGroup "10.0.0.1" = getNetworkGroup "10.255.255.254" /\
  getNetworkGroup "8.8.8.8" <> getNetworkGroup "8.8.4.4".
Proof.
  split; [exact getNetworkGroup_10|].
  split; [exact getNetworkGroup_192_168|].
  split; [exact getNetworkGroup_172|].
  split; [exact isPrivateIP_iff|].
  split; [exact getNetworkGroup_public|].
  split; [reflexivity|]. split; [reflexivity|]. discriminate.
Qed.

Lemma classifier_blocks_witness :
  getNetworkGroup "172.20.1.1" = "LAN-172" /\ getNetworkGroup "203.0.113.5" = "203.0.113".
Proof.
  destruct classifier_blocks as (_ & _ & H172 & _ & Hpub & _).
  split.
  - apply (H172 "20" "1.1"). unfold octets_172. simpl. tauto.
  - rewrite (Hpub "203.0.113.5"); reflexivity.
Defined.

(** C8.  [getNetworkGroup] is a function from strings to strings: it has a
    value on every input and equal inputs give equal keys.  The value is
    one of the three block tags when the address is private (the block of
    the three [return]s never falls through), and otherwise the join of
    the first three components of the input, which exists for every
    string, the empty one and those without dots included. *)
Theorem classifier_total (ip : string) :
  exists key,
    getNetworkGroup ip = key /\
    (forall ip', ip' = ip -> getNetworkGroup ip' = key) /\
    (isPrivateIP ip = true ->
       private_tag ip = Some key /\ In key ["LAN-10"; "LAN-192.168"; "LAN-172"]) /\
    (isPrivateIP ip = false ->
       private_tag ip = None /\ key = Js.join "." (Js.slice0 3 (Js.split "." ip))).
Proof.
  exists (getNetworkGroup ip). split; [reflexivity|].
  split; [now intros ip' ->|]. split.
  - intros Hp. unfold getNetworkGroup.
    destruct (private_tag_fires ip Hp) as [H|[H|H]]; rewrite H; simpl; tauto.
  - intros Hp. split; [now apply private_tag_public|now apply getNetworkGroup_public].
Qed.

Lemma classifier_total_witness :
  getNetworkGroup "" = "" /\ getNetworkGroup "not an address" = "not an address" /\
  getNetworkGroup "10.x" = "LAN-10".
Proof.
  split; [|split].
  - destruct (classifier_total "") as (key & <- & _ & _ & H).
    destruct (H eq_refl) as [_ ->]. reflexivity.
  - destruct (classifier_total "not an address") as (key & <- & _ & _ & H).
    destruct (H eq_refl) as [_ ->]. reflexivity.
  - destruct (classifier_total "10.x") as (key & <- & _ & H & _).
    destruct (H eq_refl) as [E _]. unfold getNetworkGroup. rewrite E. reflexivity.
Defined.



(* ================================================================== *)
(** ** Forwarding *)

Lemma step_relay w sid d :
  JsSet.has sid (sockets w) = true ->
  step w (Relay sid d) = Some (w, [RoomEmit (target d) (forward sid d)]).
Proof. intros H. cbn [step]. rewrite H. now destruct w. Qed.

Lemma react_relay w sid d :
  JsSet.has sid (sockets w) = true ->
  react w (Relay sid d) =
  Some (w, if JsSet.has (target d) (sockets w) then [(target d, forward sid d)] else []).
Proof.
  intros H. unfold react. rewrite (step_relay _ _ _ H). cbn.
  destruct (JsSet.has (target d) (sockets w)); reflexivity.
Qed.

(** C1, as the specification states it, fails: two connections register,
    neither sends a heartbeat, the sweep removes both records 40 seconds
    later, and the connections stay open.  A chat message from "a" to "b"
    is then delivered to "b", although "b" is no longer registered. *)
Lemma relay_reaches_unregistered_target :
  exists w ds,
    run boot [Connection "a" "8.8.8.8" 0; Connection "b" "8.8.8.8" 0; Tick 40000]
      = Some (w, ds) /\
    registered "b" (server w) = false /\
    react w (Relay "a" (SendMessage "b" "hi")) = Some (w, [("b", MessageMsg "a" "hi")]).
Proof. do 2 eexists. split; [reflexivity|]. split; reflexivity. Qed.

(** C1, amended.  A forwarding handler makes one [io.to(targetId).emit]
    call and never consults the registry: the message reaches exactly the
    open connection whose id is [targetId] (every registered id is one),
    carries the sender's id, the event name of the handler and every field
    of the data unchanged; when no open connection has that id nothing is
    delivered.  Nothing is ever sent back to the sender and the world is
    unchanged. *)
Theorem relay_delivery (w : World) (sid : string) (d : RelayData) :
  reachable w -> JsSet.has sid (sockets w) = true ->
  react w (Relay sid d) =
    Some (w, if JsSet.has (target d) (sockets w) then [(target d, forward sid d)] else []) /\
  (registered (target d) (server w) = true -> JsSet.has (target d) (sockets w) = true) /\
  event_name (forward sid d) = outbound_name d /\
  sender (forward sid d) = Some sid /\
  unforward (target d) (forward sid d) = Some d.
Proof.
  intros Hr Ho. split; [now apply react_relay|]. split.
  - apply (sound_open w (reachable_sound w Hr)).
  - destruct d; repeat split; reflexivity.
Qed.

Lemma relay_delivery_witness :
  exists w ds,
    run boot [Connection "a" "192.168.1.10" 0; Connection "b" "192.168.1.20" 1;
              Connection "c" "203.0.113.5" 2] = Some (w, ds) /\
    react w (Relay "a" (SendMessage "c" "hello")) = Some (w, [("c", MessageMsg "a" "hello")]) /\
    react w (Relay "a" (SendMessage "nobody" "hello")) = Some (w, []).
Proof.
  destruct (run boot [Connection "a" "192.168.1.10" 0; Connection "b" "192.168.1.20" 1;
                      Connection "c" "203.0.113.5" 2]) as [[w ds]|] eqn:E;
    [|vm_compute in E; discriminate].
  exists w, ds. split; [reflexivity|].
  assert (Hr : reachable w) by (eapply run_reachable; [apply reachable_boot|exact E]).
  vm_compute in E. injection E as <- <-.
  split.
  - apply (relay_delivery _ "a" (SendMessage "c" "hello") Hr). reflexivity.
  - apply (relay_delivery _ "a" (SendMessage "nobody" "hello") Hr). reflexivity.
Defined.

(* ================================================================== *)
(** ** Forwarding leaves the registry alone; removal of an absent id *)

Lemma react_relay_closed w sid d :
  JsSet.has sid (sockets w) = false -> react w (Relay sid d) = Some (w, []).
Proof. intros H. unfold react. cbn [step]. now rewrite H. Qed.

Lemma run_relays w es :
  Forall (fun e => is_relay e = true) es ->
  exists ds, run w es = Some (w, ds).
Proof.
  induction 1 as [|e es He _ IH]; [now exists []|].
  destruct e as [ | | |sid d| | ]; try discriminate.
  destruct IH as (ds & IH). cbn [run].
  destruct (JsSet.has sid (sockets w)) eqn:Eo.
  - rewrite (react_relay _ _ _ Eo), IH. eauto.
  - rewrite (react_relay_closed _ _ _ Eo), IH. eauto.
Qed.

Lemma tick_removes_expired w now x dx :
  sound w -> JsMap.get x (devices (server w)) = Some dx ->
  (now - lastSeen dx > 30000)%Z ->
  exists w' ds, run w [Tick now] = Some (w', ds) /\ registered x (server w') = false.
Proof.
  intros Hs Hget Hexp. cbn [run]. unfold react. cbn [step].
  pose proof (cleanupDevices_get now (server w) x (coherent_keys _ (sound_server w Hs))) as Hg.
  destruct (cleanupDevices now (server w)) as [s' o]. cbn [fst] in Hg.
  do 2 eexists. split; [reflexivity|]. cbn [server].
  unfold registered, JsMap.has. rewrite Hg, Hget.
  assert (He : expired now dx = true) by (unfold expired; apply Z.gtb_lt; lia).
  now rewrite He.
Qed.

(** C9.  None of the seven forwarding handlers changes [devices] or
    [ipGroups]: after any sequence of forwarded events, from any sockets,
    the world is the one before.  In particular [lastSeen] is not
    refreshed, so a record that is more than 30 seconds old when the next
    sweep runs is removed by it, however many messages its connection has
    forwarded in between. *)
Theorem relays_leave_registry (w : World) (es : list Event) (x : string)
        (dx : DeviceInfo) (now : Z) :
  sound w ->
  Forall (fun e => is_relay e = true) es ->
  JsMap.get x (devices (server w)) = Some dx ->
  (now - lastSeen dx > 30000)%Z ->
  (forall sid d s, fst (onRelay sid d s) = s) /\
  (exists ds, run w es = Some (w, ds)) /\
  (exists w' ds, run w (es ++ [Tick now]) = Some (w', ds) /\
                 registered x (server w') = false).
Proof.
  intros Hs Hrel Hget Hexp. split; [reflexivity|].
  destruct (run_relays w es Hrel) as (ds & Hrun). split; [eauto|].
  destruct (tick_removes_expired w now x dx Hs Hget Hexp) as (w' & ds' & Ht & Hreg).
  exists w', (ds ++ ds'). split; [|exact Hreg].
  now rewrite (run_app _ _ _ _ _ Hrun), Ht.
Qed.

Lemma relays_leave_registry_witness :
  exists w ds w' ds',
    run boot [Connection "a" "8.8.8.8" 0; Connection "b" "8.8.8.8" 5] = Some (w, ds) /\
    run w [Relay "a" (SendMessage "b" "1"); Relay "a" (P2pFailed "b" "t");
           Relay "a" (SendMessage "b" "2"); Tick 30001] = Some (w', ds') /\
    registered "a" (server w') = false /\ registered "b" (server w') = true.
Proof.
  destruct (run boot [Connection "a" "8.8.8.8" 0; Connection "b" "8.8.8.8" 5])
    as [[w ds]|] eqn:E; [|vm_compute in E; discriminate].
  assert (Hs : sound w) by (eapply run_sound; [apply boot_sound|exact E]).
  vm_compute in E. injection E as <- <-.
  destruct (relays_leave_registry _
              [Relay "a" (SendMessage "b" "1"); Relay "a" (P2pFailed "b" "t");
               Relay "a" (SendMessage "b" "2")]
              "a" {| id := "a"; lastSeen := 0; type := None; icon := None; name := None;
                     groupKey := Some "8.8.8" |} 30001 Hs)
    as (_ & _ & w' & ds' & Hrun & Hreg).
  - repeat constructor.
  - reflexivity.
  - cbn. lia.
  - do 2 eexists. exists w', ds'. split; [reflexivity|]. split; [exact Hrun|].
    split; [exact Hreg|]. cbn [app] in Hrun. vm_compute in Hrun.
    injection Hrun as <- _. reflexivity.
Defined.

(** C6.  The [disconnect] handler of a socket whose id is not registered
    sends nothing and leaves both maps as they are; it cannot raise (every
    lookup in it is guarded by [?.] or [if]).  A first disconnect, and a
    sweep that finds the record expired, both leave the id unregistered, so
    the disconnect that follows either of them is such a no-op.  *)
Theorem disconnect_unregistered (w : World) (sid : string) :
  registered sid (server w) = false ->
  onDisconnect sid (server w) = (server w, []) /\
  (exists w', react w (Disconnect sid) = Some (w', []) /\ server w' = server w) /\
  (forall s, registered sid (fst (onDisconnect sid s)) = false) /\
  (forall s now d,
     coherent s -> JsMap.get sid (devices s) = Some d -> expired now d = true ->
     registered sid (fst (cleanupDevices now s)) = false).
Proof.
  intros Hreg. apply has_false in Hreg.
  pose proof (onDisconnect_absent sid (server w) Hreg) as Hd.
  split; [exact Hd|]. split; [|split].
  - unfold react. cbn [step]. destruct (JsSet.has sid (sockets w)).
    + rewrite Hd. eexists. split; reflexivity.
    + eexists. split; reflexivity.
  - intros s. apply has_false. rewrite onDisconnect_get. now rewrite String.eqb_refl.
  - intros s now d Hc Hget He. apply has_false.
    rewrite cleanupDevices_get by apply Hc. now rewrite Hget, He.
Qed.

Lemma disconnect_unregistered_witness :
  exists w ds,
    run boot [Connection "a" "8.8.8.8" 0; Connection "b" "8.8.8.8" 30000; Tick 40000]
      = Some (w, ds) /\
    registered "a" (server w) = false /\
    exists w', react w (Disconnect "a") = Some (w', []) /\ server w' = server w.
Proof.
  do 2 eexists. split; [reflexivity|]. split; [reflexivity|].
  apply disconnect_unregistered. reflexivity.
Defined.

(* ================================================================== *)
(** ** A connection under an id that still has a record *)

(** The branch of lines 90-92 deletes a record already stored under the
    socket id from [devices] only; the id stays in the set of its old
    group.  The transport never takes the handler there (a connection
    gets an id no open connection has, see [deliverable]); on an input
    that did, with the new address in another group, the id would end up
    in two sets.  Here "x" connects from 8.8.8.8 and again from
    9.9.9.9. *)
Lemma stale_branch_keeps_old_membership :
  exists w ds,
    run boot [Connection "x" "8.8.8.8" 0; Connection "x" "9.9.9.9" 1] = Some (w, ds) /\
    group_of "x" (server w) = Some "9.9.9" /\
    In "x" (members "8.8.8" (ipGroups (server w))) /\
    In "x" (members "9.9.9" (ipGroups (server w))) /\
    ~ index_matches_registry (server w) /\
    ~ consistent w.
Proof.
  destruct (run boot [Connection "x" "8.8.8.8" 0; Connection "x" "9.9.9.9" 1])
    as [[w ds]|] eqn:E; [|vm_compute in E; discriminate].
  exists w, ds. split; [reflexivity|].
  vm_compute in E. injection E as <- <-.
  assert (Hno : ~ index_matches_registry
                    (server {| server := {| devices :=
                                 [("x", {| id := "x"; lastSeen := 1; type := None;
                                           icon := None; name := None;
                                           groupKey := Some "9.9.9" |})];
                               ipGroups := [("8.8.8", ["x"]); ("9.9.9", ["x"])] |};
                               sockets := ["x"] |})).
  { intros H. destruct (proj1 (H "8.8.8" "x")) as (d & Hd & Hg); [cbn; tauto|].
    cbn in Hd. injection Hd as <-. discriminate. }
  split; [reflexivity|]. split; [cbn; tauto|]. split; [cbn; tauto|].
  split; [exact Hno|].
  intros [Ha _]. apply Hno. apply Ha.
Qed.

(** Without such a connection (and with peer addresses that are not the
    empty string) registry and index agree after every turn. *)
Lemma fresh_traces_consistent es w ds :
  fresh_trace boot es = true -> run boot es = Some (w, ds) -> consistent w.
Proof. apply run_consistent, boot_consistent. Qed.

(** On the same input a device "y" that registers from 8.8.8.8 would
    find the record of "x" (group 9.9.9) in its roster, and "x" would be
    told that "y" joined. *)
Lemma stale_branch_roster :
  exists w ds w' rec,
    run boot [Connection "x" "8.8.8.8" 0; Connection "x" "9.9.9.9" 1] = Some (w, ds) /\
    react w (Connection "y" "8.8.8.8" 2) =
      Some (w', [("y", DeviceInfoMsg "y" [rec]); ("x", DeviceJoined "y")]) /\
    id rec = "x" /\
    group_of "x" (server w') = Some "9.9.9" /\ groupKey rec = Some "9.9.9" /\
    group_of "y" (server w') = Some "8.8.8".
Proof. do 4 eexists. repeat split; reflexivity. Qed.

(* ================================================================== *)
(** ** Profile updates *)

Lemma sent_update_map r sid ty ic nm (m : list string) :
  sent r (is_update sid ty ic nm)
       (map (fun i => RoomEmit i (DeviceInfoUpdate sid ty ic nm)) m) =
  List.length (filter (fun i => String.eqb i r) m).
Proof.
  unfold sent. induction m as [|a m IH]; [reflexivity|].
  cbn [map filter is_update]. rewrite !String.eqb_refl, andb_true_r.
  destruct (String.eqb a r); cbn [List.length]; now rewrite IH.
Qed.

(** C4, as the specification states it, fails: the notice also goes to the
    connection that sent the update.  A single registered device changes
    its profile and receives its own [device-info-update]. *)
Lemma profile_update_reaches_sender :
  exists w ds w',
    run boot [Connection "a" "8.8.8.8" 0] = Some (w, ds) /\
    react w (DeviceInfoEv "a" "phone" "mobile" "Alice") =
      Some (w', [("a", DeviceInfoUpdate "a" "phone" "mobile" "Alice")]).
Proof. do 3 eexists. split; reflexivity. Qed.

(** C4, amended.  A [device-info] event from a registered id sets [type],
    [icon] and [name] of its record and leaves [id], [lastSeen] and
    [groupKey], every other record, the group index and the set of open
    connections as they were.  One [device-info-update] notice is delivered
    to every registered device of the same group, the sender included, and
    nothing else is delivered.  From an id that is not registered the event
    changes nothing and delivers nothing. *)
Theorem profile_update (w : World) (sid ty ic nm : string) :
  sound w -> keyed (server w) ->
  match JsMap.get sid (devices (server w)) with
  | Some d =>
      exists w' ds,
        react w (DeviceInfoEv sid ty ic nm) = Some (w', ds) /\
        JsMap.get sid (devices (server w')) =
          Some {| id := id d; lastSeen := lastSeen d; type := Some ty; icon := Some ic;
                  name := Some nm; groupKey := groupKey d |} /\
        (forall y, y <> sid ->
                   JsMap.get y (devices (server w')) = JsMap.get y (devices (server w))) /\
        ipGroups (server w') = ipGroups (server w) /\
        sockets w' = sockets w /\
        (forall r dr, JsMap.get r (devices (server w)) = Some dr ->
                      groupKey dr = groupKey d ->
                      got r (is_update sid ty ic nm) ds = 1) /\
        got sid (is_update sid ty ic nm) ds = 1 /\
        (forall r m, In (r, m) ds ->
                     m = DeviceInfoUpdate sid ty ic nm /\
                     exists gk, groupKey d = Some gk /\
                                In r (members gk (ipGroups (server w))))
  | None => react w (DeviceInfoEv sid ty ic nm) = Some (w, [])
  end.
Proof.
  intros Hs Hkey. pose proof (sound_server w Hs) as Hc.
  pose proof (onDeviceInfo_inv sid ty ic nm (server w) Hc) as Hi.
  destruct (JsMap.get sid (devices (server w))) as [d|] eqn:Hget.
  - assert (Ho : JsSet.has sid (sockets w) = true).
    { apply (sound_open w Hs). unfold registered, JsMap.has. now rewrite Hget. }
    destruct (coherent_record _ Hc sid d Hget) as (_ & gk & Hgk & Hin).
    assert (Ht : truthy (groupKey d) = Some gk).
    { apply truthy_Some. split; [exact Hgk|]. eapply Hkey; eauto. }
    rewrite Ht in Hi.
    unfold react. cbn [step]. rewrite Ho, Hi. do 2 eexists. split; [reflexivity|].
    cbn [server sockets devices ipGroups].
    assert (Hcount : forall r dr, JsMap.get r (devices (server w)) = Some dr ->
                                  groupKey dr = groupKey d ->
               got r (is_update sid ty ic nm)
                   (deliveries (sockets w)
                      (map (fun i => RoomEmit i (DeviceInfoUpdate sid ty ic nm))
                           (members gk (ipGroups (server w))))) = 1).
    { intros r dr Hr Hg.
      destruct (coherent_record _ Hc r dr Hr) as (_ & gk' & Hgk' & Hin').
      assert (gk' = gk) by congruence. subst gk'.
      rewrite got_deliveries_open, sent_update_map.
      - apply count_NoDup; [now apply members_NoDup|exact Hin'].
      - apply (sound_open w Hs). unfold registered, JsMap.has. now rewrite Hr. }
    split; [apply get_set_eq|]. split; [intros y Hy; now apply get_set_neq|].
    split; [reflexivity|]. split; [reflexivity|]. split; [exact Hcount|].
    split; [now apply (Hcount sid d)|].
    intros r m Hin'. apply In_deliveries in Hin' as [Hin'|[Hin' _]];
      apply in_map_iff in Hin' as (i & E & Hi'); [discriminate|].
    injection E as -> <-. split; [reflexivity|]. eauto.
  - unfold react. cbn [step]. destruct (JsSet.has sid (sockets w)); [|reflexivity].
    rewrite Hi. cbn. now destruct w.
Qed.

Lemma profile_update_witness :
  exists w ds w' ds',
    run boot [Connection "a" "192.168.1.10" 0; Connection "b" "192.168.1.20" 1;
              Connection "c" "203.0.113.5" 2] = Some (w, ds) /\
    react w (DeviceInfoEv "b" "laptop" "desktop" "Bob") = Some (w', ds') /\
    got "a" (is_update "b" "laptop" "desktop" "Bob") ds' = 1 /\
    got "b" (is_update "b" "laptop" "desktop" "Bob") ds' = 1 /\
    react w (DeviceInfoEv "nobody" "laptop" "desktop" "Bob") = Some (w, []).
Proof.
  destruct (run boot [Connection "a" "192.168.1.10" 0; Connection "b" "192.168.1.20" 1;
                      Connection "c" "203.0.113.5" 2]) as [[w ds]|] eqn:E;
    [|vm_compute in E; discriminate].
  assert (Hc : consistent w) by (eapply fresh_traces_consistent; [|exact E]; reflexivity).
  pose proof (consistent_sound w Hc) as Hs.
  pose proof (agree_keyed _ (consistent_server w Hc)) as Hk.
  vm_compute in E. injection E as <- <-.
  pose proof (profile_update _ "b" "laptop" "desktop" "Bob" Hs Hk) as Hb.
  pose proof (profile_update _ "nobody" "laptop" "desktop" "Bob" Hs Hk) as Hn.
  cbn [server devices JsMap.get String.eqb Ascii.eqb Bool.eqb] in Hb, Hn.
  destruct Hb as (w' & ds' & Hre & _ & _ & _ & _ & Hall & Hself & _).
  do 2 eexists. exists w', ds'. split; [reflexivity|]. split; [exact Hre|].
  split; [|split; [exact Hself|exact Hn]].
  eapply (Hall "a"); reflexivity.
Defined.

(* ================================================================== *)
(** ** Eviction by the sweep *)

Lemma step_tick w now :
  step w (Tick now) =
  Some ({| server := fst (cleanupDevices now (server w)); sockets := sockets w |},
        snd (cleanupDevices now (server w))).
Proof. cbn [step]. now destruct (cleanupDevices now (server w)). Qed.

Lemma cleanupDevices_out now s :
  snd (cleanupDevices now s) = snd (sweepGroups now (devices s) (ipGroups s)).
Proof. now rewrite cleanupDevices_eq. Qed.

Lemma tick_consistent w now :
  consistent w ->
  consistent {| server := fst (cleanupDevices now (server w)); sockets := sockets w |}.
Proof.
  intros Hc. eapply step_consistent; [exact Hc| |apply step_tick]. reflexivity.
Qed.

(** Everything a sweep delivers is a [device-left] notice about an expired
    record, delivered to a registered device of the same group. *)
Lemma tick_notices w now r m :
  consistent w ->
  In (r, m) (deliveries (sockets w) (snd (cleanupDevices now (server w)))) ->
  exists x d, m = DeviceLeft x /\ JsMap.get x (devices (server w)) = Some d /\
              expired now d = true /\
              groupKey d = group_of r (server w) /\ registered r (server w) = true.
Proof.
  intros Hc Hin.
  pose proof (consistent_server w Hc) as [Hco Hkey Hidx Hne].
  unfold index_matches_registry in Hidx.
  apply In_deliveries in Hin.
  assert (Hroom : In (RoomEmit r m) (snd (cleanupDevices now (server w)))).
  { destruct Hin as [Hin|[Hin _]]; [|exact Hin].
    rewrite cleanupDevices_out in Hin.
    apply sweepGroups_out in Hin as (? & ? & ? & ? & E & _). discriminate. }
  rewrite cleanupDevices_out in Hroom.
  apply sweepGroups_out in Hroom as (r0 & x & d & gk & E & Hl & He & Ht & Hm & _).
  injection E as <- ->. apply truthy_Some in Ht as [Hgk _].
  apply Hidx in Hm as (dr & Hdr & Hgr).
  exists x, d. split; [reflexivity|].
  split; [apply In_get; [apply Hco|exact Hl]|].
  split; [exact He|]. unfold group_of, registered, JsMap.has. rewrite Hdr.
  split; [congruence|reflexivity].
Qed.

(** C3.  In a world where registry and index agree, a run of the sweep at
    time [now]
    - removes from [devices] exactly the records with
      [now - lastSeen > 30000] and keeps the others unchanged;
    - removes the same ids, and no others, from the sets of the group
      index (registry and index agree again afterwards);
    - delivers, for each removed device, exactly one [device-left] notice
      to every member that remains in its group, and delivers nothing that
      is not such a notice;
    - leaves the removed id out of every roster sent later, as long as no
      new connection arrives under that id.
    Over any sequence of turns, a registered connection that is not closed
    and whose [lastSeen] was refreshed at most 20 seconds before each run
    of the sweep is still registered at the end. *)
Theorem sweep_evicts_stale (w : World) (now : Z) :
  consistent w ->
  exists w' ds,
    react w (Tick now) = Some (w', ds) /\
    consistent w' /\
    sockets w' = sockets w /\
    (forall sid,
       JsMap.get sid (devices (server w')) =
       match JsMap.get sid (devices (server w)) with
       | Some d => if (now - lastSeen d >? 30000)%Z then None else Some d
       | None => None
       end) /\
    (forall gk sid,
       In sid (members gk (ipGroups (server w'))) <->
       In sid (members gk (ipGroups (server w))) /\ registered sid (server w') = true) /\
    (forall x d gk r,
       JsMap.get x (devices (server w)) = Some d -> (now - lastSeen d > 30000)%Z ->
       groupKey d = Some gk -> In r (members gk (ipGroups (server w'))) ->
       got r (is_left x) ds = 1) /\
    (forall r m,
       In (r, m) ds ->
       exists x d, m = DeviceLeft x /\ JsMap.get x (devices (server w)) = Some d /\
                   (now - lastSeen d > 30000)%Z /\
                   groupKey d = group_of r (server w) /\ registered r (server w) = true) /\
    (forall x d es,
       JsMap.get x (devices (server w)) = Some d -> (now - lastSeen d > 30000)%Z ->
       existsb (connects x) es = false ->
       exists w'' ds', run w' es = Some (w'', ds') /\
                       registered x (server w'') = false /\
                       forall r m, In (r, m) ds' -> roster_without x m) /\
    (forall x d es,
       JsMap.get x (devices (server w)) = Some d ->
       kept_alive x (lastSeen d) es = true ->
       exists w'' ds', run w es = Some (w'', ds') /\ registered x (server w'') = true).
Proof.
  intros Hc.
  pose proof (consistent_sound w Hc) as Hs.
  pose proof (consistent_server w Hc) as [Hco Hkey Hidx Hne].
  pose proof (coherent_keys _ Hco) as Hnd.
  pose proof (tick_consistent w now Hc) as Hc'.
  pose proof (consistent_server _ Hc') as [Hco' Hkey' Hidx' Hne'].
  cbn [server] in Hco', Hkey', Hidx', Hne'.
  unfold index_matches_registry in Hidx, Hidx'.
  set (s' := fst (cleanupDevices now (server w))) in *.
  assert (Hget : forall sid,
             JsMap.get sid (devices s') =
             match JsMap.get sid (devices (server w)) with
             | Some d => if expired now d then None else Some d
             | None => None
             end).
  { intros sid. unfold s'. now apply cleanupDevices_get. }
  assert (Hexp : forall d, (now - lastSeen d > 30000)%Z -> expired now d = true).
  { intros d H. unfold expired. apply Z.gtb_lt. lia. }
  assert (Hexp' : forall d, expired now d = true -> (now - lastSeen d > 30000)%Z).
  { intros d H. unfold expired in H. apply Z.gtb_lt in H. lia. }
  assert (Hindex : forall gk sid,
             In sid (members gk (ipGroups s')) <->
             In sid (members gk (ipGroups (server w))) /\ registered sid s' = true).
  { intros gk sid. rewrite Hidx', Hidx. unfold registered, JsMap.has. rewrite Hget.
    destruct (JsMap.get sid (devices (server w))) as [d|].
    - destruct (expired now d).
      + split; [intros (d0 & E & _); discriminate|intros [_ E]; discriminate].
      + split; [intros H; split; [exact H|reflexivity]|tauto].
    - split; [intros (d0 & E & _); discriminate|intros [_ E]; discriminate]. }
  unfold react. rewrite step_tick. fold s'. cbn [sockets].
  do 2 eexists. split; [reflexivity|]. cbn [server sockets].
  split; [exact Hc'|]. split; [reflexivity|]. split; [exact Hget|].
  split; [exact Hindex|]. split; [|split; [|split]].
  - intros x d gk r Hx Hold Hgk Hr.
    apply Hindex in Hr as [Hr Hreg].
    assert (Hreg0 : registered r (server w) = true).
    { apply Hidx in Hr as (dr & Hdr & _). unfold registered, JsMap.has. now rewrite Hdr. }
    rewrite got_deliveries_open by now apply (sound_open w Hs).
    rewrite cleanupDevices_out.
    apply (sweepGroups_once now _ _ x d gk r); auto.
    + apply (coherent_sets _ Hco).
    + now apply get_In.
    + apply truthy_Some. split; [exact Hgk|]. eapply Hkey; eauto.
    + intros d' Hin. apply (In_get _ _ _ Hnd) in Hin.
      unfold registered, JsMap.has in Hreg. rewrite Hget, Hin in Hreg.
      now destruct (expired now d').
  - intros r m Hin. destruct (tick_notices w now r m Hc Hin) as (x & d & E & Hx & He & Hg).
    exists x, d. split; [exact E|]. split; [exact Hx|]. split; [now apply Hexp'|exact Hg].
  - intros x d es Hx Hold Hno.
    apply run_keeps_out; [now apply consistent_sound| |exact Hno].
    cbn [server]. unfold registered, JsMap.has. rewrite Hget, Hx.
    now rewrite (Hexp d Hold).
  - intros x d es Hx Hk. now apply (kept_alive_registered es w x d).
Qed.

Lemma sweep_evicts_stale_witness :
  exists w ds w' ds',
    run boot [Connection "a" "192.168.1.10" 0; Connection "b" "192.168.1.20" 1000;
              Connection "c" "192.168.7.7" 2000; Heartbeat "b" 20000] = Some (w, ds) /\
    react w (Tick 31000) = Some (w', ds') /\
    registered "a" (server w') = false /\
    got "b" (is_left "a") ds' = 1 /\ got "c" (is_left "a") ds' = 1.
Proof.
  destruct (run boot [Connection "a" "192.168.1.10" 0; Connection "b" "192.168.1.20" 1000;
                      Connection "c" "192.168.7.7" 2000; Heartbeat "b" 20000])
    as [[w ds]|] eqn:E; [|vm_compute in E; discriminate].
  assert (Hc : consistent w) by (eapply fresh_traces_consistent; [|exact E]; reflexivity).
  vm_compute in E. injection E as <- <-.
  destruct (sweep_evicts_stale _ 31000 Hc)
    as (w' & ds' & Hre & _ & _ & Hget & Hidx & Hone & _).
  do 2 eexists. exists w', ds'. split; [reflexivity|]. split; [exact Hre|].
  assert (Hreg : forall sid, registered sid (server w') =
                             match JsMap.get sid (devices (server w')) with
                             | Some _ => true | None => false end) by reflexivity.
  split; [rewrite Hreg, Hget; reflexivity|].
  split.
  - eapply (Hone "a" _ "LAN-192.168" "b"); [reflexivity|cbn; lia|reflexivity|].
    apply Hidx. split; [cbn; tauto|]. rewrite Hreg, Hget. reflexivity.
  - eapply (Hone "a" _ "LAN-192.168" "c"); [reflexivity|cbn; lia|reflexivity|].
    apply Hidx. split; [cbn; tauto|]. rewrite Hreg, Hget. reflexivity.
Defined.

(* ================================================================== *)
(** ** Group isolation while ids are not reused *)

(** As long as registry and index agree, a roster lists only records of
    the group of the connection it is sent to, and a join or leave notice
    about a device only reaches registered devices of its group. *)
Lemma isolation_when_consistent w e w' ds :
  consistent w -> fresh w e = true -> react w e = Some (w', ds) ->
  forall r m, In (r, m) ds ->
    match m with
    | DeviceInfoMsg self peers =>
        r = self /\
        forall p, In p peers ->
                  groupKey p = group_of r (server w') /\
                  group_of (id p) (server w') = group_of r (server w')
    | DeviceJoined x =>
        group_of x (server w') = group_of r (server w') /\ registered r (server w') = true
    | DeviceLeft x =>
        group_of x (server w) = group_of r (server w) /\ registered r (server w) = true
    | _ => True
    end.
Proof.
  intros Hc Hf Hre r m Hin.
  pose proof (consistent_sound w Hc) as Hs.
  pose proof (consistent_server w Hc) as [Hco Hkey Hidx Hne].
  unfold index_matches_registry in Hidx.
  apply react_step in Hre as (out & Hst & ->).
  destruct e as [sid ip now|sid now|sid ty ic nm|sid rd|sid|now]; cbn [step fresh] in *.
  - apply andb_true_iff in Hf as [Hreg _]. apply negb_true_iff, has_false in Hreg.
    destruct (onConnection_inv sid ip now (server w)) as (g2 & E & _).
    rewrite E in Hst. injection Hst as <- <-. cbn [server sockets] in *.
    rewrite delete_absent in Hin by exact Hreg.
    assert (Hother : forall i,
               In i (filter (fun i => negb (String.eqb i sid))
                       (JsSet.add sid (members (getNetworkGroup ip) (ipGroups (server w))))) ->
               i <> sid /\
               exists d, JsMap.get i (devices (server w)) = Some d /\
                         groupKey d = Some (getNetworkGroup ip)).
    { intros i Hi. apply filter_In in Hi as [Hi Hne'].
      apply negb_true_iff, String.eqb_neq in Hne'. split; [exact Hne'|].
      apply In_set_add in Hi as [Hi|Hi]; [contradiction|]. now apply Hidx. }
    assert (Hg : forall i, group_of i
                   {| devices := JsMap.set sid
                        {| id := sid; lastSeen := now; type := None; icon := None;
                           name := None; groupKey := Some (getNetworkGroup ip) |}
                        (JsMap.delete sid (devices (server w)));
                      ipGroups := g2 |} =
                 if String.eqb i sid then Some (getNetworkGroup ip)
                 else group_of i (server w)).
    { intros i. unfold group_of. cbn [devices].
      destruct (String.eqb_spec i sid) as [->|Hi].
      - now rewrite get_set_eq.
      - now rewrite get_set_neq, get_delete_neq. }
    apply In_deliveries in Hin as [Hin|[Hin _]].
    + destruct Hin as [E'|Hin]; [|apply in_map_iff in Hin as (i & E' & _); discriminate].
      injection E' as <- <-. split; [reflexivity|].
      intros p Hp. apply in_flat_map in Hp as (i & Hi & Hp).
      destruct (Hother i Hi) as (Hine & d & Hd & Hgk).
      rewrite Hd in Hp. destruct Hp as [<-|[]].
      destruct (coherent_record _ Hco i d Hd) as [-> _].
      rewrite !Hg, String.eqb_refl.
      apply String.eqb_neq in Hine. rewrite Hine.
      unfold group_of. rewrite Hd. auto.
    + destruct Hin as [E'|Hin]; [discriminate|].
      apply in_map_iff in Hin as (i & E' & Hi). injection E' as -> <-.
      destruct (Hother r Hi) as (Hine & d & Hd & Hgk).
      rewrite !Hg, String.eqb_refl.
      split.
      * apply String.eqb_neq in Hine. rewrite Hine. unfold group_of. now rewrite Hd.
      * unfold registered, JsMap.has. cbn [devices].
        now rewrite get_set_neq, get_delete_neq, Hd.
  - destruct (JsSet.has sid (sockets w)).
    + pose proof (onHeartbeat_out sid now (server w)) as Ho.
      destruct (onHeartbeat sid now (server w)) as [s' o]. injection Hst as <- <-.
      cbn [snd] in Ho. subst o. destruct Hin.
    + injection Hst as <- <-. destruct Hin.
  - destruct (JsSet.has sid (sockets w)); [|injection Hst as <- <-; destruct Hin].
    pose proof (onDeviceInfo_inv sid ty ic nm (server w) Hco) as Hi.
    destruct (JsMap.get sid (devices (server w))) as [dv|]; rewrite Hi in Hst;
      injection Hst as <- <-; [|destruct Hin].
    destruct (truthy (groupKey dv)); [|destruct Hin].
    apply In_deliveries in Hin as [Hin|[Hin _]];
      apply in_map_iff in Hin as (i & E' & _); [discriminate|].
    now injection E' as <- <-.
  - destruct (JsSet.has sid (sockets w)); injection Hst as <- <-; [|destruct Hin].
    apply In_deliveries in Hin as [[E'|[]]|[[E'|[]] _]]; [discriminate|].
    injection E' as <- <-. now destruct rd.
  - destruct (JsSet.has sid (sockets w)); [|injection Hst as <- <-; destruct Hin].
    destruct (JsMap.get sid (devices (server w))) as [dv|] eqn:Ed.
    + rewrite (onDisconnect_evict _ _ _ Ed) in Hst.
      pose proof (evict_out sid dv (server w)) as Ho.
      destruct (evict sid dv (server w)) as [s' o]. injection Hst as <- <-.
      cbn [snd sockets] in *. subst o.
      destruct (truthy (groupKey dv)) as [gk|] eqn:Et; [|destruct Hin].
      apply truthy_Some in Et as [Hgk _].
      apply In_deliveries in Hin as [Hin|[Hin _]];
        apply in_map_iff in Hin as (i & E' & Hi'); [discriminate|].
      injection E' as -> <-. apply In_set_delete in Hi' as [Hi' _].
      apply Hidx in Hi' as (dr & Hdr & Hgr).
      unfold group_of, registered, JsMap.has. rewrite Ed, Hdr.
      split; [congruence|reflexivity].
    + rewrite (onDisconnect_absent _ _ Ed) in Hst. injection Hst as <- <-. destruct Hin.
  - pose proof (step_tick w now) as Ht. cbn [step] in Ht. rewrite Ht in Hst.
    injection Hst as <- <-. cbn [sockets] in Hin.
    destruct (tick_notices w now r m Hc Hin) as (x & d & -> & Hx & _ & Hg & Hreg).
    unfold group_of at 1. rewrite Hx. auto.
Qed.
(* ================================================================== *)
(** ** What the transport delivers *)

(** An open connection's id is the only kind a record can be stored
    under, so a connection whose id no open connection has finds no
    record of its own. *)
Lemma deliverable_fresh w e : sound w -> deliverable w e = true -> fresh w e = true.
Proof.
  intros Hs. destruct e as [sid ip now| | | | |]; cbn [deliverable fresh]; auto.
  intros H. apply andb_true_iff in H as [Ho Hip]. rewrite Hip, andb_true_r.
  apply negb_true_iff. destruct (registered sid (server w)) eqn:R; [|reflexivity].
  apply (sound_open w Hs) in R. rewrite R in Ho. discriminate.
Qed.

Lemma deliverable_fresh_trace es :
  forall w, sound w -> deliverable_trace w es = true -> fresh_trace w es = true.
Proof.
  induction es as [|e es IH]; intros w Hs H; [reflexivity|].
  cbn [deliverable_trace fresh_trace] in *. apply andb_true_iff in H as [He H].
  rewrite (deliverable_fresh w e Hs He). cbn [andb].
  destruct (step w e) as [[w1 out]|] eqn:E; [|discriminate].
  apply IH; [|exact H]. eapply step_sound; eauto.
Qed.

Lemma deliverable_consistent es w ds :
  deliverable_trace boot es = true -> run boot es = Some (w, ds) -> consistent w.
Proof.
  intros Hd. apply run_consistent; [apply boot_consistent|].
  apply deliverable_fresh_trace; [apply boot_sound|exact Hd].
Qed.



(** C5.  In every run the transport delivers, for two ids [a] and [b]
    whose records name different groups: the roster sent to [b] when it
    registers holds no record of [a], no [device-joined] about [a] is
    delivered to [b], and no [device-left] about [a] is delivered to
    [b].  The groups are read after the event for a roster and a join
    (the newcomer has its record then) and before it for a leave (the
    record of the device that left is gone afterwards). *)
Theorem group_isolation (es : list Event) (w : World) (ds : list (string * OutMsg))
        (e : Event) (w' : World) (ds' : list (string * OutMsg)) (a b : string) :
  deliverable_trace boot es = true -> run boot es = Some (w, ds) ->
  deliverable w e = true -> react w e = Some (w', ds') ->
  (group_of a (server w') <> group_of b (server w') ->
     (forall self peers, In (b, DeviceInfoMsg self peers) ds' ->
                         forall p, In p peers -> id p <> a) /\
     ~ In (b, DeviceJoined a) ds') /\
  (group_of a (server w) <> group_of b (server w) -> ~ In (b, DeviceLeft a) ds').
Proof.
  intros Hd Hrun He Hre.
  pose proof (deliverable_consistent es w ds Hd Hrun) as Hc.
  pose proof (deliverable_fresh w e (consistent_sound w Hc) He) as Hf.
  pose proof (isolation_when_consistent w e w' ds' Hc Hf Hre) as Hiso.
  split; [intros Hne; split|intros Hne].
  - intros self peers Hin p Hp Heq.
    destruct (Hiso b _ Hin) as [_ Hpeers].
    destruct (Hpeers p Hp) as [_ Hg]. rewrite Heq in Hg. contradiction.
  - intros Hin. destruct (Hiso b _ Hin) as [Hg _]. contradiction.
  - intros Hin. destruct (Hiso b _ Hin) as [Hg _]. contradiction.
Qed.

Lemma group_isolation_witness :
  exists w ds w' ds',
    run boot [Connection "a" "192.168.1.10" 0; Connection "c" "203.0.113.5" 1;
              Connection "b" "192.168.1.20" 2] = Some (w, ds) /\
    react w (Disconnect "a") = Some (w', ds') /\
    group_of "a" (server w) = Some "LAN-192.168" /\
    group_of "c" (server w) = Some "203.0.113" /\
    ~ In ("c", DeviceLeft "a") ds' /\ In ("b", DeviceLeft "a") ds'.
Proof.
  destruct (run boot [Connection "a" "192.168.1.10" 0; Connection "c" "203.0.113.5" 1;
                      Connection "b" "192.168.1.20" 2])
    as [[w ds]|] eqn:E; [|vm_compute in E; discriminate].
  destruct (react w (Disconnect "a")) as [[w' ds']|] eqn:E';
    [|vm_compute in E; injection E as <- <-; vm_compute in E'; discriminate].
  assert (Hd : deliverable_trace boot
                 [Connection "a" "192.168.1.10" 0; Connection "c" "203.0.113.5" 1;
                  Connection "b" "192.168.1.20" 2] = true) by reflexivity.
  pose proof (group_isolation _ w ds (Disconnect "a") w' ds' "a" "c" Hd E
                ltac:(reflexivity) E') as [_ Hleft].
  exists w, ds, w', ds'. split; [reflexivity|]. split; [exact E'|].
  vm_compute in E. injection E as <- <-. vm_compute in E'. injection E' as <- <-.
  split; [reflexivity|]. split; [reflexivity|].
  split; [apply Hleft; discriminate|]. cbn. tauto.
Defined.

(* ================================================================== *)
(** * Further properties *)

(** ** The peer address *)

Section Trim.

Variable table : list (list N).
Hypothesis strip_blank : forall b r, blank b = true -> strip_one table (b :: r) = Some r.
Hypothesis strip_plain : forall c r, plain c = true -> strip_one table (c :: r) = None.
Hypothesis strip_nil : strip_one table [] = None.

Lemma strip_leading_blanks pad rest fuel :
  forallb blank pad = true -> List.length pad <= fuel ->
  match rest with c :: _ => plain c = true | [] => True end ->
  strip_leading table fuel (pad ++ rest) = rest.
Proof.
  revert fuel. induction pad as [|b pad IH]; intros fuel Hb Hf Hrest.
  - cbn [app]. destruct fuel as [|fuel]; [reflexivity|]. cbn [strip_leading].
    destruct rest as [|c r]; [now rewrite strip_nil|]. now rewrite strip_plain.
  - cbn [forallb] in Hb. apply andb_true_iff in Hb as [Hb Hpad].
    destruct fuel as [|fuel]; [cbn in Hf; lia|].
    cbn [app strip_leading]. rewrite strip_blank by exact Hb.
    apply IH; [exact Hpad|cbn in Hf; lia|exact Hrest].
Qed.

End Trim.

Lemma whitespace_blank b r : blank b = true -> strip_one whitespace (b :: r) = Some r.
Proof.
  destruct b as [[] [] [] [] [] [] [] []]; intros H; try discriminate H; reflexivity.
Qed.

Lemma whitespace_plain c r : plain c = true -> strip_one whitespace (c :: r) = None.
Proof.
  destruct c as [[] [] [] [] [] [] [] []]; intros H; try discriminate H; reflexivity.
Qed.

Lemma whitespace_rev_blank b r :
  blank b = true -> strip_one (map (@rev N) whitespace) (b :: r) = Some r.
Proof.
  destruct b as [[] [] [] [] [] [] [] []]; intros H; try discriminate H; reflexivity.
Qed.

Lemma whitespace_rev_plain c r :
  plain c = true -> strip_one (map (@rev N) whitespace) (c :: r) = None.
Proof.
  destruct c as [[] [] [] [] [] [] [] []]; intros H; try discriminate H; reflexivity.
Qed.

Lemma list_ascii_app a b :
  list_ascii_of_string (a ++ b)%string = list_ascii_of_string a ++ list_ascii_of_string b.
Proof. induction a as [|c a IH]; cbn; [reflexivity|now rewrite IH]. Qed.

Lemma last_plain (e : list ascii) :
  e <> [] -> forallb plain e = true ->
  match rev e with c :: _ => plain c = true | [] => True end.
Proof.
  intros Hne Hall. destruct (rev e) as [|c r] eqn:E; [exact I|].
  assert (Hin : In c e) by (apply in_rev; rewrite E; now left).
  rewrite forallb_forall in Hall. now apply Hall.
Qed.

(** Blanks around a visible entry are what [trim] removes. *)
Lemma trim_padded pad1 entry pad2 :
  entry <> "" -> all_chars plain entry = true ->
  all_chars blank pad1 = true -> all_chars blank pad2 = true ->
  trim (pad1 ++ entry ++ pad2)%string = entry.
Proof.
  unfold all_chars, trim. intros Hne He H1 H2.
  rewrite !list_ascii_app.
  set (l1 := list_ascii_of_string pad1) in *.
  set (e := list_ascii_of_string entry) in *.
  set (l2 := list_ascii_of_string pad2) in *.
  assert (Hene : e <> []).
  { unfold e. destruct entry; [congruence|discriminate]. }
  unfold trimStart.
  rewrite (strip_leading_blanks whitespace whitespace_blank whitespace_plain eq_refl);
    [|exact H1|rewrite length_app; lia|].
  2:{ destruct e as [|c r]; [congruence|]. cbn [app]. cbn [forallb] in He.
      now apply andb_true_iff in He as [He _]. }
  unfold trimEnd. rewrite rev_app_distr.
  rewrite (strip_leading_blanks _ whitespace_rev_blank whitespace_rev_plain eq_refl).
  - rewrite rev_involutive. apply string_of_list_ascii_of_string.
  - rewrite forallb_forall in *. intros x Hx. apply H2. now apply in_rev.
  - rewrite length_rev, length_app. lia.
  - now apply last_plain.
Qed.

Lemma trim_blank pad : all_chars blank pad = true -> trim pad = "".
Proof.
  unfold all_chars, trim. intros H.
  set (l := list_ascii_of_string pad) in *.
  unfold trimStart.
  rewrite <- (app_nil_r l) at 2.
  rewrite (strip_leading_blanks whitespace whitespace_blank whitespace_plain eq_refl);
    [reflexivity|exact H|lia|exact I].
Qed.

Lemma count_char_app c a b :
  Js.count_char c (a ++ b)%string = Js.count_char c a + Js.count_char c b.
Proof. induction a as [|x a IH]; cbn; [reflexivity|]. rewrite IH. lia. Qed.

Lemma no_comma (p : ascii -> bool) s :
  (forall c, p c = true -> Ascii.eqb c "," = false) ->
  all_chars p s = true -> Js.count_char "," s = 0.
Proof.
  unfold all_chars. intros Hp. induction s as [|c s IH]; cbn; [reflexivity|].
  intros H. apply andb_true_iff in H as [Hc Hs]. rewrite (Hp c Hc). now apply IH.
Qed.

Lemma plain_no_comma c : plain c = true -> Ascii.eqb c "," = false.
Proof.
  destruct c as [[] [] [] [] [] [] [] []]; intros H; try discriminate H; reflexivity.
Qed.

Lemma blank_no_comma c : blank c = true -> Ascii.eqb c "," = false.
Proof.
  destruct c as [[] [] [] [] [] [] [] []]; intros H; try discriminate H; reflexivity.
Qed.

Lemma split_no_sep sep s : Js.count_char sep s = 0 -> Js.split sep s = [s].
Proof.
  induction s as [|c s IH]; cbn; [reflexivity|].
  destruct (Ascii.eqb c sep); [discriminate|]. intros H. now rewrite IH.
Qed.

Lemma hd_split_first sep p rest :
  Js.count_char sep p = 0 ->
  hd EmptyString (Js.split sep p) = p /\
  hd EmptyString (Js.split sep (p ++ String sep rest)%string) = p.
Proof.
  intros H. split.
  - now rewrite split_no_sep.
  - now rewrite split_literal.
Qed.

Lemma padded_no_comma pad1 entry pad2 :
  all_chars plain entry = true -> all_chars blank pad1 = true ->
  all_chars blank pad2 = true ->
  Js.count_char "," (pad1 ++ entry ++ pad2)%string = 0.
Proof.
  intros He H1 H2. rewrite !count_char_app.
  rewrite (no_comma blank pad1 blank_no_comma H1), (no_comma blank pad2 blank_no_comma H2),
    (no_comma plain entry plain_no_comma He). reflexivity.
Qed.

(** X1.  The address used for grouping is the first comma-separated entry
    of the [x-forwarded-for] header with the blanks around it removed,
    whatever the transport address and whatever follows the first comma;
    the transport address is used only when the header is absent or its
    first entry is blank.  So the client's header alone decides the group
    key of the connection. *)
Theorem header_decides_group (pad1 entry pad2 rest addr : string) :
  entry <> "" -> all_chars plain entry = true ->
  all_chars blank pad1 = true -> all_chars blank pad2 = true ->
  peerAddress {| x_forwarded_for := Some (pad1 ++ entry ++ pad2)%string; address := addr |}
    = entry /\
  peerAddress {| x_forwarded_for := Some ((pad1 ++ entry ++ pad2) ++ String "," rest)%string;
                 address := addr |} = entry /\
  peerAddress {| x_forwarded_for := Some pad1; address := addr |} = addr /\
  peerAddress {| x_forwarded_for := Some (pad1 ++ String "," rest)%string; address := addr |}
    = addr /\
  peerAddress {| x_forwarded_for := None; address := addr |} = addr /\
  forall sid now s,
    onSocket sid {| x_forwarded_for := Some ((pad1 ++ entry ++ pad2) ++ String "," rest)%string;
                    address := addr |} now s
    = onConnection sid entry now s.
Proof.
  intros Hne He H1 H2.
  pose proof (padded_no_comma pad1 entry pad2 He H1 H2) as Hc.
  pose proof (no_comma blank pad1 blank_no_comma H1) as Hc1.
  destruct (hd_split_first "," _ rest Hc) as [Hh1 Hh2].
  destruct (hd_split_first "," _ rest Hc1) as [Hb1 Hb2].
  assert (Hentry : String.eqb entry "" = false) by now apply String.eqb_neq.
  assert (Hfirst : peerAddress
                     {| x_forwarded_for := Some ((pad1 ++ entry ++ pad2) ++ String "," rest)%string;
                        address := addr |} = entry).
  { unfold peerAddress. cbn [x_forwarded_for address].
    rewrite Hh2, trim_padded by assumption. now rewrite Hentry. }
  split; [|split; [exact Hfirst|split; [|split; [|split]]]].
  - unfold peerAddress. cbn [x_forwarded_for address].
    rewrite Hh1, trim_padded by assumption. now rewrite Hentry.
  - unfold peerAddress. cbn [x_forwarded_for address]. now rewrite Hb1, trim_blank.
  - unfold peerAddress. cbn [x_forwarded_for address]. now rewrite Hb2, trim_blank.
  - reflexivity.
  - intros sid now s. unfold onSocket. now rewrite Hfirst.
Qed.

Lemma header_decides_group_witness :
  getNetworkGroup
    (peerAddress {| x_forwarded_for := Some " 10.1.2.3 ,203.0.113.5"; address := "8.8.8.8" |})
  = "LAN-10".
Proof.
  destruct (header_decides_group " " "10.1.2.3" " " "203.0.113.5" "8.8.8.8"
              ltac:(discriminate) eq_refl eq_refl eq_refl) as (_ & H & _).
  cbn [append] in H. rewrite H. reflexivity.
Defined.

(** X2.  The address of a connection is empty only when the transport
    address is empty, and the group key is empty only when the address is:
    with a non-empty transport address the record stored by the handler
    carries a group key that passes the [if (groupKey)] tests of the
    removal paths. *)
Theorem group_key_truthy (h : Handshake) (sid : string) (now : Z) (s : State) :
  address h <> "" ->
  peerAddress h <> "" /\
  getNetworkGroup (peerAddress h) <> "" /\
  exists s' out d,
    onSocket sid h now s = Some (s', out) /\
    JsMap.get sid (devices s') = Some d /\
    truthy (groupKey d) = Some (getNetworkGroup (peerAddress h)).
Proof.
  intros Ha.
  assert (Hp : peerAddress h <> "").
  { unfold peerAddress. destruct (x_forwarded_for h) as [header|]; [|exact Ha].
    destruct (String.eqb_spec (trim (hd "" (Js.split "," header))) "") as [E|E];
      [exact Ha|exact E]. }
  assert (Hg : getNetworkGroup (peerAddress h) <> "").
  { intros E. apply (proj1 (getNetworkGroup_empty_iff _)) in E. exact (Hp E). }
  split; [exact Hp|]. split; [exact Hg|].
  unfold onSocket.
  destruct (onConnection_total sid (peerAddress h) now s) as (s' & out & E).
  exists s', out. eexists. split; [exact E|].
  rewrite (onConnection_get_device _ _ _ _ _ _ sid E), String.eqb_refl.
  split; [reflexivity|]. cbn [groupKey]. apply truthy_Some. auto.
Qed.

Lemma group_key_truthy_witness :
  getNetworkGroup (peerAddress {| x_forwarded_for := Some " ,1.2.3.4"; address := "::1" |})
  <> "".
Proof.
  apply (group_key_truthy {| x_forwarded_for := Some " ,1.2.3.4"; address := "::1" |}
           "s" 0 initial).
  discriminate.
Defined.

(* ================================================================== *)
(** ** More on the classifier *)

Lemma append_assoc_s (a b c : string) : ((a ++ b) ++ c = a ++ (b ++ c))%string.
Proof. induction a as [|x a IH]; cbn; [reflexivity|now rewrite IH]. Qed.

Lemma split_dotfree sep s : Forall (fun p => Js.count_char sep p = 0) (Js.split sep s).
Proof.
  induction s as [|c s IH]; cbn.
  - constructor; [reflexivity|constructor].
  - destruct (Ascii.eqb c sep) eqn:E.
    + constructor; [reflexivity|exact IH].
    + destruct (Js.split sep s) as [|p ps]; [repeat constructor; cbn; now rewrite E|].
      inversion IH as [|? ? Hp Hps]; subst.
      constructor; [cbn; now rewrite E|exact Hps].
Qed.

(** [split] undoes [join] on components that do not contain the separator. *)
Lemma split_join sep l :
  l <> [] -> Forall (fun p => Js.count_char sep p = 0) l ->
  Js.split sep (Js.join (String sep EmptyString) l) = l.
Proof.
  unfold Js.join. induction l as [|x l IH]; intros Hne Hall; [congruence|].
  inversion Hall as [|? ? Hx Hl]; subst.
  destruct l as [|y l].
  - cbn. now apply split_no_sep.
  - assert (E : String.concat (String sep EmptyString) (x :: y :: l)
                = (x ++ String sep (String.concat (String sep EmptyString) (y :: l)))%string)
      by reflexivity.
    rewrite E, split_literal by exact Hx. f_equal. apply IH; [discriminate|exact Hl].
Qed.

Lemma firstn_Forall {A} (P : A -> Prop) n (l : list A) : Forall P l -> Forall P (firstn n l).
Proof.
  revert n. induction l as [|x l IH]; intros [|n] H; cbn; try constructor.
  - now inversion H.
  - apply IH. now inversion H.
Qed.

Lemma isPrivateIP_first ip : isPrivateIP ip = true -> exists r, ip = String "1" r.
Proof.
  intros H. apply isPrivateIP_iff in H as [(r & ->)|[(r & ->)|(b & r & _ & ->)]];
    eexists; reflexivity.
Qed.

(** X3.  Two addresses that are not private have the same group key
    exactly when their first three dot-separated components are the same
    (all components, when there are fewer than three). *)
Theorem public_same_group_iff (ip ip' : string) :
  isPrivateIP ip = false -> isPrivateIP ip' = false ->
  (getNetworkGroup ip = getNetworkGroup ip' <->
   firstn 3 (Js.split "." ip) = firstn 3 (Js.split "." ip')).
Proof.
  intros Hp Hp'. rewrite !getNetworkGroup_public by assumption. unfold Js.slice0.
  split; [|now intros ->].
  intros H.
  assert (Hrt : forall s, Js.split "." (Js.join "." (firstn 3 (Js.split "." s)))
                          = firstn 3 (Js.split "." s)).
  { intros s. apply (split_join "."%char).
    - pose proof (split_nonempty "."%char s) as Hne.
      destruct (Js.split "." s); [congruence|discriminate].
    - apply firstn_Forall, split_dotfree. }
  rewrite <- (Hrt ip), <- (Hrt ip'). now rewrite H.
Qed.

Lemma public_same_group_iff_witness :
  getNetworkGroup "8.8.8.8" = getNetworkGroup "8.8.8.200" /\
  getNetworkGroup "8.8.8.8" <> getNetworkGroup "8.8.88.8".
Proof.
  split.
  - apply (public_same_group_iff "8.8.8.8" "8.8.8.200"); reflexivity.
  - intros H. apply (public_same_group_iff "8.8.8.8" "8.8.88.8") in H; [|reflexivity..].
    discriminate H.
Defined.

(** X4.  The three expressions are anchored at the first character, so
    only a string that starts with the digit 1 can be private.  An IPv4
    peer reported in IPv6-mapped form, [::ffff:a.b.c.d], is therefore never
    given a block tag, even when [a.b.c.d] is an RFC1918 address: its key
    is [::ffff:a.b.c]. *)
Theorem mapped_ipv4_is_not_private (a b c d : string) :
  Js.count_char "." a = 0 -> Js.count_char "." b = 0 -> Js.count_char "." c = 0 ->
  (forall ip, isPrivateIP ip = true -> exists r, ip = String "1" r) /\
  isPrivateIP ("::ffff:" ++ a ++ "." ++ b ++ "." ++ c ++ "." ++ d)%string = false /\
  getNetworkGroup ("::ffff:" ++ a ++ "." ++ b ++ "." ++ c ++ "." ++ d)%string
    = ("::ffff:" ++ a ++ "." ++ b ++ "." ++ c)%string.
Proof.
  intros Ha Hb Hc. split; [exact isPrivateIP_first|].
  assert (Hp : isPrivateIP ("::ffff:" ++ a ++ "." ++ b ++ "." ++ c ++ "." ++ d)%string
               = false) by reflexivity.
  split; [exact Hp|]. rewrite getNetworkGroup_public by exact Hp.
  assert (Hpa : Js.count_char "." ("::ffff:" ++ a)%string = 0).
  { rewrite count_char_app, Ha. reflexivity. }
  replace ("::ffff:" ++ a ++ "." ++ b ++ "." ++ c ++ "." ++ d)%string
    with (("::ffff:" ++ a) ++ String "." (b ++ String "." (c ++ String "." d)))%string
    by (now rewrite append_assoc_s).
  rewrite !split_literal by assumption.
  unfold Js.slice0, Js.join. cbn [firstn String.concat].
  now rewrite append_assoc_s.
Qed.

Lemma mapped_ipv4_is_not_private_witness :
  getNetworkGroup "::ffff:192.168.1.5" = "::ffff:192.168.1".
Proof.
  apply (mapped_ipv4_is_not_private "192" "168" "1" "5"); reflexivity.
Defined.

(* ================================================================== *)
(** ** Registration and removal of a registered device *)

Lemma deliveries_rooms socks (f : string -> OutMsg) (l : list string) :
  (forall i, In i l -> JsSet.has i socks = true) ->
  deliveries socks (map (fun i => RoomEmit i (f i)) l) = map (fun i => (i, f i)) l.
Proof.
  unfold deliveries. induction l as [|a l IH]; intros H; [reflexivity|].
  cbn [map flat_map received]. rewrite (H a) by now left.
  cbn [app]. f_equal. apply IH. intros i Hi. apply H. now right.
Qed.

Lemma set_delete_absent x (m : JsSet.t) : ~ In x m -> JsSet.delete x m = m.
Proof.
  unfold JsSet.delete. induction m as [|a m IH]; intros H; [reflexivity|].
  cbn [filter]. destruct (String.eqb_spec a x) as [->|Hne].
  - exfalso. apply H. now left.
  - cbn [negb]. f_equal. apply IH. intros Hin. apply H. now right.
Qed.

(** The ids the handler announces the newcomer to: the set of its group
    without the newcomer. *)
Lemma others_delete sid (m : JsSet.t) :
  filter (fun i => negb (String.eqb i sid)) (JsSet.add sid m) = JsSet.delete sid m.
Proof.
  unfold JsSet.add, JsSet.delete. destruct (JsSet.has sid m); [reflexivity|].
  rewrite filter_app. cbn [filter]. rewrite String.eqb_refl. cbn [negb]. apply app_nil_r.
Qed.

Lemma set_add_absent x (m : JsSet.t) : ~ In x m -> JsSet.add x m = m ++ [x].
Proof. intros H. unfold JsSet.add. apply set_has_false in H. now rewrite H. Qed.

Lemma set_add_present x (m : JsSet.t) : In x m -> JsSet.add x m = m.
Proof. intros H. unfold JsSet.add. apply set_has_In in H. now rewrite H. Qed.

Lemma roster_ids (D : JsMap.t DeviceInfo) (l : list string) :
  (forall i, In i l -> exists d, JsMap.get i D = Some d /\ id d = i) ->
  map id (flat_map (fun i => match JsMap.get i D with Some d => [d] | None => [] end) l) = l.
Proof.
  induction l as [|a l IH]; intros H; [reflexivity|].
  cbn [flat_map]. destruct (H a) as (d & Hd & Hid); [now left|].
  rewrite Hd. cbn [app map]. rewrite Hid. f_equal. apply IH.
  intros i Hi. apply H. now right.
Qed.

Lemma roster_records (D : JsMap.t DeviceInfo) (l : list string) p :
  In p (flat_map (fun i => match JsMap.get i D with Some d => [d] | None => [] end) l) ->
  exists i, In i l /\ JsMap.get i D = Some p.
Proof.
  intros H. apply in_flat_map in H as (i & Hi & Hp).
  destruct (JsMap.get i D) as [d|] eqn:E; [|destruct Hp].
  destruct Hp as [<-|[]]. eauto.
Qed.

Lemma step_connection w sid ip now s' out :
  onConnection sid ip now (server w) = Some (s', out) ->
  step w (Connection sid ip now) =
  Some ({| server := s'; sockets := JsSet.add sid (sockets w) |}, out).
Proof. intros E. cbn [step]. now rewrite E. Qed.

(** X5.  Registration of an id that has no record, from a non-empty
    address, in a world where registry and index agree: the newcomer is
    sent one [device-info] whose roster lists the records of the devices
    already in its group, in the order in which they joined, and nothing
    else; each of those devices is sent one [device-joined], and no other
    connection receives anything.  The new record has [lastSeen = now], no
    profile, and the group key of the address; the newcomer goes last in
    its group's set (created if need be), every other record and group is
    untouched, and registry and index agree afterwards. *)
Theorem registration (w : World) (sid ip : string) (now : Z) :
  consistent w -> registered sid (server w) = false -> ip <> "" ->
  exists w' roster,
    react w (Connection sid ip now) =
      Some (w', (sid, DeviceInfoMsg sid roster)
                :: map (fun i => (i, DeviceJoined sid))
                       (members (getNetworkGroup ip) (ipGroups (server w)))) /\
    map id roster = members (getNetworkGroup ip) (ipGroups (server w)) /\
    (forall p, In p roster ->
               JsMap.get (id p) (devices (server w)) = Some p /\
               groupKey p = Some (getNetworkGroup ip)) /\
    JsMap.get sid (devices (server w')) =
      Some {| id := sid; lastSeen := now; type := None; icon := None; name := None;
              groupKey := Some (getNetworkGroup ip) |} /\
    (forall y, y <> sid ->
               JsMap.get y (devices (server w')) = JsMap.get y (devices (server w))) /\
    (forall gk, members gk (ipGroups (server w')) =
                if String.eqb gk (getNetworkGroup ip)
                then members gk (ipGroups (server w)) ++ [sid]
                else members gk (ipGroups (server w))) /\
    sockets w' = JsSet.add sid (sockets w) /\
    consistent w'.
Proof.
  intros Hc Hreg Hip.
  pose proof (consistent_server w Hc) as [Hco Hkey Hidx Hne].
  unfold index_matches_registry in Hidx.
  pose proof Hreg as Hnone. apply has_false in Hnone.
  set (gk := getNetworkGroup ip).
  set (peers := members gk (ipGroups (server w))).
  assert (Hnot : ~ In sid peers).
  { intros Hin. apply Hidx in Hin as (d & Hd & _). congruence. }
  destruct (onConnection_inv sid ip now (server w)) as (g2 & E & Hg2).
  fold gk in E, Hg2. fold peers in E, Hg2.
  rewrite others_delete, (set_delete_absent _ _ Hnot), (delete_absent _ _ Hnone) in E.
  pose proof (step_connection _ _ _ _ _ _ E) as Hst.
  assert (Hpeer : forall i, In i peers ->
                    exists d, JsMap.get i (devices (server w)) = Some d /\ id d = i /\
                              groupKey d = Some gk).
  { intros i Hi. apply Hidx in Hi as (d & Hd & Hg). exists d.
    split; [exact Hd|]. split; [|exact Hg]. now apply (coherent_record _ Hco i d Hd). }
  do 2 eexists. split; [|split; [|split; [|split; [|split; [|split; [|split]]]]]].
  - unfold react. rewrite Hst. cbn [sockets deliveries flat_map received app].
    f_equal. f_equal. f_equal.
    apply (deliveries_rooms _ (fun _ => DeviceJoined sid)).
    intros i Hi. destruct (Hpeer i Hi) as (d & Hd & _).
    apply set_has_In, In_set_add. right. apply set_has_In.
    apply (consistent_open w Hc). unfold registered, JsMap.has. now rewrite Hd.
  - apply roster_ids. intros i Hi. destruct (Hpeer i Hi) as (d & Hd & Hid & _). eauto.
  - intros p Hp. apply roster_records in Hp as (i & Hi & Hp).
    destruct (Hpeer i Hi) as (d & Hd & Hid & Hg).
    assert (p = d) by congruence. subst p. rewrite Hid. auto.
  - cbn [server devices]. apply get_set_eq.
  - intros y Hy. cbn [server devices]. now apply get_set_neq.
  - intros gk'. cbn [server ipGroups]. unfold members at 1. rewrite Hg2.
    destruct (String.eqb_spec gk' gk) as [->|Hg].
    + fold peers. now apply set_add_absent.
    + reflexivity.
  - reflexivity.
  - eapply step_consistent; [exact Hc| |exact Hst].
    cbn [fresh]. rewrite Hreg. apply String.eqb_neq in Hip. now rewrite Hip.
Qed.

Lemma registration_witness :
  exists w ds w' rec,
    run boot [Connection "a" "192.168.1.10" 0; Connection "c" "203.0.113.5" 1] = Some (w, ds) /\
    react w (Connection "b" "192.168.1.20" 2) =
      Some (w', [("b", DeviceInfoMsg "b" [rec]); ("a", DeviceJoined "b")]) /\
    id rec = "a".
Proof.
  destruct (run boot [Connection "a" "192.168.1.10" 0; Connection "c" "203.0.113.5" 1])
    as [[w ds]|] eqn:E; [|vm_compute in E; discriminate].
  assert (Hc : consistent w) by (eapply fresh_traces_consistent; [|exact E]; reflexivity).
  vm_compute in E. injection E as <- <-.
  destruct (registration _ "b" "192.168.1.20" 2 Hc eq_refl ltac:(discriminate))
    as (w' & roster & Hre & Hids & _).
  cbn in Hids. destruct roster as [|rec [|? ?]]; try discriminate Hids.
  injection Hids as Hid.
  do 2 eexists. exists w', rec. split; [reflexivity|]. split; [exact Hre|exact Hid].
Defined.

(** X6.  Disconnect of a registered device, in a world where registry and
    index agree: its record and its membership are removed, the entry of
    its group is dropped when it was the last member, and each device that
    remains in the group is sent exactly one [device-left]; nothing is
    sent to the leaving connection or to any other group.  Every other
    record and group is untouched and registry and index agree afterwards. *)
Theorem disconnect_registered (w : World) (sid : string) (d : DeviceInfo) :
  consistent w -> JsMap.get sid (devices (server w)) = Some d ->
  exists gk w',
    groupKey d = Some gk /\
    react w (Disconnect sid) =
      Some (w', map (fun r => (r, DeviceLeft sid))
                    (JsSet.delete sid (members gk (ipGroups (server w))))) /\
    registered sid (server w') = false /\
    (forall y, y <> sid ->
               JsMap.get y (devices (server w')) = JsMap.get y (devices (server w))) /\
    (forall gk', members gk' (ipGroups (server w')) =
                 if String.eqb gk' gk
                 then JsSet.delete sid (members gk (ipGroups (server w)))
                 else members gk' (ipGroups (server w))) /\
    (JsSet.delete sid (members gk (ipGroups (server w))) = [] ->
     JsMap.get gk (ipGroups (server w')) = None) /\
    sockets w' = JsSet.delete sid (sockets w) /\
    consistent w'.
Proof.
  intros Hc Hget.
  pose proof (consistent_server w Hc) as [Hco Hkey Hidx Hne].
  unfold index_matches_registry in Hidx.
  destruct (coherent_record _ Hco sid d Hget) as (_ & gk & Hgk & Hin).
  assert (Ht : truthy (groupKey d) = Some gk).
  { apply truthy_Some. split; [exact Hgk|]. eapply Hkey; eauto. }
  assert (Ho : JsSet.has sid (sockets w) = true).
  { apply (consistent_open w Hc). unfold registered, JsMap.has. now rewrite Hget. }
  assert (Hst : step w (Disconnect sid) =
                Some ({| server := fst (evict sid d (server w));
                         sockets := JsSet.delete sid (sockets w) |},
                      snd (evict sid d (server w)))).
  { cbn [step]. rewrite Ho, (onDisconnect_evict _ _ _ Hget).
    now destruct (evict sid d (server w)). }
  exists gk. eexists. split; [exact Hgk|].
  split; [|split; [|split; [|split; [|split; [|split]]]]].
  - unfold react. rewrite Hst. cbn [sockets]. rewrite evict_out, Ht.
    f_equal. f_equal.
    apply (deliveries_rooms _ (fun _ => DeviceLeft sid)).
    intros i Hi. apply In_set_delete in Hi as [Hi Hne'].
    apply Hidx in Hi as (di & Hdi & _).
    apply set_has_In, In_set_delete. split; [|exact Hne'].
    apply set_has_In, (consistent_open w Hc). unfold registered, JsMap.has. now rewrite Hdi.
  - cbn [server]. apply has_false. rewrite evict_devices. apply get_delete_eq.
  - intros y Hy. cbn [server]. rewrite evict_devices. now apply get_delete_neq.
  - intros gk'. cbn [server]. now rewrite evict_members, Ht.
  - intros Hempty. cbn [server]. rewrite evict_get, Ht, leaveGroup_get, String.eqb_refl.
    apply In_members in Hin as (m & Hm & _). rewrite Hm.
    rewrite (members_get _ _ _ Hm) in Hempty. now rewrite Hempty.
  - reflexivity.
  - eapply step_consistent; [exact Hc| |exact Hst]. reflexivity.
Qed.

Lemma disconnect_registered_witness :
  exists w ds w',
    run boot [Connection "a" "192.168.1.10" 0; Connection "b" "192.168.1.20" 1;
              Connection "c" "203.0.113.5" 2] = Some (w, ds) /\
    react w (Disconnect "a") = Some (w', [("b", DeviceLeft "a")]) /\
    registered "a" (server w') = false.
Proof.
  destruct (run boot [Connection "a" "192.168.1.10" 0; Connection "b" "192.168.1.20" 1;
                      Connection "c" "203.0.113.5" 2])
    as [[w ds]|] eqn:E; [|vm_compute in E; discriminate].
  assert (Hc : consistent w) by (eapply fresh_traces_consistent; [|exact E]; reflexivity).
  vm_compute in E. injection E as <- <-.
  destruct (disconnect_registered _ "a" _ Hc eq_refl) as (gk & w' & Hgk & Hre & Hreg & _).
  injection Hgk as <-.
  do 2 eexists. exists w'. split; [reflexivity|]. split; [exact Hre|exact Hreg].
Defined.

(* ================================================================== *)
(** ** More on the sweep *)

Section SweepMore.

Variable now : Z.

Lemma sweepGroups_none l (g : JsMap.t JsSet.t) :
  (forall e, In e l -> expired now (snd e) = false) -> sweepGroups now l g = (g, []).
Proof.
  induction l as [|[sid d] rest IH]; intros H; [reflexivity|].
  cbn [sweepGroups]. pose proof (H (sid, d) (or_introl eq_refl)) as E.
  cbn [snd] in E. rewrite E.
  apply IH. intros e He. apply H. now right.
Qed.

Lemma sweepDevices_none l (D : JsMap.t DeviceInfo) :
  (forall e, In e l -> expired now (snd e) = false) -> sweepDevices now l D = D.
Proof.
  revert D. induction l as [|e rest IH]; intros D H; [reflexivity|].
  rewrite sweepDevices_cons, (H e) by now left.
  apply IH. intros e' He'. apply H. now right.
Qed.

Lemma sweepDevices_In l (D : JsMap.t DeviceInfo) e :
  In e (sweepDevices now l D) ->
  In e D /\ forall e', In e' l -> expired now (snd e') = true -> fst e' <> fst e.
Proof.
  revert D. induction l as [|e0 rest IH]; intros D H.
  - split; [exact H|intros e' []].
  - rewrite sweepDevices_cons in H. apply IH in H as [Hin Hrest].
    destruct (expired now (snd e0)) eqn:E0.
    + unfold JsMap.delete in Hin. apply filter_In in Hin as [Hin Hne].
      apply negb_true_iff, String.eqb_neq in Hne.
      split; [exact Hin|]. intros e' [<-|He'] Hexp; [congruence|now apply Hrest].
    + split; [exact Hin|]. intros e' [<-|He'] Hexp; [congruence|now apply Hrest].
Qed.

Lemma delete_delete {V} x (D : JsMap.t V) : JsMap.delete x (JsMap.delete x D) = JsMap.delete x D.
Proof.
  unfold JsMap.delete. induction D as [|[k v] D IH]; [reflexivity|].
  cbn [filter fst]. destruct (String.eqb k x) eqn:E; cbn [negb filter fst].
  - exact IH.
  - rewrite E. cbn [negb]. now rewrite IH.
Qed.

Lemma sweepDevices_single x l (D : JsMap.t DeviceInfo) :
  (forall e, In e l -> expired now (snd e) = true -> fst e = x) ->
  sweepDevices now l D =
  if existsb (fun e => expired now (snd e)) l then JsMap.delete x D else D.
Proof.
  revert D. induction l as [|e rest IH]; intros D H; [reflexivity|].
  rewrite sweepDevices_cons. cbn [existsb].
  rewrite IH by (intros e' He'; apply H; now right).
  destruct (expired now (snd e)) eqn:E; cbn [orb]; [|reflexivity].
  rewrite (H e (or_introl eq_refl) E).
  rewrite delete_delete. now destruct (existsb _ rest).
Qed.

Lemma sweepGroups_single x l (g : JsMap.t JsSet.t) :
  NoDup (JsMap.keys l) ->
  (forall sid d, In (sid, d) l -> expired now d = true -> sid = x) ->
  sweepGroups now l g =
  match JsMap.get x l with
  | Some d =>
      if expired now d then
        match truthy (groupKey d) with
        | Some gk => leaveGroup x gk g
        | None => (g, [])
        end
      else (g, [])
  | None => (g, [])
  end.
Proof.
  unfold JsMap.keys. induction l as [|[sid dv] rest IH]; intros Hnd H; [reflexivity|].
  inversion Hnd as [|? ? Hnot Hnd']; subst.
  assert (Hrest : forall sid' d, In (sid', d) rest -> expired now d = true -> sid' = x).
  { intros sid' d Hin. apply H. now right. }
  cbn [sweepGroups JsMap.get].
  destruct (expired now dv) eqn:E.
  - assert (sid = x) by (apply (H sid dv); [now left|exact E]). subst sid.
    rewrite String.eqb_refl, E.
    assert (Hquiet : forall g', sweepGroups now rest g' = (g', [])).
    { intros g'. apply sweepGroups_none. intros [sid' d'] Hin. cbn [snd].
      destruct (expired now d') eqn:E'; [|reflexivity].
      exfalso. apply Hnot. rewrite <- (Hrest sid' d' Hin E').
      change sid' with (fst (sid', d')). now apply in_map. }
    destruct (truthy (groupKey dv)) as [gk|]; [|apply Hquiet].
    destruct (leaveGroup x gk g) as [g1 notices]. rewrite Hquiet. now rewrite app_nil_r.
  - destruct (String.eqb_spec x sid) as [->|Hne].
    + rewrite E. apply sweepGroups_none. intros [sid' d'] Hin. cbn [snd].
      destruct (expired now d') eqn:E'; [|reflexivity].
      exfalso. apply Hnot. rewrite <- (Hrest sid' d' Hin E').
      change sid' with (fst (sid', d')). now apply in_map.
    + now apply IH.
Qed.

End SweepMore.

(** X7.  A run of the sweep in which the record of [x] is the only one
    that has expired does to the two maps, and sends, exactly what the
    [disconnect] handler of [x] does. *)
Theorem sweep_is_disconnect (s : State) (now : Z) (x : string) (dx : DeviceInfo) :
  NoDup (JsMap.keys (devices s)) ->
  JsMap.get x (devices s) = Some dx -> expired now dx = true ->
  (forall sid d, JsMap.get sid (devices s) = Some d -> expired now d = true -> sid = x) ->
  cleanupDevices now s = onDisconnect x s.
Proof.
  intros Hnd Hget Hexp Honly.
  assert (Hall : forall sid d, In (sid, d) (devices s) -> expired now d = true -> sid = x).
  { intros sid d Hin. apply Honly. now apply In_get. }
  rewrite cleanupDevices_eq, (onDisconnect_evict _ _ _ Hget).
  rewrite (sweepDevices_single now x).
  2:{ intros [sid d] Hin. apply Hall. exact Hin. }
  assert (Hex : existsb (fun e => expired now (snd e)) (devices s) = true).
  { apply existsb_exists. exists (x, dx). split; [now apply get_In|exact Hexp]. }
  rewrite Hex, (sweepGroups_single now x _ _ Hnd Hall), Hget, Hexp.
  unfold evict. destruct (truthy (groupKey dx)) as [gk|]; [|reflexivity].
  now destruct (leaveGroup x gk (ipGroups s)).
Qed.

Lemma sweep_is_disconnect_witness :
  exists w ds,
    run boot [Connection "a" "192.168.1.10" 0; Connection "b" "192.168.1.20" 20000]
      = Some (w, ds) /\
    cleanupDevices 31000 (server w) = onDisconnect "a" (server w).
Proof.
  destruct (run boot [Connection "a" "192.168.1.10" 0; Connection "b" "192.168.1.20" 20000])
    as [[w ds]|] eqn:E; [|vm_compute in E; discriminate].
  vm_compute in E. injection E as <- <-.
  do 2 eexists. split; [reflexivity|].
  apply (sweep_is_disconnect _ 31000 "a"
           {| id := "a"; lastSeen := 0; type := None; icon := None; name := None;
              groupKey := Some "LAN-192.168" |}).
  - repeat constructor; cbn; intuition discriminate.
  - reflexivity.
  - reflexivity.
  - intros sid d. cbn [server devices JsMap.get].
    destruct (String.eqb_spec sid "a") as [->|Ha]; [reflexivity|].
    destruct (String.eqb_spec sid "b") as [->|Hb]; [|intros E; discriminate E].
    intros E. injection E as <-. intros E. discriminate E.
Defined.

(** X8.  After a run of the sweep no record is older than the limit at
    that time: a further run at the same [Date.now()] or an earlier one
    changes neither map and sends nothing.  In particular a run that finds
    nothing expired is the identity. *)
Theorem sweep_idempotent (s : State) (now now' : Z) :
  (now' <= now)%Z ->
  cleanupDevices now' (fst (cleanupDevices now s)) = (fst (cleanupDevices now s), []) /\
  ((forall sid d, In (sid, d) (devices s) -> (now - lastSeen d <= 30000)%Z) ->
   cleanupDevices now s = (s, [])).
Proof.
  intros Hle.
  assert (Hquiet : forall t s0,
             (forall e, In e (devices s0) -> expired t (snd e) = false) ->
             cleanupDevices t s0 = (s0, [])).
  { intros t s0 H. rewrite cleanupDevices_eq.
    rewrite sweepDevices_none, sweepGroups_none by exact H. now destruct s0. }
  split.
  - apply Hquiet. intros e He. rewrite cleanupDevices_eq in He. cbn [fst devices] in He.
    apply sweepDevices_In in He as [Hin Hno].
    destruct (expired now (snd e)) eqn:E.
    + exfalso. now apply (Hno e Hin E).
    + unfold expired in *. rewrite Z.gtb_ltb in *. apply Z.ltb_ge in E. apply Z.ltb_ge. lia.
  - intros H. apply Hquiet. intros [sid d] Hin. cbn [snd]. unfold expired.
    rewrite Z.gtb_ltb. apply Z.ltb_ge. now apply (H sid d).
Qed.

Lemma sweep_idempotent_witness :
  exists w ds,
    run boot [Connection "a" "192.168.1.10" 0; Connection "b" "192.168.1.20" 20000]
      = Some (w, ds) /\
    cleanupDevices 30000 (server w) = (server w, []).
Proof.
  destruct (run boot [Connection "a" "192.168.1.10" 0; Connection "b" "192.168.1.20" 20000])
    as [[w ds]|] eqn:E; [|vm_compute in E; discriminate].
  vm_compute in E. injection E as <- <-.
  do 2 eexists. split; [reflexivity|].
  apply (sweep_idempotent _ 30000 30000); [lia|].
  intros sid d [E|[E|[]]]; injection E as <- <-; cbn; lia.
Defined.

(* ================================================================== *)
(** ** What holds over every sequence of events *)

(** X9.  The two non-null assertions ([ipGroups.get(groupKey)!] in the
    connection handler, lines 101-110, and in [device-info], line 143)
    never meet a missing group: over the events of [Event], whose
    payloads carry the fields the handlers declare, every sequence from
    the start of the server runs to the end, whatever ids and addresses
    the connections carry.  This is so because in every world reached
    each record is stored under its own id and names a group key whose
    set exists and contains the id, the sets are duplicate-free, and
    every registered id is an open connection.  (An event that arrives
    without a payload is not a value of [Event]; what the handlers do
    with one is not covered here.) *)
Theorem group_lookups_never_fail (es : list Event) :
  exists w ds,
    run boot es = Some (w, ds) /\
    (forall e, exists w' out, step w e = Some (w', out)) /\
    (forall sid d,
       JsMap.get sid (devices (server w)) = Some d ->
       id d = sid /\
       exists gk m, groupKey d = Some gk /\
                    JsMap.get gk (ipGroups (server w)) = Some m /\ In sid m /\ NoDup m) /\
    (forall sid, registered sid (server w) = true -> JsSet.has sid (sockets w) = true).
Proof.
  destruct (run_total boot es boot_sound) as (w & ds & Hrun).
  pose proof (run_sound _ _ _ _ boot_sound Hrun) as Hs.
  exists w, ds. split; [exact Hrun|]. split; [|split].
  - intros e. now apply step_total.
  - intros sid d Hd.
    destruct (coherent_record _ (sound_server w Hs) sid d Hd) as (Hid & gk & Hgk & Hin).
    split; [exact Hid|]. apply In_members in Hin as (m & Hm & Hin).
    exists gk, m. repeat split; auto.
    eapply coherent_sets; [apply Hs|exact Hm].
  - apply Hs.
Qed.

(** X10.  As long as no connection arrives under an id that still has a
    record, and no peer address is the empty string, registry and group
    index agree after every event: the members of each group are exactly
    the registered ids whose record names it, every registered id is in
    exactly one set, and no set is empty. *)
Theorem index_agrees_without_id_reuse (es : list Event) (w : World)
        (ds : list (string * OutMsg)) :
  fresh_trace boot es = true -> run boot es = Some (w, ds) ->
  index_matches_registry (server w) /\
  no_empty_group (server w) /\
  (forall sid, registered sid (server w) = true ->
     exists gk, In sid (members gk (ipGroups (server w))) /\
                forall gk', In sid (members gk' (ipGroups (server w))) -> gk' = gk) /\
  (forall gk sid, In sid (members gk (ipGroups (server w))) ->
                  registered sid (server w) = true /\ group_of sid (server w) = Some gk).
Proof.
  intros Hf Hrun.
  pose proof (run_consistent _ _ _ _ boot_consistent Hf Hrun) as Hc.
  pose proof (consistent_server w Hc) as [Hco Hkey Hidx Hne].
  split; [exact Hidx|]. split; [exact Hne|]. unfold index_matches_registry in Hidx.
  split.
  - intros sid Hreg. apply has_true in Hreg as (d & Hd).
    destruct (coherent_record _ Hco sid d Hd) as (_ & gk & Hgk & Hin).
    exists gk. split; [exact Hin|].
    intros gk' Hin'. apply Hidx in Hin' as (d' & Hd' & Hgk'). congruence.
  - intros gk sid Hin. apply Hidx in Hin as (d & Hd & Hgk).
    unfold registered, JsMap.has, group_of. rewrite Hd. auto.
Qed.

Lemma index_agrees_without_id_reuse_witness :
  exists w ds,
    run boot [Connection "a" "192.168.1.10" 0; Connection "b" "192.168.1.20" 1;
              Connection "c" "203.0.113.5" 2; Disconnect "a"; Tick 30002] = Some (w, ds) /\
    index_matches_registry (server w) /\
    members "LAN-192.168" (ipGroups (server w)) = [].
Proof.
  destruct (run boot [Connection "a" "192.168.1.10" 0; Connection "b" "192.168.1.20" 1;
                      Connection "c" "203.0.113.5" 2; Disconnect "a"; Tick 30002])
    as [[w ds]|] eqn:E; [|vm_compute in E; discriminate].
  exists w, ds. split; [reflexivity|]. split.
  - assert (Hf : fresh_trace boot
                   [Connection "a" "192.168.1.10" 0; Connection "b" "192.168.1.20" 1;
                    Connection "c" "203.0.113.5" 2; Disconnect "a"; Tick 30002] = true)
      by reflexivity.
    destruct (index_agrees_without_id_reuse _ w ds Hf E) as (H & _). exact H.
  - vm_compute in E. injection E as <- <-. reflexivity.
Defined.

(** X11.  Under the same conditions discovery traffic stays inside a
    group: a roster lists only records of the group of the connection it
    is sent to, and a [device-joined] or [device-left] notice about a
    device is delivered only to registered devices whose record names the
    same group. *)
Theorem group_isolation_without_id_reuse (es : list Event) (w : World)
        (ds : list (string * OutMsg)) (e : Event) (w' : World)
        (ds' : list (string * OutMsg)) :
  fresh_trace boot es = true -> run boot es = Some (w, ds) ->
  fresh w e = true -> react w e = Some (w', ds') ->
  forall r m, In (r, m) ds' ->
    match m with
    | DeviceInfoMsg self peers =>
        r = self /\
        forall p, In p peers ->
                  groupKey p = group_of r (server w') /\
                  group_of (id p) (server w') = group_of r (server w')
    | DeviceJoined x =>
        group_of x (server w') = group_of r (server w') /\ registered r (server w') = true
    | DeviceLeft x =>
        group_of x (server w) = group_of r (server w) /\ registered r (server w) = true
    | _ => True
    end.
Proof.
  intros Hf Hrun He Hre.
  pose proof (run_consistent _ _ _ _ boot_consistent Hf Hrun) as Hc.
  exact (isolation_when_consistent w e w' ds' Hc He Hre).
Qed.

Lemma group_isolation_without_id_reuse_witness :
  exists w ds w' ds',
    run boot [Connection "a" "192.168.1.10" 0; Connection "c" "203.0.113.5" 2] = Some (w, ds) /\
    react w (Connection "b" "192.168.1.20" 3) = Some (w', ds') /\
    forall m, In ("c", m) ds' -> m <> DeviceJoined "b".
Proof.
  destruct (run boot [Connection "a" "192.168.1.10" 0; Connection "c" "203.0.113.5" 2])
    as [[w ds]|] eqn:E; [|vm_compute in E; discriminate].
  destruct (react w (Connection "b" "192.168.1.20" 3)) as [[w' ds']|] eqn:E';
    [|vm_compute in E; injection E as <- <-; vm_compute in E'; discriminate].
  exists w, ds, w', ds'. split; [reflexivity|]. split; [exact E'|].
  intros m Hin ->.
  assert (Hfr : fresh w (Connection "b" "192.168.1.20" 3) = true)
    by (vm_compute in E; injection E as <- <-; reflexivity).
  assert (Hf : fresh_trace boot
                 [Connection "a" "192.168.1.10" 0; Connection "c" "203.0.113.5" 2] = true)
    by reflexivity.
  pose proof (group_isolation_without_id_reuse _ w ds _ w' ds' Hf E Hfr E'
                "c" (DeviceJoined "b") Hin) as [Hg _].
  vm_compute in E. injection E as <- <-. vm_compute in E'. injection E' as <- <-.
  discriminate Hg.
Defined.

(* ================================================================== *)
(** ** A connection whose record is gone; reconnecting in place *)

(** Who discovery traffic goes to: registered devices, and the socket that
    is connecting. *)
Lemma discovery_receivers w e w' ds r m :
  consistent w -> fresh w e = true -> react w e = Some (w', ds) ->
  In (r, m) ds -> sender m = None ->
  registered r (server w) = true \/ connects r e = true.
Proof.
  intros Hc Hf Hre Hin Hs.
  pose proof (consistent_server w Hc) as [Hco Hkey Hidx Hne].
  unfold index_matches_registry in Hidx.
  assert (Hmem : forall gk i, In i (members gk (ipGroups (server w))) ->
                              registered i (server w) = true).
  { intros gk i Hi. apply Hidx in Hi as (d & Hd & _).
    unfold registered, JsMap.has. now rewrite Hd. }
  apply react_step in Hre as (out & Hst & ->).
  destruct e as [sid ip now|sid now|sid ty ic nm|sid rd|sid|now]; cbn [step fresh connects] in *.
  - destruct (onConnection_inv sid ip now (server w)) as (g2 & E & _).
    rewrite E in Hst. injection Hst as <- <-. rewrite others_delete in Hin.
    apply In_deliveries in Hin as [Hin|[Hin _]].
    + destruct Hin as [E'|Hin]; [|apply in_map_iff in Hin as (i & E' & _); discriminate].
      injection E' as <- _. right. apply String.eqb_refl.
    + destruct Hin as [E'|Hin]; [discriminate|].
      apply in_map_iff in Hin as (i & E' & Hi). injection E' as -> _.
      apply In_set_delete in Hi as [Hi _]. left. eauto.
  - destruct (JsSet.has sid (sockets w)).
    + pose proof (onHeartbeat_out sid now (server w)) as Ho.
      destruct (onHeartbeat sid now (server w)) as [s' o]. injection Hst as <- <-.
      cbn [snd] in Ho. subst o. destruct Hin.
    + injection Hst as <- <-. destruct Hin.
  - destruct (JsSet.has sid (sockets w)); [|injection Hst as <- <-; destruct Hin].
    pose proof (onDeviceInfo_inv sid ty ic nm (server w) Hco) as Hi.
    destruct (JsMap.get sid (devices (server w))) as [dv|]; rewrite Hi in Hst;
      injection Hst as <- <-; [|destruct Hin].
    destruct (truthy (groupKey dv)) as [gk|]; [|destruct Hin].
    apply In_deliveries in Hin as [Hin|[Hin _]];
      apply in_map_iff in Hin as (i & E' & Hi'); [discriminate|].
    injection E' as -> _. left. eauto.
  - destruct (JsSet.has sid (sockets w)); injection Hst as <- <-; [|destruct Hin].
    apply In_deliveries in Hin as [[E'|[]]|[[E'|[]] _]]; [discriminate|].
    injection E' as _ <-. destruct rd; discriminate Hs.
  - destruct (JsSet.has sid (sockets w)); [|injection Hst as <- <-; destruct Hin].
    destruct (JsMap.get sid (devices (server w))) as [dv|] eqn:Ed.
    + rewrite (onDisconnect_evict _ _ _ Ed) in Hst.
      pose proof (evict_out sid dv (server w)) as Ho.
      destruct (evict sid dv (server w)) as [s' o]. injection Hst as <- <-.
      cbn [snd sockets] in *. subst o.
      destruct (truthy (groupKey dv)) as [gk|]; [|destruct Hin].
      apply In_deliveries in Hin as [Hin|[Hin _]];
        apply in_map_iff in Hin as (i & E' & Hi'); [discriminate|].
      injection E' as -> _. apply In_set_delete in Hi' as [Hi' _]. left. eauto.
    + rewrite (onDisconnect_absent _ _ Ed) in Hst. injection Hst as <- <-. destruct Hin.
  - pose proof (step_tick w now) as Ht. cbn [step] in Ht. rewrite Ht in Hst.
    injection Hst as <- <-. cbn [sockets] in Hin.
    destruct (tick_notices w now r m Hc Hin) as (x & d & _ & _ & _ & _ & Hreg). now left.
Qed.

(** X12.  Once the record of an open connection is gone (the sweep removed
    it) the connection is never told: as long as ids are not reused, it is
    not registered again by anything it sends, it is in no group set, and
    the only messages delivered to it are those other connections address
    to it by id; no roster, [device-joined], [device-left] or
    [device-info-update] reaches it. *)
Theorem evicted_connection_is_cut_off (es : list Event) (w : World) (x : string) :
  consistent w -> registered x (server w) = false ->
  fresh_trace w es = true -> existsb (connects x) es = false ->
  exists w' ds,
    run w es = Some (w', ds) /\
    registered x (server w') = false /\
    (forall gk, ~ In x (members gk (ipGroups (server w')))) /\
    (forall m, In (x, m) ds -> exists from, sender m = Some from).
Proof.
  revert w. induction es as [|e es IH]; intros w Hc Hx Hf Hno.
  - exists w, []. split; [reflexivity|]. split; [exact Hx|]. split; [|intros m []].
    intros gk Hin. apply (agree_index _ (consistent_server w Hc)) in Hin as (d & Hd & _).
    unfold registered, JsMap.has in Hx. now rewrite Hd in Hx.
  - cbn [fresh_trace existsb] in *.
    apply andb_true_iff in Hf as [Hfe Hf]. apply orb_false_iff in Hno as [Hce Hno].
    destruct (step w e) as [[w1 out]|] eqn:Hst; [|discriminate].
    assert (Hre : react w e = Some (w1, deliveries (sockets w1) out)).
    { unfold react. now rewrite Hst. }
    pose proof (step_consistent _ _ _ _ Hc Hfe Hst) as Hc1.
    destruct (step_keeps_out _ _ _ _ _ (consistent_sound w Hc) Hx Hce Hst) as [Hx1 _].
    destruct (IH w1 Hc1 Hx1 Hf Hno) as (w2 & d2 & Hrun & Hx2 & Hgr & Hd2).
    exists w2, (deliveries (sockets w1) out ++ d2).
    split; [rewrite (run_cons _ _ _ _ _ Hre), Hrun; reflexivity|].
    split; [exact Hx2|]. split; [exact Hgr|].
    intros m Hin. apply in_app_or in Hin as [Hin|Hin]; [|now apply Hd2].
    destruct (sender m) as [from|] eqn:Es; [eauto|].
    destruct (discovery_receivers _ _ _ _ _ _ Hc Hfe Hre Hin Es) as [H|H]; congruence.
Qed.

Lemma evicted_connection_is_cut_off_witness :
  exists w ds w' ds',
    run boot [Connection "a" "192.168.1.10" 0; Connection "b" "192.168.1.20" 25000;
              Tick 31000] = Some (w, ds) /\
    registered "a" (server w) = false /\
    run w [Heartbeat "a" 32000; DeviceInfoEv "a" "phone" "mobile" "Alice";
           Connection "c" "192.168.1.30" 33000; Relay "b" (SendMessage "a" "hi");
           Disconnect "c"] = Some (w', ds') /\
    registered "a" (server w') = false /\
    forall m, In ("a", m) ds' -> exists from, sender m = Some from.
Proof.
  destruct (run boot [Connection "a" "192.168.1.10" 0; Connection "b" "192.168.1.20" 25000;
                      Tick 31000]) as [[w ds]|] eqn:E; [|vm_compute in E; discriminate].
  assert (Hc : consistent w) by (eapply fresh_traces_consistent; [|exact E]; reflexivity).
  vm_compute in E. injection E as <- <-.
  destruct (evicted_connection_is_cut_off
              [Heartbeat "a" 32000; DeviceInfoEv "a" "phone" "mobile" "Alice";
               Connection "c" "192.168.1.30" 33000; Relay "b" (SendMessage "a" "hi");
               Disconnect "c"] _ "a" Hc eq_refl eq_refl eq_refl)
    as (w' & ds' & Hrun & Hreg & _ & Hds).
  do 2 eexists. exists w', ds'. split; [reflexivity|]. split; [reflexivity|].
  split; [exact Hrun|]. split; [exact Hreg|exact Hds].
Defined.

Lemma keys_set_absent {V} k (v : V) (m : JsMap.t V) :
  JsMap.get k m = None -> JsMap.keys (JsMap.set k v m) = JsMap.keys m ++ [k].
Proof.
  unfold JsMap.keys. induction m as [|[k0 v0] m IH]; cbn; [reflexivity|].
  destruct (String.eqb_spec k k0) as [->|Hne]; [discriminate|].
  intros H. cbn. now rewrite IH.
Qed.

(** X13.  A connection under an id that still has a record, from an
    address of the same group, is harmless to the invariant: registry and
    index still agree and no group set changes.  The old record is
    replaced by a fresh one, so the profile is lost, and the entry moves to
    the end of [devices]; the other members of the group are sent
    [device-joined] again and the roster lists exactly them. *)
Theorem reconnect_same_group (w : World) (sid ip : string) (now : Z) (d : DeviceInfo) :
  consistent w -> JsMap.get sid (devices (server w)) = Some d ->
  groupKey d = Some (getNetworkGroup ip) ->
  let peers := JsSet.delete sid (members (getNetworkGroup ip) (ipGroups (server w))) in
  exists w' roster,
    react w (Connection sid ip now) =
      Some (w', (sid, DeviceInfoMsg sid roster)
                :: map (fun i => (i, DeviceJoined sid)) peers) /\
    map id roster = peers /\
    JsMap.get sid (devices (server w')) =
      Some {| id := sid; lastSeen := now; type := None; icon := None; name := None;
              groupKey := Some (getNetworkGroup ip) |} /\
    JsMap.keys (devices (server w')) =
      JsMap.keys (JsMap.delete sid (devices (server w))) ++ [sid] /\
    (forall gk, members gk (ipGroups (server w')) = members gk (ipGroups (server w))) /\
    consistent w'.
Proof.
  intros Hc Hget Hgk peers.
  pose proof (consistent_server w Hc) as [Hco Hkey Hidx Hne].
  unfold index_matches_registry in Hidx.
  set (gk := getNetworkGroup ip) in *.
  assert (Hin : In sid (members gk (ipGroups (server w)))).
  { apply Hidx. eauto. }
  destruct (onConnection_inv sid ip now (server w)) as (g2 & E & Hg2).
  fold gk in E, Hg2. rewrite others_delete in E. fold peers in E.
  rewrite (set_add_present _ _ Hin) in Hg2.
  pose proof (step_connection _ _ _ _ _ _ E) as Hst.
  assert (Hpeer : forall i, In i peers ->
                    i <> sid /\
                    exists di, JsMap.get i (devices (server w)) = Some di /\ id di = i).
  { intros i Hi. apply In_set_delete in Hi as [Hi Hne']. split; [exact Hne'|].
    apply Hidx in Hi as (di & Hdi & _). exists di. split; [exact Hdi|].
    now apply (coherent_record _ Hco i di Hdi). }
  assert (Hmem : forall gk', members gk' g2 = members gk' (ipGroups (server w))).
  { intros gk'. unfold members at 1. rewrite Hg2.
    destruct (String.eqb_spec gk' gk) as [->|]; reflexivity. }
  assert (Hs' : sound {| server := _; sockets := JsSet.add sid (sockets w) |})
    by (eapply step_sound; [apply (consistent_sound w Hc)|exact Hst]).
  do 2 eexists. split; [|split; [|split; [|split; [|split]]]].
  - unfold react. rewrite Hst. cbn [sockets deliveries flat_map received app].
    f_equal. f_equal. f_equal.
    apply (deliveries_rooms _ (fun _ => DeviceJoined sid)).
    intros i Hi. destruct (Hpeer i Hi) as (_ & di & Hdi & _).
    apply set_has_In, In_set_add. right. apply set_has_In.
    apply (consistent_open w Hc). unfold registered, JsMap.has. now rewrite Hdi.
  - apply roster_ids. intros i Hi. destruct (Hpeer i Hi) as (Hne' & di & Hdi & Hid).
    exists di. now rewrite get_delete_neq.
  - cbn [server devices]. apply get_set_eq.
  - cbn [server devices]. apply keys_set_absent, get_delete_eq.
  - exact Hmem.
  - constructor; [|apply Hs']. cbn [server]. constructor.
    + apply Hs'.
    + intros y dy gk'. cbn [devices].
      destruct (String.eqb_spec y sid) as [->|Hy].
      * rewrite get_set_eq. intros E'. injection E' as <-. cbn [groupKey].
        intros E'. injection E' as <-. eapply Hkey; eauto.
      * rewrite get_set_neq, get_delete_neq by exact Hy. eauto.
    + intros gk' y. cbn [devices ipGroups]. rewrite Hmem, Hidx.
      destruct (String.eqb_spec y sid) as [->|Hy].
      * rewrite get_set_eq. split.
        -- intros (d' & Hd' & Hg'). eexists. split; [reflexivity|]. cbn [groupKey].
           congruence.
        -- intros (d' & E' & Hg'). injection E' as <-. cbn [groupKey] in Hg'.
           exists d. split; [exact Hget|congruence].
      * now rewrite get_set_neq, get_delete_neq by exact Hy.
    + intros gk' m. cbn [ipGroups]. rewrite Hg2.
      destruct (String.eqb_spec gk' gk) as [->|]; [|apply Hne].
      intros E'. injection E' as <-. intros E'. rewrite E' in Hin. destruct Hin.
Qed.

Lemma reconnect_same_group_witness :
  exists w ds w' ds',
    run boot [Connection "a" "192.168.1.10" 0; Connection "b" "192.168.1.20" 1;
              DeviceInfoEv "a" "phone" "mobile" "Alice"] = Some (w, ds) /\
    react w (Connection "a" "192.168.77.1" 5) = Some (w', ds') /\
    In ("b", DeviceJoined "a") ds' /\
    JsMap.keys (devices (server w')) = ["b"; "a"] /\
    consistent w'.
Proof.
  destruct (run boot [Connection "a" "192.168.1.10" 0; Connection "b" "192.168.1.20" 1;
                      DeviceInfoEv "a" "phone" "mobile" "Alice"])
    as [[w ds]|] eqn:E; [|vm_compute in E; discriminate].
  assert (Hc : consistent w) by (eapply fresh_traces_consistent; [|exact E]; reflexivity).
  vm_compute in E. injection E as <- <-.
  destruct (reconnect_same_group _ "a" "192.168.77.1" 5 _ Hc eq_refl eq_refl)
    as (w' & roster & Hre & _ & _ & Hkeys & _ & Hc').
  do 2 eexists. exists w'. eexists. split; [reflexivity|]. split; [exact Hre|].
  split; [cbn; tauto|]. split; [exact Hkeys|exact Hc'].
Defined.

(* ================================================================== *)
(** ** The address shown at start-up *)

Lemma firstExternalIPv4_find l :
  firstExternalIPv4 l =
  option_map iface_address
    (find (fun i => String.eqb (family i) "IPv4" && negb (internal i)) l).
Proof.
  induction l as [|i l IH]; [reflexivity|]. cbn [firstExternalIPv4 find].
  destruct (String.eqb (family i) "IPv4" && negb (internal i)); [reflexivity|exact IH].
Qed.

Lemma find_app {A} (p : A -> bool) l1 l2 :
  find p (l1 ++ l2) = match find p l1 with Some x => Some x | None => find p l2 end.
Proof.
  induction l1 as [|a l1 IH]; [reflexivity|]. cbn [app find].
  destruct (p a); [reflexivity|exact IH].
Qed.

Lemma getLocalIP_find (interfaces : list (string * option (list NetworkInterfaceInfo))) :
  getLocalIP interfaces =
  match find (fun i => String.eqb (family i) "IPv4" && negb (internal i))
             (flat_map (fun p => match snd p with Some l => l | None => [] end) interfaces)
  with
  | Some i => iface_address i
  | None => "localhost"
  end.
Proof.
  induction interfaces as [|[name infos] rest IH]; [reflexivity|].
  cbn [getLocalIP flat_map snd]. rewrite firstExternalIPv4_find, find_app.
  destruct (find _ (match infos with Some l => l | None => [] end)) as [i|];
    cbn [option_map]; [reflexivity|exact IH].
Qed.

(** X14.  [getLocalIP] returns the address of the first entry that is
    IPv4 and not internal, taking the interfaces in the order of their
    names and the entries of each in order; it returns ["localhost"]
    exactly when there is no such entry (none at all, loopback only, IPv6
    only) unless that entry's address is itself ["localhost"]. *)
Theorem getLocalIP_first_external
        (interfaces : list (string * option (list NetworkInterfaceInfo))) :
  let entries :=
    flat_map (fun p => match snd p with Some l => l | None => [] end) interfaces in
  let external := fun i => String.eqb (family i) "IPv4" && negb (internal i) in
  getLocalIP interfaces =
    match find external entries with
    | Some i => iface_address i
    | None => "localhost"
    end /\
  (getLocalIP interfaces <> "localhost" ->
   exists i, In i entries /\ family i = "IPv4" /\ internal i = false /\
             iface_address i = getLocalIP interfaces) /\
  ((forall i, In i entries -> family i <> "IPv4" \/ internal i = true) ->
   getLocalIP interfaces = "localhost").
Proof.
  intros entries external.
  assert (Heq : getLocalIP interfaces =
                match find external entries with
                | Some i => iface_address i
                | None => "localhost"
                end).
  { apply getLocalIP_find. }
  split; [exact Heq|]. split.
  - intros Hne. rewrite Heq in *.
    destruct (find external entries) as [i|] eqn:E; [|congruence].
    apply find_some in E as [Hin Hext]. unfold external in Hext.
    apply andb_true_iff in Hext as [Hf Hi]. apply String.eqb_eq in Hf.
    apply negb_true_iff in Hi. eauto.
  - intros Hnone. rewrite Heq.
    destruct (find external entries) as [i|] eqn:E; [|reflexivity].
    apply find_some in E as [Hin Hext]. unfold external in Hext.
    apply andb_true_iff in Hext as [Hf Hi]. apply String.eqb_eq in Hf.
    apply negb_true_iff in Hi. destruct (Hnone i Hin); congruence.
Qed.

Lemma getLocalIP_first_external_witness :
  getLocalIP
    [("lo", Some [{| family := "IPv4"; internal := true; iface_address := "127.0.0.1" |}]);
     ("eth0", Some [{| family := "IPv6"; internal := false; iface_address := "fe80::1" |};
                    {| family := "IPv4"; internal := false;
                       iface_address := "192.168.1.7" |}])]
    = "192.168.1.7" /\
  getLocalIP
    [("lo", Some [{| family := "IPv4"; internal := true; iface_address := "127.0.0.1" |}]);
     ("tun0", None)] = "localhost".
Proof.
  split.
  - apply (getLocalIP_first_external
             [("lo", Some [{| family := "IPv4"; internal := true;
                              iface_address := "127.0.0.1" |}]);
              ("eth0", Some [{| family := "IPv6"; internal := false;
                                iface_address := "fe80::1" |};
                             {| family := "IPv4"; internal := false;
                                iface_address := "192.168.1.7" |}])]).
  - apply (getLocalIP_first_external
             [("lo", Some [{| family := "IPv4"; internal := true;
                              iface_address := "127.0.0.1" |}]);
              ("tun0", None)]).
    intros i [<-|[]]. now right.
Defined.
(* ================================================================== *)
(** ** The empty group key *)

Lemma In_set_only {V : Type} (k : string) (v v0 : V) (m : JsMap.t V) :
  (forall v', ~ In (k, v') m) -> In (k, v) (JsMap.set k v0 m) -> v = v0.
Proof.
  induction m as [|[k' v'] r IH]; intros Hno Hin; cbn [JsMap.set] in Hin.
  - destruct Hin as [E|[]]. now injection E as <-.
  - destruct (String.eqb_spec k k') as [<-|Hne].
    + destruct Hin as [E|Hin]; [now injection E as <-|].
      exfalso. apply (Hno v). now right.
    + destruct Hin as [E|Hin].
      * injection E as -> _. contradiction.
      * apply IH; [|exact Hin]. intros v1 H1. apply (Hno v1). now right.
Qed.

Lemma In_delete_key {V : Type} (k : string) (v : V) (m : JsMap.t V) :
  ~ In (k, v) (JsMap.delete k m).
Proof.
  unfold JsMap.delete. intros H. apply filter_In in H as [_ H].
  cbn [fst] in H. now rewrite String.eqb_refl in H.
Qed.

(** X15.  The removal paths test [if (groupKey)], and the empty string is
    falsy.  Were a connection to arrive with the empty string as its
    address, it would get the group key [""] and be put in that group's
    set, and no removal path would take it out again: [disconnect]
    deletes the record, leaves the index as it is and notifies nobody;
    a sweep after the record has expired, whatever other devices are
    registered, deletes the record, leaves the set of [""] with the
    members it had and sends no [device-left] about the id. *)
Theorem empty_address_is_never_removed (sid : string) (now later : Z) (s : State) :
  (later - now > 30000)%Z ->
  exists s1 out,
    onConnection sid "" now s = Some (s1, out) /\
    group_of sid s1 = Some "" /\
    In sid (members "" (ipGroups s1)) /\
    onDisconnect sid s1 =
      ({| devices := JsMap.delete sid (devices s1); ipGroups := ipGroups s1 |}, []) /\
    registered sid (fst (cleanupDevices later s1)) = false /\
    (forall x, In x (members "" (ipGroups (fst (cleanupDevices later s1)))) <->
               In x (members "" (ipGroups s1))) /\
    (forall r, ~ In (RoomEmit r (DeviceLeft sid)) (snd (cleanupDevices later s1))).
Proof.
  intros Hlate.
  destruct (onConnection_total sid "" now s) as (s1 & out & E).
  exists s1, out. split; [exact E|].
  pose proof (onConnection_get_device _ _ _ _ _ _ sid E) as Hget.
  rewrite String.eqb_refl in Hget. change (getNetworkGroup "") with "" in Hget.
  set (rec := {| id := sid; lastSeen := now; type := None; icon := None;
                 name := None; groupKey := Some "" |}) in *.
  assert (He : expired later rec = true).
  { unfold expired, rec. cbn [lastSeen]. apply Z.gtb_lt. lia. }
  assert (Hnone : forall d, truthy (groupKey d) <> Some "").
  { intros d H. apply truthy_Some in H as [_ H]. now apply H. }
  split; [unfold group_of; now rewrite Hget|]. split.
  { rewrite (onConnection_members _ _ _ _ _ _ "" E).
    change (getNetworkGroup "") with "". cbn [String.eqb].
    apply In_set_add. now left. }
  split; [unfold onDisconnect; rewrite Hget; reflexivity|].
  rewrite cleanupDevices_eq. cbn [fst snd devices ipGroups].
  split; [|split].
  - unfold registered. apply has_false. cbn [devices]. rewrite sweepDevices_get.
    replace (existsb _ (devices s1)) with true; [reflexivity|].
    symmetry. apply existsb_exists. exists (sid, rec). split; [now apply get_In|].
    cbn [fst snd]. now rewrite He, String.eqb_refl.
  - intros x. rewrite sweepGroups_In. split; [tauto|].
    intros H. split; [exact H|]. intros (d & _ & _ & Hd). exact (Hnone d Hd).
  - intros r Hin.
    apply sweepGroups_out in Hin as (r' & x & d & gk & Heq & Hd & _ & Hgk & _).
    injection Heq as _ <-.
    assert (d = rec) as ->.
    { rewrite (onConnection_devices _ _ _ _ _ _ E) in Hd.
      change (getNetworkGroup "") with "" in Hd.
      eapply In_set_only; [|exact Hd]. intros v'. apply In_delete_key. }
    cbn [groupKey rec truthy String.eqb] in Hgk. discriminate.
Qed.

Lemma empty_address_is_never_removed_witness :
  exists s0 s1 s2 s3,
    onConnection "b" "8.8.8.8" 0 initial = Some (s0, [SocketEmit "b" (DeviceInfoMsg "b" [])]) /\
    onConnection "a" "" 0 s0 = Some (s1, [SocketEmit "a" (DeviceInfoMsg "a" [])]) /\
    onDisconnect "a" s1 = (s2, []) /\
    registered "a" s2 = false /\ members "" (ipGroups s2) = ["a"] /\
    cleanupDevices 30001 s1 = (s3, []) /\
    registered "a" s3 = false /\ In "a" (members "" (ipGroups s3)).
Proof.
  destruct (onConnection "b" "8.8.8.8" 0 initial) as [[s0 o0]|] eqn:E0;
    [|vm_compute in E0; discriminate].
  destruct (empty_address_is_never_removed "a" 0 30001 s0 ltac:(lia))
    as (s1 & out & E & _ & Hin & Hd & Hreg & Hkeep & _).
  vm_compute in E0. injection E0 as <- <-.
  vm_compute in E. injection E as <- <-.
  do 4 eexists. split; [reflexivity|]. split; [reflexivity|]. split; [exact Hd|].
  split; [reflexivity|]. split; [reflexivity|]. split; [reflexivity|].
  split; [exact Hreg|]. apply Hkeep. exact Hin.
Defined.

(* ================================================================== *)
(** ** The compiled server and the source *)

Section DistLemmas.

Implicit Types (D : JsMap.t DeviceInfo) (k sid : string).

Lemma rwg_get k D :
  JsMap.get k (registry_without_groups D) = option_map without_group (JsMap.get k D).
Proof.
  unfold registry_without_groups. induction D as [|[k0 v0] D IH]; [reflexivity|].
  cbn [map JsMap.get fst snd]. destruct (String.eqb k k0); [reflexivity|exact IH].
Qed.

Lemma rwg_has k D : JsMap.has k (registry_without_groups D) = JsMap.has k D.
Proof. unfold JsMap.has. rewrite rwg_get. now destruct (JsMap.get k D). Qed.

Lemma rwg_set k v D :
  registry_without_groups (JsMap.set k v D) =
  JsMap.set k (without_group v) (registry_without_groups D).
Proof.
  unfold registry_without_groups. induction D as [|[k0 v0] D IH]; [reflexivity|].
  cbn [map JsMap.set fst snd]. destruct (String.eqb k k0); cbn [map fst snd];
    [reflexivity|now rewrite IH].
Qed.

Lemma rwg_delete k D :
  registry_without_groups (JsMap.delete k D) = JsMap.delete k (registry_without_groups D).
Proof.
  unfold registry_without_groups, JsMap.delete. induction D as [|[k0 v0] D IH]; [reflexivity|].
  cbn [map filter fst snd]. destruct (String.eqb k0 k); cbn [negb map fst snd];
    [exact IH|now rewrite IH].
Qed.

Lemma rwg_sweep now l D :
  sweepDevices now (registry_without_groups l) (registry_without_groups D) =
  registry_without_groups (sweepDevices now l D).
Proof.
  revert D. induction l as [|[k v] l IH]; intros D; [reflexivity|].
  change (registry_without_groups ((k, v) :: l))
    with ((k, without_group v) :: registry_without_groups l).
  rewrite !sweepDevices_cons. cbn [fst snd].
  change (expired now (without_group v)) with (expired now v).
  destruct (expired now v); [rewrite <- rwg_delete|]; apply IH.
Qed.

Lemma dist_cleanup_fold now l D out :
  fold_left (Dist.cleanupEntry now) l (D, out) =
  (sweepDevices now l D,
   out ++ map (fun e => Dist.IoEmit (DeviceLeft (fst e)))
              (filter (fun e => expired now (snd e)) l)).
Proof.
  revert D out. induction l as [|[k v] l IH]; intros D out.
  - cbn. now rewrite app_nil_r.
  - cbn [fold_left filter snd]. rewrite sweepDevices_cons. cbn [fst snd].
    unfold Dist.cleanupEntry at 2. fold (expired now v).
    destruct (expired now v); rewrite IH; [|reflexivity].
    cbn [map fst]. now rewrite <- app_assoc.
Qed.

Lemma dist_cleanupDevices now D :
  Dist.cleanupDevices now D =
  (sweepDevices now D D,
   map (fun e => Dist.IoEmit (DeviceLeft (fst e))) (filter (fun e => expired now (snd e)) D)).
Proof. unfold Dist.cleanupDevices. now rewrite dist_cleanup_fold. Qed.

Lemma onDisconnect_devices sid (s : State) :
  devices (fst (onDisconnect sid s)) = JsMap.delete sid (devices s).
Proof.
  unfold onDisconnect.
  now destruct (match JsMap.get sid (devices s) with Some device => _ | None => _ end).
Qed.

Lemma onHeartbeat_devices sid now (s : State) :
  devices (fst (onHeartbeat sid now s)) = fst (Dist.onHeartbeat sid now (devices s)).
Proof.
  unfold onHeartbeat, Dist.onHeartbeat. now destruct (JsMap.get sid (devices s)).
Qed.

Lemma onDeviceInfo_devices sid ty ic nm (s s' : State) out :
  onDeviceInfo sid ty ic nm s = Some (s', out) ->
  devices s' = fst (Dist.onDeviceInfo sid ty ic nm (devices s)).
Proof.
  unfold onDeviceInfo, Dist.onDeviceInfo.
  destruct (JsMap.get sid (devices s)) as [d|]; [|now intros E; injection E as <- <-].
  cbn [groupKey]. destruct (truthy (groupKey d)) as [gk|].
  - destruct (JsMap.get gk (ipGroups s)); [|discriminate]. now intros E; injection E as <- <-.
  - now intros E; injection E as <- <-.
Qed.

Lemma dist_heartbeat_rwg sid now D :
  fst (Dist.onHeartbeat sid now (registry_without_groups D)) =
  registry_without_groups (fst (Dist.onHeartbeat sid now D)).
Proof.
  unfold Dist.onHeartbeat. rewrite rwg_get.
  destruct (JsMap.get sid D) as [d|]; cbn [option_map fst]; [|reflexivity].
  now rewrite rwg_set.
Qed.

Lemma dist_deviceInfo_rwg sid ty ic nm D :
  fst (Dist.onDeviceInfo sid ty ic nm (registry_without_groups D)) =
  registry_without_groups (fst (Dist.onDeviceInfo sid ty ic nm D)).
Proof.
  unfold Dist.onDeviceInfo. rewrite rwg_get.
  destruct (JsMap.get sid D) as [d|]; cbn [option_map fst]; [|reflexivity].
  now rewrite rwg_set.
Qed.

Lemma dist_connection_devices sid now D :
  fst (Dist.onConnection sid now D) =
  JsMap.set sid (Dist.record sid now) (JsMap.delete sid D).
Proof.
  unfold Dist.onConnection. cbn [fst]. destruct (JsMap.has sid D) eqn:E; [reflexivity|].
  apply has_false in E. now rewrite delete_absent.
Qed.

Lemma step_same_registry w wd e w' out :
  same_registry w wd -> step w e = Some (w', out) ->
  same_registry w' (fst (Dist.step wd e)).
Proof.
  intros [Hd Hs] H. unfold same_registry.
  destruct e as [sid ip now|sid now|sid ty ic nm|sid rd|sid|now]; cbn [step Dist.step] in *.
  - destruct (onConnection sid ip now (server w)) as [[s' o]|] eqn:E; [|discriminate].
    injection H as <- <-. cbn [server sockets].
    pose proof (dist_connection_devices sid now (Dist.devices wd)) as Hc.
    destruct (Dist.onConnection sid now (Dist.devices wd)) as [d o']. cbn [fst] in *.
    subst d. cbn [Dist.devices Dist.sockets].
    rewrite (onConnection_devices _ _ _ _ _ _ E), rwg_set, rwg_delete, Hd, Hs. auto.
  - rewrite Hs. destruct (JsSet.has sid (sockets w)).
    + pose proof (onHeartbeat_devices sid now (server w)) as Hh.
      destruct (onHeartbeat sid now (server w)) as [s' o]. injection H as <- <-.
      pose proof (dist_heartbeat_rwg sid now (devices (server w))) as Hr.
      rewrite <- Hd in Hr.
      destruct (Dist.onHeartbeat sid now (Dist.devices wd)) as [d o'].
      cbn [fst server sockets Dist.devices Dist.sockets] in *. rewrite Hr, Hh. auto.
    + injection H as <- <-. cbn [fst]. auto.
  - rewrite Hs. destruct (JsSet.has sid (sockets w)).
    + destruct (onDeviceInfo sid ty ic nm (server w)) as [[s' o]|] eqn:E; [|discriminate].
      injection H as <- <-.
      pose proof (dist_deviceInfo_rwg sid ty ic nm (devices (server w))) as Hr.
      rewrite <- Hd in Hr.
      destruct (Dist.onDeviceInfo sid ty ic nm (Dist.devices wd)) as [d o'].
      cbn [fst server sockets Dist.devices Dist.sockets] in *.
      rewrite Hr, (onDeviceInfo_devices _ _ _ _ _ _ _ E). auto.
    + injection H as <- <-. cbn [fst]. auto.
  - rewrite Hs. destruct (JsSet.has sid (sockets w)); injection H as <- <-; cbn [fst]; auto.
  - rewrite Hs. destruct (JsSet.has sid (sockets w)).
    + pose proof (onDisconnect_devices sid (server w)) as Ho.
      destruct (onDisconnect sid (server w)) as [s' o]. injection H as <- <-.
      cbn [Dist.onDisconnect fst server sockets Dist.devices Dist.sockets] in *.
      rewrite Ho, rwg_delete, Hd. auto.
    + injection H as <- <-. cbn [fst]. auto.
  - pose proof (cleanupDevices_eq now (server w)) as Hc.
    destruct (cleanupDevices now (server w)) as [s' o]. injection H as <- <-.
    injection Hc as -> _. rewrite dist_cleanupDevices.
    cbn [fst server sockets devices Dist.devices Dist.sockets].
    rewrite Hd, rwg_sweep, Hs. auto.
Qed.

Lemma dist_run_cons w e es :
  fst (Dist.run w (e :: es)) = fst (Dist.run (fst (Dist.step w e)) es).
Proof.
  cbn [Dist.run]. unfold Dist.react. destruct (Dist.step w e) as [w1 out]. cbn [fst].
  now destruct (Dist.run w1 es).
Qed.

Lemma run_same_registry es :
  forall w wd w' ds,
    same_registry w wd -> run w es = Some (w', ds) ->
    same_registry w' (fst (Dist.run wd es)).
Proof.
  induction es as [|e es IH]; intros w wd w' ds HR H.
  - injection H as <- <-. exact HR.
  - cbn [run] in H. destruct (react w e) as [[w1 d1]|] eqn:E; [|discriminate].
    destruct (run w1 es) as [[w2 d2]|] eqn:E2; [|discriminate].
    injection H as <- <-. rewrite dist_run_cons.
    apply react_step in E as (out & Hst & _).
    eapply IH; [|exact E2]. eapply step_same_registry; eauto.
Qed.

End DistLemmas.

Lemma dist_In_io socks out r m :
  In (Dist.IoEmit m) out -> In r socks -> In (r, m) (Dist.deliveries socks out).
Proof.
  intros Hout Hr. unfold Dist.deliveries. apply in_flat_map.
  exists (Dist.IoEmit m). split; [exact Hout|]. cbn [Dist.received].
  apply in_map_iff. eauto.
Qed.

Lemma dist_react_eq wd e :
  Dist.react wd e =
  (fst (Dist.step wd e),
   Dist.deliveries (Dist.sockets (fst (Dist.step wd e))) (snd (Dist.step wd e))).
Proof. unfold Dist.react. now destruct (Dist.step wd e). Qed.

Lemma dist_step_tick wd now :
  Dist.step wd (Tick now) =
  ({| Dist.devices := sweepDevices now (Dist.devices wd) (Dist.devices wd);
      Dist.sockets := Dist.sockets wd |},
   map (fun e => Dist.IoEmit (DeviceLeft (fst e)))
       (filter (fun e => expired now (snd e)) (Dist.devices wd))).
Proof. cbn [Dist.step]. now rewrite dist_cleanupDevices. Qed.

Lemma rwg_In x d D :
  In (x, d) D -> In (x, without_group d) (registry_without_groups D).
Proof.
  intros H. unfold registry_without_groups.
  apply in_map_iff. exists (x, d). split; [reflexivity|exact H].
Qed.

(** What the source delivers of the common messages, the compiled server
    delivers too. *)
Lemma step_delivers_at_least w wd e w' out r m :
  same_registry w wd -> step w e = Some (w', out) ->
  In (r, m) (deliveries (sockets w') out) -> common m = true ->
  In (r, m) (snd (Dist.react wd e)).
Proof.
  intros [Hd Hs] H Hin Hcm. rewrite dist_react_eq. cbn [snd].
  apply In_deliveries in Hin.
  destruct e as [sid ip now|sid now|sid ty ic nm|sid rd|sid|now]; cbn [step] in H.
  - destruct (onConnection_inv sid ip now (server w)) as (g2 & E & _).
    rewrite E in H. injection H as <- <-. rewrite others_delete in Hin.
    cbn [sockets] in Hin.
    destruct Hin as [Hin|[Hin Ho]].
    + destruct Hin as [E'|Hin]; [|apply in_map_iff in Hin as (i & E' & _); discriminate].
      injection E' as _ <-. discriminate Hcm.
    + destruct Hin as [E'|Hin]; [discriminate|].
      apply in_map_iff in Hin as (i & E' & Hi). injection E' as -> <-.
      apply In_set_delete in Hi as [_ Hne]. apply set_has_In in Ho.
      cbn [Dist.step]. unfold Dist.onConnection.
      cbn [fst snd Dist.sockets Dist.deliveries flat_map Dist.received].
      apply in_or_app. right. apply in_or_app. left.
      apply in_map_iff. exists r. split; [reflexivity|].
      apply In_set_delete. rewrite Hs. auto.
  - destruct (JsSet.has sid (sockets w)).
    + pose proof (onHeartbeat_out sid now (server w)) as Ho.
      destruct (onHeartbeat sid now (server w)) as [s' o]. injection H as <- <-.
      cbn [snd] in Ho. subst o. destruct Hin as [[]|[[] _]].
    + injection H as <- <-. destruct Hin as [[]|[[] _]].
  - destruct (JsSet.has sid (sockets w)) eqn:Eo;
      [|injection H as <- <-; destruct Hin as [[]|[[] _]]].
    unfold onDeviceInfo in H.
    destruct (JsMap.get sid (devices (server w))) as [dv|] eqn:Ed;
      [|injection H as <- <-; destruct Hin as [[]|[[] _]]].
    cbn [groupKey] in H.
    assert (Hupd : m = DeviceInfoUpdate sid ty ic nm /\ JsSet.has r (sockets w) = true).
    { destruct (truthy (groupKey dv)) as [gk|].
      - destruct (JsMap.get gk (ipGroups (server w))) as [mem|]; [|discriminate].
        injection H as <- <-. cbn [sockets] in Hin.
        destruct Hin as [Hin|[Hin Ho]]; apply in_map_iff in Hin as (i & E' & _);
          [discriminate|]. injection E' as -> <-. auto.
      - injection H as <- <-. destruct Hin as [[]|[[] _]]. }
    destruct Hupd as [-> Ho]. apply set_has_In in Ho.
    cbn [Dist.step]. rewrite Hs, Eo. unfold Dist.onDeviceInfo. rewrite Hd, rwg_get, Ed.
    cbn [option_map fst snd Dist.sockets]. apply dist_In_io; [now left|exact Ho].
  - destruct (JsSet.has sid (sockets w)) eqn:Eo;
      [|injection H as <- <-; destruct Hin as [[]|[[] _]]].
    injection H as <- <-. cbn [sockets] in Hin.
    destruct Hin as [[E'|[]]|[[E'|[]] Ho]]; [discriminate|].
    injection E' as <- <-.
    cbn [Dist.step]. rewrite Hs, Eo. cbn [fst snd Dist.sockets].
    assert (Hr : Dist.onRelay sid rd = [Dist.RoomEmit (target rd) (forward sid rd)]).
    { destruct rd; try reflexivity; discriminate Hcm. }
    rewrite Hr. cbn [Dist.deliveries flat_map Dist.received]. rewrite Hs, Ho. now left.
  - destruct (JsSet.has sid (sockets w)) eqn:Eo;
      [|injection H as <- <-; destruct Hin as [[]|[[] _]]].
    assert (Hleft : m = DeviceLeft sid /\ JsSet.has r (JsSet.delete sid (sockets w)) = true).
    { destruct (JsMap.get sid (devices (server w))) as [dv|] eqn:Ed.
      - rewrite (onDisconnect_evict _ _ _ Ed) in H.
        pose proof (evict_out sid dv (server w)) as Ho.
        destruct (evict sid dv (server w)) as [s' o]. injection H as <- <-.
        cbn [snd sockets] in *. subst o.
        destruct (truthy (groupKey dv)) as [gk|]; [|destruct Hin as [[]|[[] _]]].
        destruct Hin as [Hin|[Hin Ho]]; apply in_map_iff in Hin as (i & E' & _);
          [discriminate|]. injection E' as -> <-. auto.
      - rewrite (onDisconnect_absent _ _ Ed) in H. injection H as <- <-.
        destruct Hin as [[]|[[] _]]. }
    destruct Hleft as [-> Ho]. apply set_has_In in Ho.
    cbn [Dist.step]. rewrite Hs, Eo. cbn [Dist.onDisconnect fst snd Dist.sockets].
    apply dist_In_io; [now left|exact Ho].
  - pose proof (cleanupDevices_out now (server w)) as Hout.
    destruct (cleanupDevices now (server w)) as [s' o]. injection H as <- <-.
    cbn [snd sockets] in *. subst o.
    assert (Hroom : In (RoomEmit r m) (snd (sweepGroups now (devices (server w))
                                               (ipGroups (server w)))) /\
                    JsSet.has r (sockets w) = true).
    { destruct Hin as [Hin|Hin]; [|exact Hin].
      apply sweepGroups_out in Hin as (? & ? & ? & ? & E & _). discriminate. }
    destruct Hroom as [Hroom Ho]. apply set_has_In in Ho.
    apply sweepGroups_out in Hroom as (r0 & x & d & gk & E & Hl & He & _).
    injection E as _ ->.
    rewrite dist_step_tick. cbn [fst snd Dist.sockets].
    apply dist_In_io; [|now rewrite Hs].
    apply in_map_iff. exists (x, without_group d). split; [reflexivity|].
    apply filter_In. split; [rewrite Hd; now apply rwg_In|exact He].
Qed.

Lemma boot_same_registry : same_registry boot Dist.boot.
Proof. split; reflexivity. Qed.

(** X16.  Fed the same events, the compiled server under [dist/] and the
    source keep the same registry (the records of the source without their
    group key, in the same order) and the same set of open connections. *)
Theorem dist_keeps_same_registry (es : list Event) :
  exists w ds,
    run boot es = Some (w, ds) /\
    Dist.devices (fst (Dist.run Dist.boot es)) = registry_without_groups (devices (server w)) /\
    Dist.sockets (fst (Dist.run Dist.boot es)) = sockets w /\
    forall x, JsMap.has x (Dist.devices (fst (Dist.run Dist.boot es))) = registered x (server w).
Proof.
  destruct (run_total boot es boot_sound) as (w & ds & Hrun).
  destruct (run_same_registry es _ _ _ _ boot_same_registry Hrun) as [Hd Hs].
  exists w, ds. split; [exact Hrun|]. split; [exact Hd|]. split; [exact Hs|].
  intros x. rewrite Hd. apply rwg_has.
Qed.

(** X17.  Grouping only removes deliveries: after any sequence of events,
    every join, leave or profile notice, and every forwarded message of
    the five kinds both builds handle, that the source delivers to a
    connection in answer to an event, the compiled server delivers to that
    connection too. *)
Theorem dist_delivers_at_least (es : list Event) (e : Event) :
  exists w ds w' ds',
    run boot es = Some (w, ds) /\
    react w e = Some (w', ds') /\
    forall r m, In (r, m) ds' -> common m = true ->
                In (r, m) (snd (Dist.react (fst (Dist.run Dist.boot es)) e)).
Proof.
  destruct (run_total boot es boot_sound) as (w & ds & Hrun).
  pose proof (run_sound _ _ _ _ boot_sound Hrun) as Hsound.
  destruct (react_total w e Hsound) as (w' & ds' & Hre).
  exists w, ds, w', ds'. split; [exact Hrun|]. split; [exact Hre|].
  intros r m Hin Hc. apply react_step in Hre as (out & Hst & ->).
  eapply step_delivers_at_least; eauto.
  eapply run_same_registry; [apply boot_same_registry|exact Hrun].
Qed.

(** X18.  In the compiled server a device removed by the sweep is
    announced to every open connection, the removed one included; when
    that connection later closes, [disconnect] announces it again to all
    the others, because the handler does not look at the registry. *)
Theorem dist_leave_is_announced_twice (wd : Dist.World) (x r : string) (d : DeviceInfo)
        (now : Z) :
  JsMap.get x (Dist.devices wd) = Some d -> (now - lastSeen d > 30000)%Z ->
  In x (Dist.sockets wd) -> In r (Dist.sockets wd) -> r <> x ->
  let swept := Dist.react wd (Tick now) in
  let closed := Dist.react (fst swept) (Disconnect x) in
  In (r, DeviceLeft x) (snd swept) /\
  In (x, DeviceLeft x) (snd swept) /\
  JsMap.get x (Dist.devices (fst swept)) = None /\
  In (r, DeviceLeft x) (snd closed) /\
  ~ In x (Dist.sockets (fst closed)).
Proof.
  intros Hget Hold Hx Hr Hne swept closed.
  assert (He : expired now d = true) by (unfold expired; apply Z.gtb_lt; lia).
  assert (Hout : In (Dist.IoEmit (DeviceLeft x))
                    (map (fun e => Dist.IoEmit (DeviceLeft (fst e)))
                         (filter (fun e => expired now (snd e)) (Dist.devices wd)))).
  { apply in_map_iff. exists (x, d). split; [reflexivity|].
    apply filter_In. split; [now apply get_In|exact He]. }
  assert (Hsw : swept =
                ({| Dist.devices := sweepDevices now (Dist.devices wd) (Dist.devices wd);
                    Dist.sockets := Dist.sockets wd |},
                 Dist.deliveries (Dist.sockets wd)
                   (map (fun e => Dist.IoEmit (DeviceLeft (fst e)))
                        (filter (fun e => expired now (snd e)) (Dist.devices wd))))).
  { unfold swept. now rewrite dist_react_eq, dist_step_tick. }
  rewrite Hsw. cbn [fst snd Dist.devices].
  split; [now apply dist_In_io|]. split; [now apply dist_In_io|]. split.
  - rewrite sweepDevices_get.
    assert (Hex : existsb (fun e => expired now (snd e) && String.eqb (fst e) x)
                          (Dist.devices wd) = true).
    { apply existsb_exists. exists (x, d). split; [now apply get_In|].
      cbn [fst snd]. now rewrite He, String.eqb_refl. }
    now rewrite Hex.
  - unfold closed. rewrite Hsw, dist_react_eq. cbn [fst snd Dist.step Dist.sockets].
    apply set_has_In in Hx. rewrite Hx.
    cbn [Dist.onDisconnect fst snd Dist.sockets]. split.
    + apply dist_In_io; [now left|]. apply In_set_delete. auto.
    + intros H. apply In_set_delete in H as [_ H]. congruence.
Qed.

Lemma dist_leave_is_announced_twice_witness :
  let wd := fst (Dist.run Dist.boot [Connection "a" "8.8.8.8" 0; Connection "b" "9.9.9.9" 25000]) in
  In ("b", DeviceLeft "a") (snd (Dist.react wd (Tick 31000))) /\
  In ("b", DeviceLeft "a")
     (snd (Dist.react (fst (Dist.react wd (Tick 31000))) (Disconnect "a"))).
Proof.
  intros wd.
  destruct (dist_leave_is_announced_twice wd "a" "b" (Dist.record "a" 0) 31000)
    as (H1 & _ & _ & H2 & _).
  - reflexivity.
  - cbn. lia.
  - cbn. tauto.
  - cbn. tauto.
  - discriminate.
  - split; [exact H1|exact H2].
Defined.

(* ================================================================== *)
(** ** Connect, then disconnect *)

Section RoundTrip.

Lemma set_set {V} k (v1 v2 : V) (m : JsMap.t V) :
  JsMap.set k v2 (JsMap.set k v1 m) = JsMap.set k v2 m.
Proof.
  induction m as [|[k0 v0] m IH]; cbn.
  - now rewrite String.eqb_refl.
  - destruct (String.eqb k k0) eqn:E; cbn; rewrite ?String.eqb_refl, ?E; [reflexivity|].
    now rewrite IH.
Qed.

Lemma set_same {V} k (v : V) (m : JsMap.t V) : JsMap.get k m = Some v -> JsMap.set k v m = m.
Proof.
  induction m as [|[k0 v0] m IH]; cbn; [discriminate|].
  destruct (String.eqb_spec k k0) as [->|Hne].
  - intros E. now injection E as ->.
  - intros E. now rewrite IH.
Qed.

Lemma delete_set_absent {V} k (v : V) (m : JsMap.t V) :
  JsMap.get k m = None -> JsMap.delete k (JsMap.set k v m) = m.
Proof.
  unfold JsMap.delete. induction m as [|[k0 v0] m IH]; cbn.
  - now rewrite String.eqb_refl.
  - destruct (String.eqb_spec k k0) as [->|Hne]; [discriminate|].
    intros E. cbn. destruct (String.eqb_spec k0 k); [congruence|]. cbn. now rewrite IH.
Qed.

Lemma set_delete_add x (m : JsSet.t) : ~ In x m -> JsSet.delete x (JsSet.add x m) = m.
Proof.
  intros H. rewrite (set_add_absent _ _ H). unfold JsSet.delete.
  rewrite filter_app. cbn. rewrite String.eqb_refl. cbn. rewrite app_nil_r.
  now apply set_delete_absent.
Qed.

(** The group index after a connection, as a map. *)
Lemma onConnection_groups sid ip now s s' out :
  onConnection sid ip now s = Some (s', out) ->
  ipGroups s' =
  JsMap.set (getNetworkGroup ip)
            (JsSet.add sid (members (getNetworkGroup ip) (ipGroups s))) (ipGroups s).
Proof.
  unfold onConnection, members, JsMap.has.
  set (gk := getNetworkGroup ip).
  destruct (JsMap.get gk (ipGroups s)) as [m|] eqn:Eg; cbn [negb].
  - rewrite Eg, get_set_eq. intros E. now injection E as <- _.
  - rewrite get_set_eq, get_set_eq. intros E. injection E as <- _. cbn [ipGroups].
    apply set_set.
Qed.

(** Leaving right after joining restores the index. *)
Lemma leave_after_join sid gk (g : JsMap.t JsSet.t) :
  ~ In sid (members gk g) ->
  (forall m, JsMap.get gk g = Some m -> m <> []) ->
  leaveGroup sid gk (JsMap.set gk (JsSet.add sid (members gk g)) g) =
  (g, map (fun r => RoomEmit r (DeviceLeft sid)) (members gk g)).
Proof.
  intros Hnot Hne. unfold leaveGroup. rewrite get_set_eq, set_set, set_delete_add by exact Hnot.
  unfold members in *. destruct (JsMap.get gk g) as [m|] eqn:Eg.
  - rewrite (set_same _ _ _ Eg), Eg.
    destruct m as [|a m]; [now destruct (Hne [] eq_refl)|]. cbn [JsSet.size List.length Nat.eqb].
    now rewrite Eg.
  - rewrite get_set_eq. cbn [JsSet.size List.length Nat.eqb].
    rewrite (delete_set_absent _ _ _ Eg), Eg. reflexivity.
Qed.

End RoundTrip.

(** X19.  A connection that arrives under an id new to the transport, from
    a non-empty address, and is closed before anything else happens,
    leaves the server exactly as it was: both maps and the set of open
    connections are restored.  In between the newcomer got its roster, and
    every member of its group got one [device-joined] followed by one
    [device-left]. *)
Theorem connect_then_disconnect (w : World) (sid ip : string) (now : Z) :
  consistent w -> JsSet.has sid (sockets w) = false -> ip <> "" ->
  exists roster,
    run w [Connection sid ip now; Disconnect sid] =
      Some (w, ((sid, DeviceInfoMsg sid roster)
                :: map (fun i => (i, DeviceJoined sid))
                       (members (getNetworkGroup ip) (ipGroups (server w))))
               ++ map (fun i => (i, DeviceLeft sid))
                      (members (getNetworkGroup ip) (ipGroups (server w))) ++ []) /\
    map id roster = members (getNetworkGroup ip) (ipGroups (server w)).
Proof.
  intros Hc Hclosed Hip.
  pose proof (consistent_server w Hc) as [Hco Hkey Hidx Hne].
  unfold index_matches_registry in Hidx.
  set (gk := getNetworkGroup ip). set (peers := members gk (ipGroups (server w))).
  assert (Hreg : JsMap.get sid (devices (server w)) = None).
  { apply has_false. destruct (registered sid (server w)) eqn:E; [|exact E].
    apply (consistent_open w Hc) in E. congruence. }
  assert (Hnot : ~ In sid peers).
  { intros Hin. apply Hidx in Hin as (d & Hd & _). congruence. }
  assert (Hpeer : forall i, In i peers ->
                    i <> sid /\ JsSet.has i (sockets w) = true /\
                    exists d, JsMap.get i (devices (server w)) = Some d /\ id d = i).
  { intros i Hi. pose proof Hi as Hi'. apply Hidx in Hi as (d & Hd & _).
    split; [intros ->; contradiction|]. split.
    - apply (consistent_open w Hc). unfold registered, JsMap.has. now rewrite Hd.
    - exists d. split; [exact Hd|]. now apply (coherent_record _ Hco i d Hd). }
  destruct (onConnection_inv sid ip now (server w)) as (g2 & E & _).
  pose proof (onConnection_groups _ _ _ _ _ _ E) as Hg. cbn [ipGroups] in Hg.
  fold gk in E, Hg. fold peers in E, Hg. subst g2.
  rewrite others_delete, (set_delete_absent _ _ Hnot), (delete_absent _ _ Hreg) in E.
  pose proof (step_connection _ _ _ _ _ _ E) as Hst.
  eexists. split.
  - cbn [run]. unfold react at 1. rewrite Hst. cbn [sockets].
    unfold react. cbn [step sockets server].
    assert (Ho : JsSet.has sid (JsSet.add sid (sockets w)) = true).
    { apply set_has_In, In_set_add. now left. }
    rewrite Ho. unfold onDisconnect. cbn [devices ipGroups]. rewrite get_set_eq.
    cbn [groupKey truthy].
    assert (Hgk : String.eqb gk "" = false).
    { apply String.eqb_neq. unfold gk. now rewrite getNetworkGroup_empty_iff. }
    subst peers. rewrite Hgk, leave_after_join; [|exact Hnot|].
    2:{ intros m Hm. eapply Hne; eauto. }
    rewrite (delete_set_absent _ _ _ Hreg).
    assert (Hs : JsSet.delete sid (JsSet.add sid (sockets w)) = sockets w).
    { apply set_delete_add. now apply set_has_false. }
    rewrite Hs.
    replace {| server := {| devices := devices (server w); ipGroups := ipGroups (server w) |};
               sockets := sockets w |} with w by (destruct w as [[? ?] ?]; reflexivity).
    f_equal. f_equal. f_equal.
    + cbn [deliveries flat_map received app]. f_equal.
      apply (deliveries_rooms _ (fun _ => DeviceJoined sid)).
      intros i Hi. destruct (Hpeer i Hi) as (_ & Hopen & _).
      apply set_has_In, In_set_add. right. now apply set_has_In.
    + f_equal. apply (deliveries_rooms _ (fun _ => DeviceLeft sid)).
      intros i Hi. now destruct (Hpeer i Hi) as (_ & Hopen & _).
  - apply roster_ids. intros i Hi. destruct (Hpeer i Hi) as (_ & _ & d & Hd & Hid). eauto.
Qed.

Lemma connect_then_disconnect_witness :
  exists w ds ds',
    run boot [Connection "a" "192.168.1.10" 0; Connection "c" "203.0.113.5" 1] = Some (w, ds) /\
    run w [Connection "b" "192.168.1.20" 2; Disconnect "b"] = Some (w, ds') /\
    In ("a", DeviceJoined "b") ds' /\ In ("a", DeviceLeft "b") ds'.
Proof.
  destruct (run boot [Connection "a" "192.168.1.10" 0; Connection "c" "203.0.113.5" 1])
    as [[w ds]|] eqn:E; [|vm_compute in E; discriminate].
  assert (Hc : consistent w) by (eapply fresh_traces_consistent; [|exact E]; reflexivity).
  vm_compute in E. injection E as <- <-.
  destruct (connect_then_disconnect _ "b" "192.168.1.20" 2 Hc eq_refl ltac:(discriminate))
    as (roster & Hrun & _).
  do 3 eexists. split; [reflexivity|]. split; [exact Hrun|].
  split; cbn; tauto.
Defined.

(* ================================================================== *)
(** ** Nobody is told about itself *)

Lemma step_not_about_itself w e w' out r :
  step w e = Some (w', out) ->
  ~ In (RoomEmit r (DeviceJoined r)) out /\ ~ In (RoomEmit r (DeviceLeft r)) out /\
  (forall m, In (SocketEmit r m) out -> exists peers, m = DeviceInfoMsg r peers).
Proof.
  intros H.
  destruct e as [sid ip now|sid now|sid ty ic nm|sid rd|sid|now]; cbn [step] in H.
  - destruct (onConnection_inv sid ip now (server w)) as (g2 & E & _).
    rewrite E in H. injection H as <- <-. rewrite others_delete.
    split; [|split].
    + intros [E'|Hin]; [discriminate|].
      apply in_map_iff in Hin as (i & E' & Hi). injection E' as -> ->.
      apply In_set_delete in Hi as [_ Hi]. congruence.
    + intros [E'|Hin]; [discriminate|].
      apply in_map_iff in Hin as (i & E' & Hi). discriminate.
    + intros m [E'|Hin]; [injection E' as -> <-; eauto|].
      apply in_map_iff in Hin as (i & E' & _). discriminate.
  - destruct (JsSet.has sid (sockets w)).
    + pose proof (onHeartbeat_out sid now (server w)) as Ho.
      destruct (onHeartbeat sid now (server w)) as [s' o]. injection H as <- <-.
      cbn [snd] in Ho. subst o. split; [intros []|split; [intros []|intros m []]].
    + injection H as <- <-. split; [intros []|split; [intros []|intros m []]].
  - assert (Hout : forall e, In e out -> exists i, e = RoomEmit i (DeviceInfoUpdate sid ty ic nm)).
    { destruct (JsSet.has sid (sockets w)); [|injection H as <- <-; intros e []].
      unfold onDeviceInfo in H.
      destruct (JsMap.get sid (devices (server w))) as [dv|];
        [|injection H as <- <-; intros e []].
      cbn [groupKey] in H. destruct (truthy (groupKey dv)) as [gk|].
      - destruct (JsMap.get gk (ipGroups (server w))); [|discriminate].
        injection H as <- <-. intros e He. apply in_map_iff in He as (i & <- & _). eauto.
      - injection H as <- <-. intros e []. }
    split; [|split].
    + intros Hin. apply Hout in Hin as (i & E'). discriminate.
    + intros Hin. apply Hout in Hin as (i & E'). discriminate.
    + intros m Hin. apply Hout in Hin as (i & E'). discriminate.
  - assert (Hout : forall e, In e out -> e = RoomEmit (target rd) (forward sid rd)).
    { destruct (JsSet.has sid (sockets w)); injection H as <- <-; [|intros e []].
      intros e [<-|[]]. reflexivity. }
    split; [|split].
    + intros Hin. apply Hout in Hin. injection Hin as _ E'. destruct rd; discriminate.
    + intros Hin. apply Hout in Hin. injection Hin as _ E'. destruct rd; discriminate.
    + intros m Hin. apply Hout in Hin. discriminate.
  - assert (Hout : forall e, In e out -> exists i, i <> sid /\ e = RoomEmit i (DeviceLeft sid)).
    { destruct (JsSet.has sid (sockets w)); [|injection H as <- <-; intros e []].
      destruct (JsMap.get sid (devices (server w))) as [dv|] eqn:Ed.
      - rewrite (onDisconnect_evict _ _ _ Ed) in H.
        pose proof (evict_out sid dv (server w)) as Ho.
        destruct (evict sid dv (server w)) as [s' o]. injection H as <- <-.
        cbn [snd] in Ho. subst o.
        destruct (truthy (groupKey dv)); [|intros e []].
        intros e He. apply in_map_iff in He as (i & <- & Hi).
        apply In_set_delete in Hi as [_ Hi]. eauto.
      - rewrite (onDisconnect_absent _ _ Ed) in H. injection H as <- <-. intros e []. }
    split; [|split].
    + intros Hin. apply Hout in Hin as (i & _ & E'). discriminate.
    + intros Hin. apply Hout in Hin as (i & Hi & E'). injection E' as -> ->. congruence.
    + intros m Hin. apply Hout in Hin as (i & _ & E'). discriminate.
  - pose proof (cleanupDevices_out now (server w)) as Ho.
    destruct (cleanupDevices now (server w)) as [s' o]. injection H as <- <-.
    cbn [snd] in Ho. subst o. split; [|split].
    + intros Hin. apply sweepGroups_out in Hin as (? & ? & ? & ? & E' & _). discriminate.
    + intros Hin. apply sweepGroups_out in Hin as (r0 & x & ? & ? & E' & _ & _ & _ & _ & Hne).
      injection E' as -> ->. congruence.
    + intros m Hin. apply sweepGroups_out in Hin as (? & ? & ? & ? & E' & _). discriminate.
Qed.

(** X20.  Whatever has happened before, ids reused or not, the source
    never delivers to a connection a [device-joined] or a [device-left]
    notice about that connection itself. *)
Theorem never_told_about_itself (es : list Event) (e : Event) :
  exists w ds w' ds',
    run boot es = Some (w, ds) /\
    react w e = Some (w', ds') /\
    forall r, ~ In (r, DeviceJoined r) ds' /\ ~ In (r, DeviceLeft r) ds'.
Proof.
  destruct (run_total boot es boot_sound) as (w & ds & Hrun).
  pose proof (run_sound _ _ _ _ boot_sound Hrun) as Hs.
  destruct (react_total w e Hs) as (w' & ds' & Hre).
  exists w, ds, w', ds'. split; [exact Hrun|]. split; [exact Hre|].
  apply react_step in Hre as (out & Hst & ->).
  intros r. destruct (step_not_about_itself _ _ _ _ r Hst) as (Hj & Hl & Hsock).
  split; intros Hin; apply In_deliveries in Hin as [Hin|[Hin _]]; try contradiction;
    apply Hsock in Hin as (peers & E); discriminate.
Qed.
